(** * Batch generation and pipeline construction of the chat front end

    A shallow embedding of the orchestration code of
    [src/components/ChatInterface.tsx] ([handleSend],
    [executeSingleGeneration], [handleStop]) and of the pipeline form of
    [src/components/PipelineModal.tsx] ([processFiles], [removeAttachment],
    [handleExecute] and the step handlers), with the properties the
    specification states about them. *)

From Stdlib Require Import String Ascii DecimalString.
From Stdlib Require Import List ZArith NArith QArith Bool Lia Arith.
From Stdlib Require Import Permutation.
Import ListNotations.

Close Scope Q_scope.
Open Scope nat_scope.
Open Scope list_scope.

Set Implicit Arguments.

(* ===================================================================== *)
(** ** JavaScript strings and the library calls the components use *)
(* ===================================================================== *)

Module Js.

(** A JavaScript string is a sequence of UTF-16 code units. *)
Definition jsstring := list N.

(** An ASCII literal as a JavaScript string. *)
Definition lit (s : string) : jsstring :=
  map N_of_ascii (list_ascii_of_string s).

Arguments lit s%_string.

(** [if (s)]: the empty string is the only falsy string. *)
Definition truthy (s : jsstring) : bool :=
  match s with
  | [] => false
  | _ :: _ => true
  end.

(** ECMAScript WhiteSpace and LineTerminator code points, the ones
    [String.prototype.trim] strips. *)
Definition isWhiteSpace (c : N) : bool :=
  ((9 <=? c) && (c <=? 13)        (* TAB LF VT FF CR *)
   || (c =? 32)                   (* SP *)
   || (c =? 160)                  (* NBSP *)
   || (c =? 5760)                 (* U+1680 *)
   || ((8192 <=? c) && (c <=? 8202))   (* U+2000 .. U+200A *)
   || (c =? 8232) || (c =? 8233)  (* LS PS *)
   || (c =? 8239)                 (* U+202F *)
   || (c =? 8287)                 (* U+205F *)
   || (c =? 12288)                (* U+3000 *)
   || (c =? 65279))%N.            (* U+FEFF *)

Fixpoint trimStart (s : jsstring) : jsstring :=
  match s with
  | [] => []
  | c :: s' => if isWhiteSpace c then trimStart s' else s
  end.

Definition trimEnd (s : jsstring) : jsstring := rev (trimStart (rev s)).

(** [s.trim()] *)
Definition trim (s : jsstring) : jsstring := trimEnd (trimStart s).

(** [s.startsWith(prefix)] *)
Fixpoint startsWith (s prefix : jsstring) : bool :=
  match prefix, s with
  | [], _ => true
  | _ :: _, [] => false
  | p :: prefix', c :: s' => (c =? p)%N && startsWith s' prefix'
  end.

(** [a === b] on strings *)
Fixpoint strEq (a b : jsstring) : bool :=
  match a, b with
  | [], [] => true
  | x :: a', y :: b' => (x =? y)%N && strEq a' b'
  | _, _ => false
  end.

(** [String(n)] for a non-negative integer, as template literals render
    [tasks.length] and [i + 1]. *)
Definition numberToString (n : nat) : jsstring :=
  lit (DecimalString.NilZero.string_of_uint (Nat.to_uint n)).

(** [s.split(sep)] for a separator of one code unit: [cur] holds the piece
    being read, in reverse. *)
Fixpoint splitOn (sep : N) (cur s : jsstring) : list jsstring :=
  match s with
  | [] => [rev cur]
  | c :: s' =>
      if (c =? sep)%N then rev cur :: splitOn sep [] s'
      else splitOn sep (c :: cur) s'
  end.

Definition split (s : jsstring) (sep : N) : list jsstring := splitOn sep [] s.

Definition dash : N := 45.

(** Does the regular expression [---+] match at the head of [s]?  It does
    when [s] starts with three dashes; the match is greedy and takes the
    whole run. *)
Definition matchesDashes (s : jsstring) : bool :=
  match s with
  | a :: b :: c :: _ => (a =? dash)%N && (b =? dash)%N && (c =? dash)%N
  | _ => false
  end.

(** [s.split(/---+/)].  The scan keeps the piece being read in [cur]
    (reversed); [inMatch] is set while the code units of a matched run of
    dashes are being consumed.  The expression never matches the empty
    string, so the empty input gives one empty piece. *)
Fixpoint splitDashesFrom (inMatch : bool) (cur s : jsstring) : list jsstring :=
  match s with
  | [] => [rev cur]
  | c :: s' =>
      if inMatch && (c =? dash)%N then splitDashesFrom true [] s'
      else if matchesDashes s then rev cur :: splitDashesFrom true [] s'
      else splitDashesFrom false (c :: cur) s'
  end.

Definition splitDashes (s : jsstring) : list jsstring :=
  splitDashesFrom false [] s.

End Js.

Import Js.


(* ===================================================================== *)
(** ** The types shared by the components ([src/types]) *)
(* ===================================================================== *)

(** What a handler reads of a caught value that is neither [null] nor
    [undefined]: [error.name], as it compares with a string (empty when the
    value has no name), and [error.message], as a template literal renders
    it (empty when it is falsy). *)
Record JsError := mkError { errName : jsstring; errMessage : jsstring }.

(** A thrown value, or the value a promise rejects with: any value can be
    thrown, [null] and [undefined] included. *)
Inductive Thrown :=
| jsNull
| jsUndefined
| thrown (e : JsError).

(** The [TypeError] of a read of [property] on [what] ([null] or
    [undefined]); the message is worded as V8 words it. *)
Definition cannotRead (what property : jsstring) : JsError :=
  {| errName := lit "TypeError";
     errMessage := lit "Cannot read properties of " ++ what
                   ++ lit " (reading '" ++ property ++ lit "')" |}.

(** A browser [File]: its name, its MIME type, and what a [FileReader]
    gives for it ([readAsDataURL]): the data URL, or the error of
    [reader.onerror]. *)
Record File := mkFile {
  fileName : jsstring;
  fileType : jsstring;
  fileDataURL : jsstring + JsError
}.

(** [base64Data] is [base64.split(',')[1]], which is [undefined] when the
    data URL holds no comma. *)
Record Attachment := mkAttachment {
  file : File;
  preview : jsstring;
  base64Data : option jsstring;
  mimeType : jsstring
}.

Record InlineData := mkInline {
  inlineMimeType : jsstring;
  inlineBytes : option jsstring
}.

(** A content part: [{ text?, inlineData?, thought? }]. *)
Record Part := mkPart {
  partText : option jsstring;
  inlineData : option InlineData;
  thought : bool
}.

Definition textPart (t : jsstring) : Part :=
  {| partText := Some t; inlineData := None; thought := false |}.

Definition imagePart (mime : jsstring) (data : option jsstring) : Part :=
  {| partText := None;
     inlineData := Some {| inlineMimeType := mime; inlineBytes := data |};
     thought := false |}.

Definition thoughtPart (t : jsstring) : Part :=
  {| partText := Some t; inlineData := None; thought := true |}.

Inductive Role := user | model.

Record ChatMessage := mkMessage {
  msgId : jsstring;
  role : Role;
  parts : list Part;
  timestamp : Z;
  isError : bool;
  thinkingDuration : option Q
}.

Record Settings := mkSettings {
  streamResponse : bool;
  modelName : jsstring
}.

(** [arr.map((x, index) => f(x, index))] *)
Fixpoint mapiFrom {A B : Type} (f : A -> nat -> B) (i : nat) (l : list A) : list B :=
  match l with
  | [] => []
  | x :: l' => f x i :: mapiFrom f (S i) l'
  end.

Definition mapi {A B : Type} (f : A -> nat -> B) (l : list A) : list B :=
  mapiFrom f 0 l.

(** [arr.filter((x, i) => p(x, i))] *)
Fixpoint filteriFrom {A : Type} (p : A -> nat -> bool) (i : nat) (l : list A) : list A :=
  match l with
  | [] => []
  | x :: l' => if p x i then x :: filteriFrom p (S i) l' else filteriFrom p (S i) l'
  end.

Definition filteri {A : Type} (p : A -> nat -> bool) (l : list A) : list A :=
  filteriFrom p 0 l.

(** [arr.slice(-1)[0]]: the last element, [undefined] on the empty array. *)
Definition lastOf {A : Type} (l : list A) : option A :=
  match rev l with
  | [] => None
  | x :: _ => Some x
  end.


(* ===================================================================== *)
(** ** ChatInterface.tsx *)
(* ===================================================================== *)

Module ChatInterface.

(** *** The texts of the notifications and of the console *)

Module Text.
(* "Please enter an API key first" *)
Definition needApiKey : jsstring :=
  [35831; 20808; 36755; 20837; 32; 65; 80; 73; 32; 75; 101; 121]%N.
(* "Upload at least one image to use the multi-image mode" *)
Definition multiImageNeedsImage : jsstring :=
  [35831; 33267; 23569; 19978; 20256; 19968; 24352; 22270; 29255; 20197;
   20351; 29992; 22810; 22270; 21333; 35789; 27169; 24335]%N.
(* "Upload at least one image to use the image-to-prompts mode" *)
Definition multiPromptNeedsImage : jsstring :=
  [35831; 33267; 23569; 19978; 20256; 19968; 24352; 22270; 29255; 20197;
   20351; 29992; 22270; 29255; 23545; 22810; 35789; 27169; 24335]%N.
(* "Enter a prompt (several prompts are separated by ---)" *)
Definition multiPromptNeedsPrompt : jsstring :=
  [35831; 36755; 20837; 25552; 31034; 35789; 65288; 22810; 20010; 25552;
   31034; 35789; 29992; 32; 45; 45; 45; 32; 20998; 38548; 65289]%N.
(* "Enter a valid prompt" *)
Definition multiPromptNeedsValid : jsstring :=
  [35831; 36755; 20837; 26377; 25928; 30340; 25552; 31034; 35789]%N.
(* "Starting batch generation of ${n} images" *)
Definition batchStart (n : nat) : jsstring :=
  [24320; 22987; 25209; 37327; 29983; 25104; 32]%N ++ numberToString n
  ++ [32; 24352; 22270; 29255]%N.
(* "Batch generation complete! ${n} images generated" *)
Definition batchDone (n : nat) : jsstring :=
  [25209; 37327; 29983; 25104; 23436; 25104; 65281; 20849; 29983; 25104; 32]%N
  ++ numberToString n ++ [32; 24352; 22270; 29255]%N.
(* "Batch task ${k} failed:" *)
Definition taskFailed (k : nat) : jsstring :=
  [25209; 37327; 20219; 21153; 32]%N ++ numberToString k
  ++ [32; 22833; 36133; 58]%N.
(* "The user stopped the generation" *)
Definition userStopped : jsstring :=
  [29992; 25143; 24050; 20572; 27490; 29983; 25104]%N.
(* "Generation failed" *)
Definition generationFailed : jsstring := [29983; 25104; 22833; 36133]%N.
(* "Generation failed. Please check your network and API key." *)
Definition errorDefault : jsstring :=
  [29983; 25104; 22833; 36133; 12290; 35831; 26816; 26597; 24744; 30340;
   32593; 32476; 21644; 32; 65; 80; 73; 32; 75; 101; 121; 12290]%N.
(* "Image generation" *)
Definition imagePrompt : jsstring := [22270; 29255; 29983; 25104]%N.
Definition abortErrorName : jsstring := lit "AbortError".
End Text.

(** *** Batch modes and tasks *)

(** ['off' | 'normal' | 'multi-image' | 'image-multi-prompt'] *)
Inductive BatchMode := off | normal | multi_image | image_multi_prompt.

Record Task := mkTask {
  text : jsstring;
  attachments : list Attachment
}.

(** [text.split(/---+/).map(p => p.trim()).filter(p => p.length > 0)] *)
Definition splitPrompts (text : jsstring) : list jsstring :=
  filter (fun p => 0 <? length p) (map trim (splitDashes text)).

(** The task list [handleSend] builds for a batch mode (lines 78 to 119):
    the tasks, or the text of the error notification after which
    [handleSend] returns. *)
Definition batchTasks (batchMode : BatchMode) (batchCount : Z)
    (text : jsstring) (attachments : list Attachment) : jsstring + list Task :=
  match batchMode with
  | normal =>
      inr (repeat {| text := text; attachments := attachments |}
             (Z.to_nat batchCount))
  | multi_image =>
      if length attachments =? 0 then inl Text.multiImageNeedsImage
      else inr (map (fun att => {| text := text; attachments := [att] |})
                  attachments)
  | image_multi_prompt =>
      if length attachments =? 0 then inl Text.multiPromptNeedsImage
      else if negb (truthy (trim text)) then inl Text.multiPromptNeedsPrompt
      else
        match splitPrompts text with
        | [] => inl Text.multiPromptNeedsValid
        | (p0 :: _) as prompts =>
            inr (mapi (fun att index =>
                         {| text := nth (index mod length prompts) prompts p0;
                            attachments := [att] |})
                   attachments)
        end
  | off => inr []
  end.

(** *** The world the handlers run in *)

Inductive ToastLevel := error | info | success.

Record ImagePayload := mkImagePayload {
  payloadData : option jsstring;
  payloadMime : jsstring
}.

Record HistoryImage := mkHistoryImage {
  imgMimeType : jsstring;
  imgData : option jsstring;
  imgPrompt : jsstring;
  imgTimestamp : Z;
  imgModelName : jsstring
}.

(** What the handlers do to their collaborators, in the order they do it. *)
Inductive Event :=
| Invoke (text : jsstring) (attachments : list Attachment)
    (* executeSingleGeneration(text, attachments) is entered *)
| SetShowApiKeyModal (b : bool)
| AddToast (msg : jsstring) (level : ToastLevel)
| SetBatchMode (m : BatchMode)
| SetLoading (b : bool)
| AddMessage (m : ChatMessage)
| UpdateLastMessage (parts : list Part) (isError : bool) (duration : option Q)
| AddImageToHistory (img : HistoryImage)
| Request (stream : bool) (apiKey : jsstring) (history : list ChatMessage)
    (text : jsstring) (images : list ImagePayload) (settings : Settings)
    (* streamGeminiResponse(...) or generateContent(...) is called *)
| Abort
    (* abortControllerRef.current.abort(): the pending request is aborted *)
| Sleep (ms : Z)
| ConsoleLog (msg : jsstring)
| ConsoleError (msg : jsstring) (error : Thrown)
| FetchBalance.

Record AbortController := mkController { aborted : bool }.

Record BatchProgress := mkProgress { current : nat; total : nat }.

Record World := mkWorld {
  messages : list ChatMessage;          (* useAppStore.getState().messages *)
  abortControllerRef : option AbortController;
  batchProgress : BatchProgress;
  now : Z;                              (* the clock Date.now() reads *)
  invocations : nat;                    (* calls of executeSingleGeneration so far *)
  trace : list Event
}.

(** What the surroundings do during one call of [executeSingleGeneration]:
    - [preFault]: a value thrown by the statements ahead of the [try]
      block (store access), which the function does not catch;
    - [chunks]: with streaming on, the chunks the stream yields, each with
      the milliseconds waited for it;
    - [latency]: the milliseconds until the request settles (after the last
      chunk when streaming);
    - [userStops]: the user presses stop ([handleStop]) while the request is
      pending;
    - [settles]: the request resolves with the model parts (the stream ends,
      when streaming) or rejects, with whatever value the service rejects
      with. *)
Record Behaviour := mkBehaviour {
  preFault : option Thrown;
  chunks : list (Z * list Part);
  latency : Z;
  userStops : bool;
  settles : list Part + Thrown
}.

Definition Env := nat -> Behaviour.

(** *** A state and exception monad for the handlers *)

Inductive Completion (A : Type) :=
| Normal (a : A)
| Throw (e : Thrown).

Arguments Normal {A} a.
Arguments Throw {A} e.

Definition M (A : Type) := World -> Completion A * World.

Definition ret {A : Type} (a : A) : M A := fun w => (Normal a, w).

Definition bind {A B : Type} (m : M A) (k : A -> M B) : M B :=
  fun w =>
    match m w with
    | (Normal a, w') => k a w'
    | (Throw e, w') => (Throw e, w')
    end.

Definition throw {A : Type} (e : Thrown) : M A := fun w => (Throw e, w).

(** [try { body } catch (error) { handler }] *)
Definition tryCatch {A : Type} (body : M A) (handler : Thrown -> M A) : M A :=
  fun w =>
    match body w with
    | (Normal a, w') => (Normal a, w')
    | (Throw e, w') => handler e w'
    end.

(** [try { body } catch (error) { handler } finally { fin }]: [fin] runs
    however [body] and [handler] complete, and a throw of [fin] wins. *)
Definition tryCatchFinally {A : Type} (body : M A) (handler : Thrown -> M A)
    (fin : M unit) : M A :=
  fun w =>
    let (c, w1) := tryCatch body handler w in
    match fin w1 with
    | (Normal _, w2) => (c, w2)
    | (Throw e, w2) => (Throw e, w2)
    end.

Declare Scope js_scope.
Delimit Scope js_scope with js.
Bind Scope js_scope with M.

Notation "x <- m ;; k" := (bind m (fun x => k))
  (at level 61, m at next level, right associativity) : js_scope.
Notation "m ;; k" := (bind m (fun _ => k))
  (at level 61, right associativity) : js_scope.

Open Scope js_scope.

Definition emit (e : Event) : M unit :=
  fun w => (Normal tt,
            {| messages := messages w;
               abortControllerRef := abortControllerRef w;
               batchProgress := batchProgress w;
               now := now w;
               invocations := invocations w;
               trace := trace w ++ [e] |}).

(** [Date.now()] *)
Definition dateNow : M Z := fun w => (Normal (now w), w).

(** Time passes while the handler awaits. *)
Definition elapse (ms : Z) : M unit :=
  fun w => (Normal tt,
            {| messages := messages w;
               abortControllerRef := abortControllerRef w;
               batchProgress := batchProgress w;
               now := (now w + ms)%Z;
               invocations := invocations w;
               trace := trace w |}).

Definition getMessages : M (list ChatMessage) := fun w => (Normal (messages w), w).

Definition putMessages (ms : list ChatMessage) : M unit :=
  fun w => (Normal tt,
            {| messages := ms;
               abortControllerRef := abortControllerRef w;
               batchProgress := batchProgress w;
               now := now w;
               invocations := invocations w;
               trace := trace w |}).

Definition getAbortController : M (option AbortController) :=
  fun w => (Normal (abortControllerRef w), w).

(** [abortControllerRef.current = c] *)
Definition setAbortController (c : option AbortController) : M unit :=
  fun w => (Normal tt,
            {| messages := messages w;
               abortControllerRef := c;
               batchProgress := batchProgress w;
               now := now w;
               invocations := invocations w;
               trace := trace w |}).

Definition setBatchProgress (p : BatchProgress) : M unit :=
  fun w => (Normal tt,
            {| messages := messages w;
               abortControllerRef := abortControllerRef w;
               batchProgress := p;
               now := now w;
               invocations := invocations w;
               trace := trace w |}).

(** Entering [executeSingleGeneration]: the call is recorded and numbered. *)
Definition enter (text : jsstring) (attachments : list Attachment) : M nat :=
  fun w => (Normal (invocations w),
            {| messages := messages w;
               abortControllerRef := abortControllerRef w;
               batchProgress := batchProgress w;
               now := now w;
               invocations := S (invocations w);
               trace := trace w ++ [Invoke text attachments] |}).

(** [for (const x of l) { body(x) }] *)
Fixpoint forOf {A : Type} (l : list A) (body : A -> M unit) : M unit :=
  match l with
  | [] => ret tt
  | x :: l' => body x ;; forOf l' body
  end.

(** *** The store *)

(** Modelled from the spec: the store [useAppStore] is not among the source
    files.  [addMessage] appends a record to the transcript (section 4.4:
    "Appends a model-turn record to the transcript"). *)
Definition addMessage (m : ChatMessage) : M unit :=
  emit (AddMessage m) ;;
  ms <- getMessages ;;
  putMessages (ms ++ [m]).

(** Modelled from the spec: [updateLastMessage(parts, isError,
    thinkingDuration)] of the absent store replaces the parts of the last
    message of the transcript and records the flag and the duration
    (section 4.4: the transcript keeps "the full ordered part sequence"). *)
Definition updateLastMessage (ps : list Part) (isErr : bool) (d : option Q) : M unit :=
  emit (UpdateLastMessage ps isErr d) ;;
  ms <- getMessages ;;
  match rev ms with
  | [] => ret tt
  | m :: before =>
      putMessages (rev before ++
        [{| msgId := msgId m; role := role m; parts := ps;
            timestamp := timestamp m; isError := isErr;
            thinkingDuration := d |}])
  end.

(** *** The handlers *)

Section Component.

(** What the component closes over: the store's API key and settings, the
    batch mode and count of the UI store, and the surroundings. *)
Variable apiKey : jsstring.
Variable settings : Settings.
Variable batchMode : BatchMode.
Variable batchCount : Z.
Variable env : Env.

(** [handleStop] *)
Definition handleStop : M unit :=
  c <- getAbortController ;;
  match c with
  | Some _ =>
      emit Abort ;;
      setAbortController (Some {| aborted := true |})
  | None => ret tt
  end.

(** [(Date.now() - startTime) / 1000], as the exact quotient of the
    milliseconds by 1000. *)
Definition secondsSince (startTime t : Z) : Q := Qmake (t - startTime) 1000.

(** Awaiting the request: time passes, the user may press stop, and the
    request resolves or rejects. *)
Definition settle (b : Behaviour) : M (list Part) :=
  elapse (latency b) ;;
  (if userStops b then handleStop else ret tt) ;;
  match settles b with
  | inl modelParts => ret modelParts
  | inr e => throw e
  end.

(** The body of [for await (const chunk of stream)] (lines 215 to 227), run
    over the chunks the stream yields; it returns [isThinking] and
    [thinkingDuration]. *)
Fixpoint forAwaitChunks (startTime : Z) (cs : list (Z * list Part))
    (isThinking : bool) (duration : Q) : M (bool * Q) :=
  match cs with
  | [] => ret (isThinking, duration)
  | (wait, modelParts) :: cs' =>
      elapse wait ;;
      t <- dateNow ;;
      let lastPart := lastOf modelParts in
      let (isThinking', duration') :=
        match lastPart with
        | Some p =>
            if thought p then (true, secondsSince startTime t)
            else if isThinking then (false, duration)
            else (isThinking, duration)
        | None => (isThinking, duration)
        end in
      updateLastMessage modelParts false
        (if isThinking' then Some duration' else None) ;;
      forAwaitChunks startTime cs' isThinking' duration'
  end.

(** [executeSingleGeneration] *)
Definition executeSingleGeneration (text : jsstring)
    (attachments : list Attachment) : M unit :=
  k <- enter text attachments ;;
  let b := env k in
  match preFault b with Some e => throw e | None => ret tt end ;;
  currentMessages <- getMessages ;;
  emit (SetLoading true) ;;
  idStamp <- dateNow ;;
  let userParts :=
    map (fun att => imagePart (mimeType att) (base64Data att)) attachments
    ++ (if truthy text then [textPart text] else []) in
  stamp <- dateNow ;;
  addMessage {| msgId := numberToString (Z.to_nat idStamp); role := user;
                parts := userParts; timestamp := stamp;
                isError := false; thinkingDuration := None |} ;;
  modelIdStamp <- dateNow ;;
  modelStamp <- dateNow ;;
  addMessage {| msgId := numberToString (Z.to_nat (modelIdStamp + 1)); role := model;
                parts := []; timestamp := modelStamp;
                isError := false; thinkingDuration := None |} ;;
  tryCatchFinally
    (let imagesPayload :=
       map (fun a => {| payloadData := base64Data a; payloadMime := mimeType a |})
         attachments in
     setAbortController (Some {| aborted := false |}) ;;
     startTime <- dateNow ;;
     (if streamResponse settings then
        emit (Request true apiKey currentMessages text imagesPayload settings) ;;
        st <- forAwaitChunks startTime (chunks b) false 0%Q ;;
        settle b ;;
        if fst st then
          t <- dateNow ;;
          ms <- getMessages ;;
          match lastOf ms with
          | Some m => updateLastMessage (parts m) false (Some (secondsSince startTime t))
          | None => throw (thrown (cannotRead (lit "undefined") (lit "parts")))
          end
        else ret tt
      else
        emit (Request false apiKey currentMessages text imagesPayload settings) ;;
        modelParts <- settle b ;;
        t <- dateNow ;;
        let totalDuration := secondsSince startTime t in
        let hasThought := existsb thought modelParts in
        updateLastMessage modelParts false
          (if hasThought then Some totalDuration else None)) ;;
     ms <- getMessages ;;
     match lastOf ms with
     | Some finalMessage =>
         match role finalMessage with
         | model =>
             let imageParts :=
               filter (fun p => match inlineData p with
                                | Some _ => negb (thought p)
                                | None => false
                                end) (parts finalMessage) in
             forOf imageParts (fun part =>
               match inlineData part with
               | Some d =>
                   t <- dateNow ;;
                   emit (AddImageToHistory
                           {| imgMimeType := inlineMimeType d;
                              imgData := inlineBytes d;
                              imgPrompt := if truthy text then text else Text.imagePrompt;
                              imgTimestamp := t;
                              imgModelName := modelName settings |})
               | None => ret tt
               end)
         | user => ret tt
         end
     | None => ret tt
     end)
    (fun error =>
       match error with
       | jsNull => throw (thrown (cannotRead (lit "null") (lit "name")))
       | jsUndefined => throw (thrown (cannotRead (lit "undefined") (lit "name")))
       | thrown e =>
           c <- getAbortController ;;
           if strEq (errName e) Text.abortErrorName
              || match c with Some a => aborted a | None => false end
           then emit (ConsoleLog Text.userStopped)
           else
             emit (ConsoleError Text.generationFailed error) ;;
             let errorText :=
               if truthy (errMessage e) then lit "Error: " ++ errMessage e
               else Text.errorDefault in
             updateLastMessage [textPart errorText] true None
       end)
    (emit (SetLoading false) ;;
     setAbortController None ;;
     emit FetchBalance).

(** The loop of lines 125 to 137 from index [i] on, over the tasks
    [tasks[i]], [tasks[i+1]], ...; [len] is [tasks.length]. *)
Fixpoint batchLoop (len i : nat) (rest : list Task) : M unit :=
  match rest with
  | [] => ret tt
  | task :: rest' =>
      setBatchProgress {| current := i + 1; total := len |} ;;
      tryCatch
        (executeSingleGeneration (text task) (attachments task) ;;
         if i <? len - 1 then emit (Sleep 500) ;; elapse 500 else ret tt)
        (fun e => emit (ConsoleError (Text.taskFailed (i + 1)) e)) ;;
      batchLoop len (i + 1) rest'
  end.

(** The execution of the batch (lines 121 to 142). *)
Definition runBatch (tasks : list Task) : M unit :=
  setBatchProgress {| current := 0; total := length tasks |} ;;
  emit (AddToast (Text.batchStart (length tasks)) info) ;;
  batchLoop (length tasks) 0 tasks ;;
  setBatchProgress {| current := 0; total := 0 |} ;;
  emit (SetBatchMode off) ;;
  emit (AddToast (Text.batchDone (length tasks)) success).

(** [handleSend] *)
Definition handleSend (text : jsstring) (attachments : list Attachment) : M unit :=
  if negb (truthy apiKey) then
    emit (SetShowApiKeyModal true) ;;
    emit (AddToast Text.needApiKey error)
  else
    match batchMode with
    | off => executeSingleGeneration text attachments
    | _ =>
        match batchTasks batchMode batchCount text attachments with
        | inl msg => emit (AddToast msg error)
        | inr tasks => runBatch tasks
        end
    end.

End Component.

(** *** Reading a trace *)

(** The calls of [executeSingleGeneration] a trace records, in order. *)
Fixpoint invoked (tr : list Event) : list Task :=
  match tr with
  | [] => []
  | Invoke t a :: tr' => {| text := t; attachments := a |} :: invoked tr'
  | _ :: tr' => invoked tr'
  end.

(** The notifications of a level a trace records, in order. *)
Fixpoint toasts (lvl : ToastLevel) (tr : list Event) : list jsstring :=
  match tr with
  | [] => []
  | AddToast msg l :: tr' =>
      match lvl, l with
      | error, error | info, info | success, success => msg :: toasts lvl tr'
      | _, _ => toasts lvl tr'
      end
  | _ :: tr' => toasts lvl tr'
  end.

(** The calls of [updateLastMessage] a trace records, in order. *)
Fixpoint updates (tr : list Event) : list (list Part * bool * option Q) :=
  match tr with
  | [] => []
  | UpdateLastMessage ps isErr d :: tr' => (ps, isErr, d) :: updates tr'
  | _ :: tr' => updates tr'
  end.

(** Events of the store alone: no notification, no call of
    [executeSingleGeneration], no console output, no abort, no error
    placeholder. *)
Definition storeOnly (e : Event) : bool :=
  match e with
  | AddMessage _ | AddImageToHistory _ => true
  | UpdateLastMessage _ isErr _ => negb isErr
  | _ => false
  end.

(** Events that stay inside one generation: everything but a call of
    [executeSingleGeneration], a notification, a batch-mode change and a
    pause. *)
Definition quiet (e : Event) : bool :=
  match e with
  | Invoke _ _ | AddToast _ _ | SetBatchMode _ | Sleep _
  | SetShowApiKeyModal _ => false
  | _ => true
  end.

(** Events that surface no error: no [console.error] and no error
    placeholder. *)
Definition silent (e : Event) : bool :=
  match e with
  | ConsoleError _ _ => false
  | UpdateLastMessage _ isErr _ => negb isErr
  | _ => true
  end.

(** *** More readings of a trace *)

(** The images a trace adds to the history, in order. *)
Fixpoint historyImages (tr : list Event) : list HistoryImage :=
  match tr with
  | [] => []
  | AddImageToHistory img :: tr' => img :: historyImages tr'
  | _ :: tr' => historyImages tr'
  end.

(** The pauses a trace records, in order. *)
Fixpoint pauses (tr : list Event) : list Z :=
  match tr with
  | [] => []
  | Sleep ms :: tr' => ms :: pauses tr'
  | _ :: tr' => pauses tr'
  end.

(** *** Parts of [executeSingleGeneration] by name *)

(** The parts of the user message (lines 159 to 168): one inline part per
    attachment, then the text if there is one. *)
Definition userParts (text : jsstring) (attachments : list Attachment) : list Part :=
  map (fun att => imagePart (mimeType att) (base64Data att)) attachments
  ++ (if truthy text then [textPart text] else []).

(** The images sent with the request (lines 194 to 197). *)
Definition imagesPayload (attachments : list Attachment) : list ImagePayload :=
  map (fun a => {| payloadData := base64Data a; payloadMime := mimeType a |})
    attachments.

(** The text of the error placeholder (lines 283 to 286). *)
Definition errorText (e : JsError) : jsstring :=
  if truthy (errMessage e) then lit "Error: " ++ errMessage e
  else Text.errorDefault.

(** The user message (lines 170 to 175) and the placeholder of the model
    message (lines 181 to 187), built while the clock stands at [t]. *)
Definition userMessage (t : Z) (text : jsstring) (attachments : list Attachment)
    : ChatMessage :=
  {| msgId := numberToString (Z.to_nat t); role := user;
     parts := userParts text attachments; timestamp := t;
     isError := false; thinkingDuration := None |}.

Definition modelPlaceholder (t : Z) : ChatMessage :=
  {| msgId := numberToString (Z.to_nat (t + 1)); role := model;
     parts := []; timestamp := t;
     isError := false; thinkingDuration := None |}.

(** How a call of [executeSingleGeneration] completes under the
    surroundings [b]: a value thrown ahead of the [try] block leaves the
    function, and so does the [TypeError] of [error.name] in the [catch]
    block when the request rejects with [null] or [undefined]; in every
    other case the call returns. *)
Definition completion (b : Behaviour) : Completion unit :=
  match preFault b with
  | Some v => Throw v
  | None =>
      match settles b with
      | inr jsNull => Throw (thrown (cannotRead (lit "null") (lit "name")))
      | inr jsUndefined => Throw (thrown (cannotRead (lit "undefined") (lit "name")))
      | _ => Normal tt
      end
  end.

(** What the loop of [handleSend] records for task [i] of [len] after the
    call of [executeSingleGeneration] has completed with [c] (lines 129 to
    136): the report of a throw, or the pause unless the task is the last. *)
Definition taskTail (i len : nat) (c : Completion unit) : list Event :=
  match c with
  | Throw v => [ConsoleError (Text.taskFailed (i + 1)) v]
  | Normal _ => if i <? len - 1 then [Sleep 500] else []
  end.

(** [p => p.inlineData && !p.thought] (line 261) *)
Definition isFinalImage (p : Part) : bool :=
  match inlineData p with
  | Some _ => negb (thought p)
  | None => false
  end.

(** The history entries of the image parts (lines 262 to 273), added at
    time [t]. *)
Definition historyEntries (settings : Settings) (text : jsstring) (t : Z)
    (ps : list Part) : list HistoryImage :=
  flat_map (fun part =>
              match inlineData part with
              | Some d =>
                  [{| imgMimeType := inlineMimeType d;
                      imgData := inlineBytes d;
                      imgPrompt := if truthy text then text else Text.imagePrompt;
                      imgTimestamp := t;
                      imgModelName := modelName settings |}]
              | None => []
              end) (filter isFinalImage ps).

(** Does the last part of a chunk carry a thought? *)
Definition endsInThought (modelParts : list Part) : bool :=
  match lastOf modelParts with
  | Some p => thought p
  | None => false
  end.

(** The times at which the chunks of a stream arrive, the clock standing at
    [t] when the stream is opened. *)
Fixpoint arrivals (t : Z) (cs : list (Z * list Part)) : list (Z * list Part) :=
  match cs with
  | [] => []
  | (wait, modelParts) :: cs' =>
      ((t + wait)%Z, modelParts) :: arrivals (t + wait)%Z cs'
  end.

(** The call of [updateLastMessage] for a chunk that arrives at [fst c]
    (lines 217 to 226), when the chunk has parts. *)
Definition chunkUpdate (startTime : Z) (c : Z * list Part)
    : list Part * bool * option Q :=
  (snd c, false,
   if endsInThought (snd c) then Some (secondsSince startTime (fst c)) else None).

(** The clock when the last chunk of a stream has arrived. *)
Definition streamEnd (t : Z) (cs : list (Z * list Part)) : Z :=
  fold_left (fun t c => (t + fst c)%Z) cs t.

(** The parts of the last chunk of a stream; [none] for a stream without
    chunks. *)
Definition lastChunkParts (cs : list (Z * list Part)) (none : list Part) : list Part :=
  match lastOf cs with
  | Some c => snd c
  | None => none
  end.

(** A call of [updateLastMessage] that flags no error. *)
Definition partialUpdate (e : Event) : bool :=
  match e with
  | UpdateLastMessage _ isErr _ => negb isErr
  | _ => false
  end.

(** The requests a trace records, in order: streaming or not, the history,
    the text and the images sent. *)
Fixpoint requests (tr : list Event)
    : list (bool * list ChatMessage * jsstring * list ImagePayload) :=
  match tr with
  | [] => []
  | Request stream _ history text images _ :: tr' =>
      (stream, history, text, images) :: requests tr'
  | _ :: tr' => requests tr'
  end.

(** The histories of the requests a trace records, in order. *)
Fixpoint histories (tr : list Event) : list (list ChatMessage) :=
  match tr with
  | [] => []
  | Request _ _ history _ _ _ :: tr' => history :: histories tr'
  | _ :: tr' => histories tr'
  end.

(** The values [setLoading] is called with, in order. *)
Fixpoint loadings (tr : list Event) : list bool :=
  match tr with
  | [] => []
  | SetLoading b :: tr' => b :: loadings tr'
  | _ :: tr' => loadings tr'
  end.

(** *** [handleRegenerate] *)

(** [messages.findIndex(m => m.id === id)] *)
Fixpoint findIndexFrom (i : nat) (id : jsstring) (ms : list ChatMessage) : option nat :=
  match ms with
  | [] => None
  | m :: ms' => if strEq (msgId m) id then Some i else findIndexFrom (S i) id ms'
  end.

Definition findIndex (id : jsstring) (ms : list ChatMessage) : option nat :=
  findIndexFrom 0 id ms.

(** [new File([], "placeholder")]: an empty file without a type; its data
    URL is never read. *)
Definition placeholderFile : File :=
  {| fileName := lit "placeholder"; fileType := []; fileDataURL := inl (lit "data:") |}.

(** What [handleRegenerate] resends: [sliceMessages(sliceIndex)] and then
    [handleSend(text, attachments)]. *)
Record Regeneration := mkRegeneration {
  sliceIndex : Z;
  resendText : jsstring;
  resendAttachments : list Attachment
}.

(** The attachment rebuilt from an inline part (lines 337 to 342);
    [`${undefined}`] reads "undefined". *)
Definition attachmentOfPart (d : InlineData) : Attachment :=
  {| file := placeholderFile;
     preview := lit "data:" ++ inlineMimeType d ++ lit ";base64,"
                ++ match inlineBytes d with
                   | Some bytes => bytes
                   | None => lit "undefined"
                   end;
     base64Data := Some match inlineBytes d with
                        | Some bytes => bytes
                        | None => []
                        end;
     mimeType := inlineMimeType d |}.

(** [handleRegenerate] up to its two calls (lines 309 to 342): [None] where
    it returns early ([isLoading], an unknown id, a model message that no
    user message precedes), else what it slices and resends. *)
Definition regeneration (isLoading : bool) (messages : list ChatMessage)
    (id : jsstring) : option Regeneration :=
  if isLoading then None
  else
    match findIndex id messages with
    | None => None
    | Some index =>
        match nth_error messages index with
        | None => None
        | Some message =>
            let target :=
              match role message with
              | user => Some (message, (Z.of_nat index - 1)%Z)
              | model =>
                  match index with
                  | 0 => None
                  | S before =>
                      match nth_error messages before with
                      | Some previous =>
                          match role previous with
                          | user => Some (previous, (Z.of_nat index - 2)%Z)
                          | model => None
                          end
                      | None => None
                      end
                  end
              end in
            match target with
            | None => None
            | Some (targetUserMessage, slice) =>
                let textPart :=
                  find (fun p => match partText p with
                                 | Some t => truthy t
                                 | None => false
                                 end) (parts targetUserMessage) in
                let text :=
                  match textPart with
                  | Some p => match partText p with Some t => t | None => [] end
                  | None => []
                  end in
                let imageParts :=
                  filter (fun p => match inlineData p with
                                   | Some _ => true
                                   | None => false
                                   end) (parts targetUserMessage) in
                Some {| sliceIndex := slice;
                        resendText := text;
                        resendAttachments :=
                          flat_map (fun p => match inlineData p with
                                             | Some d => [attachmentOfPart d]
                                             | None => []
                                             end) imageParts |}
            end
        end
    end.

(** *** The arcade (lines 33 to 60) *)

(** The two flags of the arcade and the timers of [handleCloseArcade] that
    have not fired yet.  The handlers run one after the other, each on the
    state the one before left. *)
Record Arcade := mkArcade {
  showArcade : bool;
  isExiting : bool;
  closing : nat
}.

(** [handleCloseArcade]: the exit animation starts and a timer of 200 ms
    is set. *)
Definition handleCloseArcade (a : Arcade) : Arcade :=
  {| showArcade := showArcade a; isExiting := true; closing := S (closing a) |}.

(** The callback of the timer: [setShowArcade(false); setIsExiting(false)]. *)
Definition closeTimerFires (a : Arcade) : Arcade :=
  match closing a with
  | 0 => a
  | S pending => {| showArcade := false; isExiting := false; closing := pending |}
  end.

(** [handleToggleArcade] *)
Definition handleToggleArcade (a : Arcade) : Arcade :=
  if showArcade a && negb (isExiting a) then handleCloseArcade a
  else if negb (showArcade a)
       then {| showArcade := true; isExiting := isExiting a; closing := closing a |}
       else a.

(** The effect on [isLoading] (lines 39 to 44), run when [isLoading]
    changes to [loading]. *)
Definition loadingEffect (loading : bool) (a : Arcade) : Arcade :=
  if loading
  then {| showArcade := true; isExiting := false; closing := closing a |}
  else a.

Inductive ArcadeEvent :=
| ToggleArcade
| CloseArcade
| LoadingChanges (loading : bool)
| CloseTimerFires.

Definition arcadeStep (a : Arcade) (e : ArcadeEvent) : Arcade :=
  match e with
  | ToggleArcade => handleToggleArcade a
  | CloseArcade => handleCloseArcade a
  | LoadingChanges loading => loadingEffect loading a
  | CloseTimerFires => closeTimerFires a
  end.

(** The arcade as the component mounts it. *)
Definition arcade0 : Arcade :=
  {| showArcade := false; isExiting := false; closing := 0 |}.

(** *** [handleRegenerate] as a handler *)

Section Regenerate.

Variable apiKey : jsstring.
Variable settings : Settings.
Variable batchMode : BatchMode.
Variable batchCount : Z.
Variable env : Env.

(** The store's [sliceMessages]: it is not among the source files and the
    spec does not describe it, so what it keeps of the transcript is left
    open. *)
Variable sliceMessages : Z -> list ChatMessage -> list ChatMessage.

(** [handleRegenerate] (lines 309 to 349): after the early returns, the
    transcript is sliced and [handleSend] is called with the text and the
    images of the user message. *)
Definition handleRegenerate (isLoading : bool) (id : jsstring) : M unit :=
  ms <- getMessages ;;
  match regeneration isLoading ms id with
  | None => ret tt
  | Some r =>
      putMessages (sliceMessages (sliceIndex r) ms) ;;
      handleSend apiKey settings batchMode batchCount env
        (resendText r) (resendAttachments r)
  end.

End Regenerate.

(** *** Texts written with runs of dashes *)

(** Does [s] hold three dashes in a row? *)
Fixpoint hasThreeDashes (s : jsstring) : bool :=
  match s with
  | [] => false
  | a :: s' =>
      match s' with
      | b :: c :: _ => (a =? dash)%N && (b =? dash)%N && (c =? dash)%N
      | _ => false
      end
      || hasThreeDashes s'
  end.

Definition startsWithDash (s : jsstring) : bool :=
  match s with
  | c :: _ => (c =? dash)%N
  | [] => false
  end.

Definition endsWithDash (s : jsstring) : bool := startsWithDash (rev s).

(** A text read as a first piece [p0] and then runs of dashes, each with
    the piece that follows it, the way [/---+/] cuts it: every run has three
    dashes or more; no piece holds three dashes in a row; the run takes all
    the dashes around it, so that a piece which a run follows does not end
    with a dash and a piece which follows a run does not start with one; a
    piece between two runs is not empty.  One or two dashes elsewhere are
    part of their piece. *)
Fixpoint wellCut (p0 : jsstring) (more : list (nat * jsstring)) : bool :=
  negb (hasThreeDashes p0)
  && match more with
     | [] => true
     | (k, p) :: more' =>
         negb (endsWithDash p0)
         && (3 <=? k)
         && negb (startsWithDash p)
         && match more' with [] => true | _ :: _ => 0 <? length p end
         && wellCut p more'
     end.

(** The text that reads [p0], then each run of dashes and its piece. *)
Definition dashed (p0 : jsstring) (more : list (nat * jsstring)) : jsstring :=
  p0 ++ concat (map (fun kp => repeat dash (fst kp) ++ snd kp) more).

(** The prompts of a text written with "---" between them. *)
Fixpoint joinPrompts (ps : list jsstring) : jsstring :=
  match ps with
  | [] => []
  | [p] => p
  | p :: ps' => p ++ [dash; dash; dash] ++ joinPrompts ps'
  end.

End ChatInterface.


(* ===================================================================== *)
(** ** PipelineModal.tsx *)
(* ===================================================================== *)

Module PipelineModal.

Module Text.
(* "Please add at least one step" *)
Definition needStep : jsstring :=
  [35831; 33267; 23569; 28155; 21152; 19968; 20010; 27493; 39588]%N.
(* "Please upload at least one initial image" *)
Definition needImage : jsstring :=
  [35831; 33267; 23569; 19978; 20256; 19968; 24352; 21021; 22987; 22270; 29255]%N.
Definition imagePrefix : jsstring := lit "image/".
Definition comma : N := 44.
End Text.

Inductive Mode := serial | parallel.

Inductive StepStatus := pending | running | done | failed.

Record PipelineStep := mkStep {
  id : jsstring;
  prompt : jsstring;
  stepModelName : option jsstring;
  status : StepStatus
}.

Record PipelineTemplate := mkTemplate {
  templateName : jsstring;
  templateMode : Mode;
  templateSteps : list jsstring
}.

(** The three [useState] cells of the component. *)
Record State := mkState {
  mode : Mode;
  steps : list PipelineStep;
  attachments : list Attachment
}.

Definition blankStep (newId : jsstring) : PipelineStep :=
  {| id := newId; prompt := []; stepModelName := None; status := pending |}.

(** The state the component mounts with; [newId] is [Date.now().toString()]. *)
Definition initial (newId : jsstring) : State :=
  {| mode := serial; steps := [blankStep newId]; attachments := [] |}.

Definition setMode (m : Mode) (st : State) : State :=
  {| mode := m; steps := steps st; attachments := attachments st |}.

(** [handleAddStep]; [newId] is [Date.now().toString() + Math.random()]. *)
Definition handleAddStep (newId : jsstring) (st : State) : State :=
  if length (steps st) <? 5 then
    {| mode := mode st; steps := steps st ++ [blankStep newId];
       attachments := attachments st |}
  else st.

(** [handleRemoveStep] *)
Definition handleRemoveStep (index : nat) (st : State) : State :=
  if 1 <? length (steps st) then
    {| mode := mode st;
       steps := filteri (fun _ i => negb (i =? index)) (steps st);
       attachments := attachments st |}
  else st.

Inductive StepField := promptField | modelNameField.

(** [newSteps[index].prompt = value] or
    [newSteps[index].modelName = value || undefined] *)
Fixpoint changeStep (index : nat) (field : StepField) (value : jsstring)
    (l : list PipelineStep) : list PipelineStep :=
  match l, index with
  | [], _ => []
  | s :: l', 0 =>
      match field with
      | promptField =>
          {| id := id s; prompt := value; stepModelName := stepModelName s;
             status := status s |} :: l'
      | modelNameField =>
          {| id := id s; prompt := prompt s;
             stepModelName := if truthy value then Some value else None;
             status := status s |} :: l'
      end
  | s :: l', S index' => s :: changeStep index' field value l'
  end.

(** [handleStepChange].  With [index] past the end [newSteps[index]] is
    [undefined], the assignment throws and [setSteps] is not reached: the
    state stays as it is. *)
Definition handleStepChange (index : nat) (field : StepField) (value : jsstring)
    (st : State) : State :=
  if index <? length (steps st) then
    {| mode := mode st; steps := changeStep index field value (steps st);
       attachments := attachments st |}
  else st.

(** One round of the loop of [processFiles]: what a file adds to
    [newAttachments].  A file that is no image is skipped; a file whose
    read fails is reported on the console and skipped. *)
Definition readFile (f : File) : list Attachment :=
  if startsWith (fileType f) Text.imagePrefix then
    match fileDataURL f with
    | inl base64 =>
        [{| file := f; preview := base64;
            base64Data := nth_error (split base64 Text.comma) 1;
            mimeType := fileType f |}]
    | inr _ => []
    end
  else [].

(** [processFiles]:
    [setAttachments(prev => [...prev, ...newAttachments].slice(0, 14))] *)
Definition processFiles (files : list File) (st : State) : State :=
  let newAttachments := flat_map readFile files in
  {| mode := mode st; steps := steps st;
     attachments := firstn 14 (attachments st ++ newAttachments) |}.

(** The write of [processFiles] (line 133), for the attachments
    [newAttachments] a round has read. *)
Definition landRound (newAttachments : list Attachment) (st : State) : State :=
  {| mode := mode st; steps := steps st;
     attachments := firstn 14 (attachments st ++ newAttachments) |}.

(** [processFiles] is asynchronous: it awaits the reads of its files and
    writes the form when they have ended, so that a round started later can
    write first.  [inFlight] holds, for each round whose reads have not
    ended, the attachments it reads; [landed] records the rounds that have
    written, in the order in which they wrote. *)
Record Rounds := mkRounds {
  formNow : State;
  inFlight : list (list Attachment);
  landed : list (list Attachment)
}.

Inductive RoundEvent :=
| FilesSelected (files : list File)   (* processFiles(files) is called *)
| ReadsEnd (k : nat).                 (* the reads of round k in flight end *)

Definition roundStep (r : Rounds) (e : RoundEvent) : Rounds :=
  match e with
  | FilesSelected files =>
      {| formNow := formNow r;
         inFlight := inFlight r ++ [flat_map readFile files];
         landed := landed r |}
  | ReadsEnd k =>
      match nth_error (inFlight r) k with
      | Some newAttachments =>
          {| formNow := landRound newAttachments (formNow r);
             inFlight := firstn k (inFlight r) ++ skipn (S k) (inFlight r);
             landed := landed r ++ [newAttachments] |}
      | None => r
      end
  end.

Definition startRounds (st : State) : Rounds :=
  {| formNow := st; inFlight := []; landed := [] |}.

(** [removeAttachment] *)
Definition removeAttachment (index : nat) (st : State) : State :=
  {| mode := mode st; steps := steps st;
     attachments := filteri (fun _ i => negb (i =? index)) (attachments st) |}.

(** [handleApplyTemplate]; [stamp] is [Date.now().toString()]. *)
Definition handleApplyTemplate (stamp : jsstring) (template : PipelineTemplate)
    (st : State) : State :=
  {| mode := templateMode template;
     steps := mapi (fun p idx =>
                      {| id := stamp ++ numberToString idx; prompt := p;
                         stepModelName := None; status := pending |})
                (templateSteps template);
     attachments := attachments st |}.

(** [handleReset] *)
Definition handleReset (newId : jsstring) (st : State) : State := initial newId.

(** What [handleExecute] does to its surroundings. *)
Inductive Effect :=
| Alert (msg : jsstring)
| OnExecute (m : Mode) (validSteps : list PipelineStep) (initialImages : list Attachment)
| OnClose.

(** [s => s.prompt.trim().length > 0] *)
Definition hasPrompt (s : PipelineStep) : bool := 0 <? length (trim (prompt s)).

(** [handleExecute] *)
Definition handleExecute (st : State) : list Effect :=
  let validSteps := filter hasPrompt (steps st) in
  if length validSteps =? 0 then [Alert Text.needStep]
  else if length (attachments st) =? 0 then [Alert Text.needImage]
  else [OnExecute (mode st) validSteps (attachments st); OnClose].

(** The user's actions on the form. *)
Inductive Action :=
| SetMode (m : Mode)
| AddStep (newId : jsstring)
| RemoveStep (index : nat)
| StepChange (index : nat) (field : StepField) (value : jsstring)
| ProcessFiles (files : list File)
| RemoveAttachment (index : nat)
| ApplyTemplate (stamp : jsstring) (template : PipelineTemplate)
| ResetForm (newId : jsstring).

Definition act (st : State) (a : Action) : State :=
  match a with
  | SetMode m => setMode m st
  | AddStep newId => handleAddStep newId st
  | RemoveStep index => handleRemoveStep index st
  | StepChange index field value => handleStepChange index field value st
  | ProcessFiles files => processFiles files st
  | RemoveAttachment index => removeAttachment index st
  | ApplyTemplate stamp template => handleApplyTemplate stamp template st
  | ResetForm newId => handleReset newId st
  end.

(** The state after a sequence of actions. *)
Definition after (actions : list Action) (st : State) : State :=
  fold_left act actions st.

(** *** The step order and the built-in templates *)

(** ['up' | 'down'] *)
Inductive Direction := up | down.

(** [arr[i] = x] for [i] inside the array. *)
Fixpoint setAt {A : Type} (i : nat) (x : A) (l : list A) : list A :=
  match l, i with
  | [], _ => []
  | _ :: l', 0 => x :: l'
  | y :: l', S i' => y :: setAt i' x l'
  end.

(** [handleMoveStep]:
    [[newSteps[index], newSteps[targetIndex]] = [newSteps[targetIndex], newSteps[index]]].
    When [index] or [targetIndex] lies outside the array, the swap writes
    [undefined] into it, an array that no [State] describes: the result is
    [None].  (The buttons are disabled there: [index === 0] for up,
    [index === steps.length - 1] for down.) *)
Definition handleMoveStep (index : nat) (direction : Direction) (st : State)
    : option State :=
  let target :=
    match direction with
    | up => match index with 0 => None | S k => Some k end
    | down => Some (index + 1)
    end in
  match target with
  | None => None
  | Some targetIndex =>
      match nth_error (steps st) targetIndex, nth_error (steps st) index with
      | Some atTarget, Some atIndex =>
          Some {| mode := mode st;
                  steps := setAt targetIndex atIndex (setAt index atTarget (steps st));
                  attachments := attachments st |}
      | _, _ => None
      end
  end.

(** [PIPELINE_TEMPLATES] (name, mode and steps; the description is left
    out). *)
Definition PIPELINE_TEMPLATES : list PipelineTemplate :=
  [ {| templateName := [39118; 26684; 36801; 31227]%N;      (* "style transfer" *)
       templateMode := serial;
       templateSteps := [ lit "Convert to line art sketch";
                          lit "Add watercolor painting style";
                          lit "Enhance details and textures" ] |};
    {| templateName := [28176; 36827; 20248; 21270]%N;      (* "progressive refinement" *)
       templateMode := serial;
       templateSteps := [ lit "Enhance image resolution and clarity";
                          lit "Improve lighting and shadows";
                          lit "Add fine details" ] |};
    {| templateName := [22810; 39118; 26684; 25506; 32034]%N;  (* "multi-style exploration" *)
       templateMode := parallel;
       templateSteps := [ lit "Convert to anime style";
                          lit "Convert to oil painting style";
                          lit "Convert to cyberpunk style";
                          lit "Convert to minimalist style" ] |} ].

(** The user's actions on the form, the reordering of steps included. *)
Inductive FormAction :=
| Basic (a : Action)
| MoveStep (index : nat) (direction : Direction).

Definition actForm (st : State) (a : FormAction) : option State :=
  match a with
  | Basic a => Some (act st a)
  | MoveStep index direction => handleMoveStep index direction st
  end.

(** The state after a sequence of actions, if every move stayed inside the
    list of steps. *)
Fixpoint afterForm (actions : list FormAction) (st : State) : option State :=
  match actions with
  | [] => Some st
  | a :: actions' =>
      match actForm st a with
      | Some st' => afterForm actions' st'
      | None => None
      end
  end.

(** The templates an action applies. *)
Definition templateOf (a : FormAction) : list PipelineTemplate :=
  match a with
  | Basic (ApplyTemplate _ t) => [t]
  | _ => []
  end.

End PipelineModal.

(* ===================================================================== *)
(** ** Notions used in the statements *)
(* ===================================================================== *)

(** [Subsequence s l]: [s] is [l] with some elements left out, the others
    in their order. *)
Inductive Subsequence {A : Type} : list A -> list A -> Prop :=
| sub_nil : Subsequence [] []
| sub_keep x s l : Subsequence s l -> Subsequence (x :: s) (x :: l)
| sub_drop x s l : Subsequence s l -> Subsequence s (x :: l).

(** Concrete files, attachments and forms for the scenarios. *)
Module Scenario.

Definition pngFile (name data : jsstring) : File :=
  {| fileName := name; fileType := lit "image/png";
     fileDataURL := inl (lit "data:image/png;base64," ++ data) |}.

Definition pngAttachment (name data : jsstring) : Attachment :=
  {| file := pngFile name data;
     preview := lit "data:image/png;base64," ++ data;
     base64Data := Some data;
     mimeType := lit "image/png" |}.

Definition img0 : Attachment := pngAttachment (lit "0.png") (lit "AAAA").
Definition img1 : Attachment := pngAttachment (lit "1.png") (lit "BBBB").
Definition img2 : Attachment := pngAttachment (lit "2.png") (lit "CCCC").

(** Sixteen image files, two more than the form keeps. *)
Definition sixteenFiles : list File :=
  map (fun k => pngFile (numberToString k) (numberToString k)) (seq 0 16).

(** A form with a blank step, a blank-looking step and two real steps, and
    more files than it keeps. *)
Definition formActions : list PipelineModal.Action :=
  [PipelineModal.AddStep (lit "s1");
   PipelineModal.AddStep (lit "s2");
   PipelineModal.AddStep (lit "s3");
   PipelineModal.StepChange 1 PipelineModal.promptField (lit "   ");
   PipelineModal.StepChange 2 PipelineModal.promptField (lit " to anime ");
   PipelineModal.StepChange 3 PipelineModal.promptField (lit "sharpen");
   PipelineModal.ProcessFiles sixteenFiles;
   PipelineModal.RemoveAttachment 0;
   PipelineModal.ProcessFiles sixteenFiles].

Definition form : PipelineModal.State :=
  PipelineModal.after formActions (PipelineModal.initial (lit "s0")).

(** The same steps, no image. *)
Definition formWithoutImage : PipelineModal.State :=
  PipelineModal.after (firstn 6 formActions) (PipelineModal.initial (lit "s0")).

End Scenario.

(** Runs of the handlers of ChatInterface.tsx. *)
Module Run.

Import ChatInterface.

(** [run m w Q]: run from the world [w], the handler [m] ends with a
    completion and a world that satisfy [Q]. *)
Definition run {A : Type} (m : M A) (w : World)
    (Q : Completion A -> World -> Prop) : Prop :=
  Q (fst (m w)) (snd (m w)).

(** The events [body] that one call of [executeSingleGeneration] records
    after its entry, under the surroundings [b], entered with the
    transcript [history] while the clock stands at [t].  A value thrown
    ahead of the [try] block leaves nothing.  Else the call switches loading
    on, adds the user message and the placeholder and sends the request;
    with streaming it then updates the last message chunk by chunk ([ups]);
    a stop pressed while the request is pending aborts it; then comes what
    the outcome of the request asks for ([rest]); the [finally] block
    switches loading off and refreshes the balance. *)
Definition Generation (apiKey : jsstring) (settings : Settings) (b : Behaviour)
    (history : list ChatMessage) (t : Z) (text : jsstring)
    (atts : list Attachment) (body : list Event) : Prop :=
  match preFault b with
  | Some _ => body = []
  | None =>
      exists ups rest,
        body = [ SetLoading true;
                 AddMessage (userMessage t text atts);
                 AddMessage (modelPlaceholder t);
                 Request (streamResponse settings) apiKey history text
                   (imagesPayload atts) settings ]
               ++ ups
               ++ (if userStops b then [Abort] else [])
               ++ rest
               ++ [SetLoading false; FetchBalance]
        /\ forallb partialUpdate ups = true
        /\ (streamResponse settings = false -> ups = [])
        /\ match settles b with
           | inl modelParts =>
               forallb storeOnly rest = true
               /\ (streamResponse settings = false ->
                   updates rest
                   = [(modelParts, false,
                       if existsb thought modelParts
                       then Some (Qmake (latency b) 1000) else None)])
           | inr (thrown e) =>
               rest = if strEq (errName e) Text.abortErrorName || userStops b
                      then [ConsoleLog Text.userStopped]
                      else [ ConsoleError Text.generationFailed (thrown e);
                             UpdateLastMessage [textPart (errorText e)] true None ]
           | inr _ => rest = []
           end
  end.

(** The events [evs] of the loop of [handleSend] over [tasks], the first
    of which is call number [first] of [executeSingleGeneration] and task
    number [i] of a batch of [len]: task after task, the call, the events of
    its generation and what the loop adds after it. *)
Fixpoint BatchRun (apiKey : jsstring) (settings : Settings) (env : Env)
    (first i len : nat) (tasks : list Task) (evs : list Event) : Prop :=
  match tasks with
  | [] => evs = []
  | task :: rest =>
      exists history t body more,
        evs = Invoke (text task) (attachments task)
              :: (body ++ taskTail i len (completion (env first))) ++ more
        /\ Generation apiKey settings (env first) history t
             (text task) (attachments task) body
        /\ BatchRun apiKey settings env (S first) (i + 1) len rest more
  end.

(** The worlds and surroundings of the scenarios. *)
Definition world0 : World :=
  {| messages := []; abortControllerRef := None;
     batchProgress := {| current := 0; total := 0 |};
     now := 1000; invocations := 0; trace := [] |}.

Definition plainSettings : Settings :=
  {| streamResponse := false; modelName := lit "gemini" |}.

Definition streamSettings : Settings :=
  {| streamResponse := true; modelName := lit "gemini" |}.

(** The request resolves after two seconds with a thought and an image. *)
Definition succeeds : Behaviour :=
  {| preFault := None; chunks := []; latency := 2000; userStops := false;
     settles := inl [thoughtPart (lit "plan"); imagePart (lit "image/png") (Some (lit "AAAA"))] |}.

(** The request resolves after two seconds with a text and no thought. *)
Definition answers : Behaviour :=
  {| preFault := None; chunks := []; latency := 2000; userStops := false;
     settles := inl [textPart (lit "done")] |}.

(** The request rejects with a network error. *)
Definition fails : Behaviour :=
  {| preFault := None; chunks := []; latency := 700; userStops := false;
     settles := inr (thrown {| errName := lit "Error"; errMessage := lit "503" |}) |}.

(** The store throws ahead of the try block. *)
Definition faults : Behaviour :=
  {| preFault := Some (thrown {| errName := lit "Error"; errMessage := lit "quota" |});
     chunks := []; latency := 0; userStops := false; settles := inl [] |}.

(** The user presses stop after 300 ms and the request rejects with an
    AbortError. *)
Definition stopped : Behaviour :=
  {| preFault := None; chunks := []; latency := 300; userStops := true;
     settles := inr (thrown {| errName := Text.abortErrorName;
                               errMessage := lit "aborted" |}) |}.

(** The second generation is stopped by the user, the others succeed. *)
Definition stopSecond : Env :=
  fun k => if k =? 1 then stopped else succeeds.

(** The user presses stop after 300 ms and the request rejects with
    [null]. *)
Definition stoppedNull : Behaviour :=
  {| preFault := None; chunks := []; latency := 300; userStops := true;
     settles := inr jsNull |}.

Definition stopSecondNull : Env :=
  fun k => if k =? 1 then stoppedNull else succeeds.

(** A stream of two chunks, the first ending in a thought, the second in a
    text, that then ends. *)
Definition thinksThenAnswers : Behaviour :=
  {| preFault := None;
     chunks := [(100%Z, [thoughtPart (lit "plan")]);
                (400%Z, [thoughtPart (lit "plan"); textPart (lit "done")])];
     latency := 10; userStops := false; settles := inl [] |}.

Definition fourTasks : list Task :=
  repeat {| text := lit "cat"; attachments := [] |} 4.

(** The request rejects with [null]. *)
Definition rejectsNull : Behaviour :=
  {| preFault := None; chunks := []; latency := 50; userStops := false;
     settles := inr jsNull |}.

(** The first request fails, the second call throws ahead of its try
    block, the third request rejects with [null], the others succeed. *)
Definition failThree : Env :=
  fun k => if k =? 0 then fails else if k =? 1 then faults
           else if k =? 2 then rejectsNull else succeeds.

End Run.

(* ===================================================================== *)
(** ** Facts about lists and strings *)
(* ===================================================================== *)

Section ListFacts.

Context {A B : Type}.

Lemma filteriFrom_length (p : A -> nat -> bool) (l : list A) :
  forall i, length (filteriFrom p i l) <= length l.
Proof.
  induction l as [|x l IH]; intros i; simpl; [lia|].
  destruct (p x i); simpl; specialize (IH (S i)); lia.
Qed.

Lemma mapiFrom_length (f : A -> nat -> B) (l : list A) :
  forall i, length (mapiFrom f i l) = length l.
Proof. induction l as [|x l IH]; intros i; simpl; [reflexivity|]. now rewrite IH. Qed.

Lemma mapiFrom_nth_error (f : A -> nat -> B) (l : list A) :
  forall i n, nth_error (mapiFrom f i l) n
              = option_map (fun x => f x (i + n)) (nth_error l n).
Proof.
  induction l as [|x l IH]; intros i [|n]; simpl; try reflexivity.
  - now rewrite Nat.add_0_r.
  - rewrite IH. now replace (S i + n) with (i + S n) by lia.
Qed.

Lemma filter_Subsequence (p : A -> bool) (l : list A) : Subsequence (filter p l) l.
Proof.
  induction l as [|x l IH]; simpl; [constructor|].
  destruct (p x); now constructor.
Qed.

End ListFacts.

Section StringFacts.

Lemma trimStart_nil_iff s : trimStart s = [] <-> forallb isWhiteSpace s = true.
Proof.
  induction s as [|c s IH]; simpl; [tauto|].
  destruct (isWhiteSpace c); simpl; [exact IH|].
  split; discriminate.
Qed.

Lemma trimStart_head s : forall c s', trimStart s = c :: s' -> isWhiteSpace c = false.
Proof.
  induction s as [|d s IH]; simpl; intros c s' H; [discriminate|].
  destruct (isWhiteSpace d) eqn:E; [eauto|].
  now inversion H; subst.
Qed.

Lemma forallb_rev {X : Type} (p : X -> bool) (l : list X) :
  forallb p (rev l) = forallb p l.
Proof.
  induction l as [|x l IH]; simpl; [reflexivity|].
  rewrite forallb_app, IH. simpl. rewrite andb_true_r. apply andb_comm.
Qed.

(** A string trims to the empty string exactly when it is white space
    throughout. *)
Lemma trim_nil_iff s : trim s = [] <-> forallb isWhiteSpace s = true.
Proof.
  unfold trim, trimEnd. split.
  - intros H. apply (f_equal (@rev N)) in H. rewrite rev_involutive in H.
    simpl in H. apply trimStart_nil_iff in H. rewrite forallb_rev in H.
    destruct (trimStart s) as [|c s'] eqn:E.
    + now apply trimStart_nil_iff.
    + apply trimStart_head in E. simpl in H. rewrite E in H. discriminate.
  - intros H. apply trimStart_nil_iff in H. now rewrite H.
Qed.

(** A string without a dash is one piece. *)
Lemma splitDashesFrom_no_dash s :
  forallb (fun c => negb (c =? dash)%N) s = true ->
  forall b cur, splitDashesFrom b cur s = [rev cur ++ s].
Proof.
  induction s as [|c s IH]; intros H b cur.
  - simpl. now rewrite app_nil_r.
  - cbn [forallb] in H. cbn [splitDashesFrom].
    apply andb_prop in H as [Hc Hs].
    apply negb_true_iff in Hc.
    assert (Hm : matchesDashes (c :: s) = false).
    { unfold matchesDashes. destruct s as [|? [|? ?]]; try reflexivity.
      now rewrite Hc. }
    rewrite Hc, andb_false_r, Hm, IH by assumption.
    simpl. now rewrite <- app_assoc.
Qed.

Lemma white_not_dash c : isWhiteSpace c = true -> (c =? dash)%N = false.
Proof.
  intros H. destruct (N.eqb_spec c dash) as [->|]; [|reflexivity].
  vm_compute in H. discriminate.
Qed.

(** The library calls on the inputs of the scenarios. *)
Example split_ex1 : splitDashes (lit "a---b-----c--d") = [lit "a"; lit "b"; lit "c--d"].
Proof. reflexivity. Qed.
Example split_ex2 : splitDashes (lit "---") = [[]; []].
Proof. reflexivity. Qed.
Example split_ex3 : splitDashes (lit "A, B, C") = [lit "A, B, C"].
Proof. reflexivity. Qed.
Example trim_ex1 : trim (lit "  a b  ") = lit "a b".
Proof. reflexivity. Qed.
Example num_ex : numberToString 0 = lit "0" /\ numberToString 1234 = lit "1234".
Proof. split; reflexivity. Qed.
Example split_ex4 : split (lit "data:image/png;base64,AAAA") 44%N = [lit "data:image/png;base64"; lit "AAAA"].
Proof. reflexivity. Qed.

End StringFacts.

(* ===================================================================== *)
(** ** The pipeline form *)
(* ===================================================================== *)

Module PipelineFacts.

Import PipelineModal.

Lemma hasPrompt_true s : hasPrompt s = true <-> trim (prompt s) <> [].
Proof.
  unfold hasPrompt. destruct (trim (prompt s)); simpl.
  - split; [discriminate | congruence].
  - split; [discriminate | reflexivity].
Qed.

Lemma filter_nil_iff {X : Type} (p : X -> bool) (l : list X) :
  filter p l = [] <-> forall x, In x l -> p x = false.
Proof.
  induction l as [|x l IH]; simpl.
  - split; [intros _ ? [] | reflexivity].
  - destruct (p x) eqn:E.
    + split; [discriminate|]. intros H. specialize (H x (or_introl eq_refl)). congruence.
    + rewrite IH. split.
      * intros H y [<-|Hy]; auto.
      * intros H y Hy. apply H. now right.
Qed.

(** The three outcomes of [handleExecute]. *)
Lemma handleExecute_cases st :
  (filter hasPrompt (steps st) = [] /\ handleExecute st = [Alert Text.needStep]) \/
  (filter hasPrompt (steps st) <> [] /\ attachments st = []
   /\ handleExecute st = [Alert Text.needImage]) \/
  (filter hasPrompt (steps st) <> [] /\ attachments st <> []
   /\ handleExecute st
      = [OnExecute (mode st) (filter hasPrompt (steps st)) (attachments st); OnClose]).
Proof.
  unfold handleExecute.
  destruct (filter hasPrompt (steps st)) as [|s ss] eqn:Ef; simpl.
  - now left.
  - right. destruct (attachments st) as [|a l] eqn:Ea; simpl.
    + left. repeat split; congruence.
    + right. repeat split; congruence.
Qed.

Lemma handleExecute_started st m ss imgs :
  In (OnExecute m ss imgs) (handleExecute st) ->
  filter hasPrompt (steps st) <> [] /\ attachments st <> []
  /\ m = mode st /\ ss = filter hasPrompt (steps st) /\ imgs = attachments st.
Proof.
  destruct (handleExecute_cases st) as [[_ ->]|[(_ & _ & ->)|(Hf & Ha & ->)]];
    simpl.
  - intros [H|[]]. discriminate.
  - intros [H|[]]. discriminate.
  - intros [H|[H|[]]]; [|discriminate]. inversion H; subst. auto.
Qed.

(** The attachment list of the form never holds more than 14 entries. *)
Lemma act_keeps_bound st a :
  length (attachments st) <= 14 -> length (attachments (act st a)) <= 14.
Proof.
  intros H.
  destruct a as [m|newId|index|index field value|files|index|stamp template|newId];
    cbn [act setMode processFiles removeAttachment handleApplyTemplate
         handleReset initial attachments length].
  - exact H.
  - unfold handleAddStep. now destruct (_ <? _).
  - unfold handleRemoveStep. now destruct (_ <? _).
  - unfold handleStepChange. now destruct (_ <? _).
  - rewrite length_firstn. lia.
  - unfold filteri.
    pose proof (filteriFrom_length (fun _ i => negb (i =? index)) (attachments st) 0).
    lia.
  - exact H.
  - lia.
Qed.

Lemma after_keeps_bound actions :
  forall st, length (attachments st) <= 14 ->
             length (attachments (after actions st)) <= 14.
Proof.
  induction actions as [|a actions IH]; intros st H; simpl; [exact H|].
  apply IH. now apply act_keeps_bound.
Qed.

(** C7: [handleExecute] calls [onExecute] only when some step has a prompt
    that is non-empty (also after trimming) and the form holds an image;
    when no step has such a prompt, or when no image is attached, it shows
    one alert and does nothing else: [onExecute], which makes the network
    calls, is not invoked. *)
Theorem C7_execute_needs_step_and_image (st : State) :
  (forall m ss imgs,
      In (OnExecute m ss imgs) (handleExecute st) ->
      (exists s, In s (steps st) /\ trim (prompt s) <> [] /\ prompt s <> [])
      /\ attachments st <> []) /\
  ((forall s, In s (steps st) -> trim (prompt s) = []) \/ attachments st = [] ->
   (exists msg, handleExecute st = [Alert msg])
   /\ forall m ss imgs, ~ In (OnExecute m ss imgs) (handleExecute st)).
Proof.
  split.
  - intros m ss imgs H. apply handleExecute_started in H as (Hf & Ha & _).
    split; [|exact Ha].
    destruct (filter hasPrompt (steps st)) as [|s l] eqn:E; [congruence|].
    assert (Hs : In s (filter hasPrompt (steps st))) by (rewrite E; now left).
    apply filter_In in Hs as [Hin Hp]. apply hasPrompt_true in Hp.
    exists s. repeat split; auto.
    intros Hnil. rewrite Hnil in Hp. now apply Hp.
  - intros H.
    destruct (handleExecute_cases st) as [[_ E]|[(_ & _ & E)|(Hf & Ha & E)]].
    + rewrite E. split; [eauto|]. intros m ss imgs [?|[]]; discriminate.
    + rewrite E. split; [eauto|]. intros m ss imgs [?|[]]; discriminate.
    + exfalso. destruct H as [H|H]; [|contradiction].
      apply Hf. apply filter_nil_iff. intros s Hs.
      destruct (hasPrompt s) eqn:Ep; [|reflexivity].
      apply hasPrompt_true in Ep. now rewrite (H s Hs) in Ep.
Qed.

(** C9: whatever files are added and removed (and whatever else is done on
    the form), the attachment list holds at most 14 entries, [processFiles]
    keeping the first 14 and dropping the rest; so [onExecute] receives at
    most 14 initial images. *)
Theorem C9_at_most_14_attachments (newId : jsstring) (actions : list Action) :
  length (attachments (after actions (initial newId))) <= 14 /\
  (forall files st,
      attachments (processFiles files st)
      = firstn 14 (attachments st ++ flat_map readFile files)) /\
  (forall m ss imgs,
      In (OnExecute m ss imgs) (handleExecute (after actions (initial newId))) ->
      length imgs <= 14).
Proof.
  assert (H : length (attachments (after actions (initial newId))) <= 14).
  { apply after_keeps_bound. simpl. lia. }
  repeat split; auto.
  intros m ss imgs Hin.
  apply handleExecute_started in Hin as (_ & _ & _ & _ & ->). exact H.
Qed.

(** C10: when [handleExecute] starts the pipeline, the steps it hands to
    [onExecute] are the configured steps whose prompt is non-empty after
    trimming, in their order; the other steps are left out without an error.
    It starts whenever such a step exists and an image is attached. *)
Theorem C10_valid_steps_in_order (st : State) :
  (forall m ss imgs,
      In (OnExecute m ss imgs) (handleExecute st) ->
      ss = filter hasPrompt (steps st)
      /\ Subsequence ss (steps st)
      /\ (forall s, In s ss <-> In s (steps st) /\ trim (prompt s) <> [])
      /\ m = mode st /\ imgs = attachments st) /\
  ((exists s, In s (steps st) /\ trim (prompt s) <> []) ->
   attachments st <> [] ->
   handleExecute st
   = [OnExecute (mode st) (filter hasPrompt (steps st)) (attachments st); OnClose]).
Proof.
  split.
  - intros m ss imgs H.
    apply handleExecute_started in H as (_ & _ & -> & -> & ->).
    split; [reflexivity|]. split; [apply filter_Subsequence|].
    split; [|split; reflexivity].
    intros s. rewrite filter_In, hasPrompt_true. reflexivity.
  - intros (s & Hs & Hp) Ha.
    destruct (handleExecute_cases st) as [[Hf _]|[(_ & Ha' & _)|(_ & _ & E)]].
    + exfalso. rewrite filter_nil_iff in Hf. apply hasPrompt_true in Hp.
      rewrite (Hf s Hs) in Hp. discriminate.
    + contradiction.
    + exact E.
Qed.

Lemma C7_witness :
  (exists msg, handleExecute Scenario.formWithoutImage = [Alert msg])
  /\ forall m ss imgs,
       ~ In (OnExecute m ss imgs) (handleExecute Scenario.formWithoutImage).
Proof.
  apply (proj2 (C7_execute_needs_step_and_image Scenario.formWithoutImage)).
  right. reflexivity.
Defined.

Lemma C9_witness :
  length (attachments Scenario.form) <= 14.
Proof.
  apply (proj2 (proj2 (C9_at_most_14_attachments (lit "s0") Scenario.formActions))
           (mode Scenario.form) (filter hasPrompt (steps Scenario.form))
           (attachments Scenario.form)).
  vm_compute. left. reflexivity.
Defined.

Lemma C10_witness :
  handleExecute Scenario.form
  = [OnExecute (mode Scenario.form) (filter hasPrompt (steps Scenario.form))
       (attachments Scenario.form); OnClose].
Proof.
  apply (proj2 (C10_valid_steps_in_order Scenario.form)).
  - exists (mkStep (lit "s2") (lit " to anime ") None pending).
    split; [vm_compute; tauto | vm_compute; discriminate].
  - vm_compute. discriminate.
Defined.

Example form_steps_passed :
  map prompt (filter hasPrompt (steps Scenario.form)) = [lit " to anime "; lit "sharpen"]
  /\ map prompt (steps Scenario.form) = [[]; lit "   "; lit " to anime "; lit "sharpen"]
  /\ length (attachments Scenario.form) = 14.
Proof. vm_compute. auto. Qed.

End PipelineFacts.

(* ===================================================================== *)
(** ** The task lists of [handleSend] *)
(* ===================================================================== *)

Module TaskFacts.

Import ChatInterface.

Lemma splitPrompts_blank text : trim text = [] -> splitPrompts text = [].
Proof.
  intros H. unfold splitPrompts, splitDashes.
  rewrite splitDashesFrom_no_dash.
  - simpl. now rewrite H.
  - apply trim_nil_iff in H. clear -H.
    induction text as [|c s IH]; simpl in *; [reflexivity|].
    apply andb_prop in H as [Hc Hs].
    now rewrite (white_not_dash _ Hc), IH.
Qed.

(** A run of three or more dashes ends a piece. *)
Lemma splitDashesFrom_run k rest :
  match rest with c :: _ => (c =? dash)%N = false | [] => True end ->
  splitDashesFrom true [] (repeat dash k ++ rest) = splitDashesFrom false [] rest
  \/ rest = [] /\ splitDashesFrom true [] (repeat dash k ++ rest) = [[]].
Proof.
  intros Hrest. induction k as [|k IH]; simpl.
  - destruct rest as [|c rest]; [now right|]. left.
    cbn [splitDashesFrom]. rewrite Hrest. simpl.
    destruct (matchesDashes (c :: rest)) eqn:Em; [|reflexivity].
    unfold matchesDashes in Em. destruct rest as [|? [|? ?]]; try discriminate.
    rewrite Hrest in Em. discriminate.
  - exact IH.
Qed.

Lemma splitDashes_at_run a k rest :
  forallb (fun c => negb (c =? dash)%N) a = true ->
  3 <= k ->
  match rest with c :: _ => (c =? dash)%N = false | [] => True end ->
  splitDashes (a ++ repeat dash k ++ rest) = a :: splitDashes rest.
Proof.
  intros Ha Hk Hrest. unfold splitDashes.
  assert (G : forall cur,
             splitDashesFrom false cur (a ++ repeat dash k ++ rest)
             = (rev cur ++ a) :: splitDashesFrom false [] rest).
  { induction a as [|c a IH]; intros cur.
    - destruct k as [|[|[|k]]]; try lia.
      cbn [app repeat splitDashesFrom matchesDashes andb].
      rewrite N.eqb_refl. cbn [andb]. rewrite app_nil_r.
      f_equal.
      change (splitDashesFrom true [] (repeat dash (S (S k)) ++ rest)
              = splitDashesFrom false [] rest).
      destruct (splitDashesFrom_run (S (S k)) rest Hrest) as [E|[-> E]];
        [exact E|]. rewrite E. reflexivity.
    - cbn [forallb] in Ha. apply andb_prop in Ha as [Hc Ha].
      apply negb_true_iff in Hc.
      cbn [app splitDashesFrom]. cbn [andb].
      assert (Hm : matchesDashes (c :: a ++ repeat dash k ++ rest) = false).
      { unfold matchesDashes. now rewrite Hc;
          destruct (a ++ repeat dash k ++ rest) as [|? [|? ?]]. }
      rewrite Hm, IH by assumption. simpl. now rewrite <- app_assoc. }
  apply G.
Qed.

Lemma batchTasks_normal count text atts :
  batchTasks normal count text atts
  = inr (repeat {| text := text; attachments := atts |} (Z.to_nat count)).
Proof. reflexivity. Qed.

Lemma repeat_Forall {X : Type} (x : X) n : Forall (fun y => y = x) (repeat x n).
Proof. induction n; simpl; constructor; auto. Qed.

(** C2 (as the code has it): in repeat mode [handleSend] builds one task
    [{text, attachments}] per unit of [batchCount], whatever the count: for a
    count from 1 to 4 exactly that many, for a count below 1 none, for a
    count above 4 that many too.  No count is rejected. *)
Theorem C2_repeat_mode_builds_count_tasks (count : Z) (text : jsstring)
    (atts : list Attachment) :
  exists tasks,
    batchTasks normal count text atts = inr tasks
    /\ Z.of_nat (length tasks) = Z.max 0 count
    /\ Forall (fun t => t = {| text := text; attachments := atts |}) tasks.
Proof.
  eexists. split; [apply batchTasks_normal|]. split.
  - rewrite repeat_length. lia.
  - apply repeat_Forall.
Qed.

(** C2 as stated fails: a count of 5 is outside 1..4, yet five tasks are
    built and no error is signalled; [handleSend] then runs all five and
    shows no error notification. *)
Lemma C2_counterexample :
  batchTasks normal 5 (lit "cat") [Scenario.img0]
  = inr (repeat {| text := lit "cat"; attachments := [Scenario.img0] |} 5)
  /\ (~ exists msg, batchTasks normal 5 (lit "cat") [Scenario.img0] = inl msg)
  /\ (let tr := trace (snd (handleSend (lit "key") Run.plainSettings normal 5
                              (fun _ => Run.succeeds) (lit "cat") [Scenario.img0]
                              Run.world0)) in
      invoked tr = repeat {| text := lit "cat"; attachments := [Scenario.img0] |} 5
      /\ toasts error tr = []).
Proof.
  split; [reflexivity|]. split.
  - intros [msg H]. discriminate.
  - vm_compute. split; reflexivity.
Qed.

Lemma matchesDashes_three s : matchesDashes s = true -> hasThreeDashes s = true.
Proof.
  destruct s as [|a [|b [|c s]]]; try discriminate.
  cbn [matchesDashes hasThreeDashes]. now intros ->.
Qed.

Lemma hasThreeDashes_tail c s : hasThreeDashes (c :: s) = false -> hasThreeDashes s = false.
Proof. cbn [hasThreeDashes]. intros H. now apply orb_false_elim in H. Qed.

Lemma endsWithDash_tail c s : s <> [] -> endsWithDash (c :: s) = endsWithDash s.
Proof.
  intros Hs. unfold endsWithDash. cbn [rev].
  destruct (rev s) as [|x r] eqn:E; [|reflexivity].
  apply (f_equal (@rev N)) in E. rewrite rev_involutive in E. now subst.
Qed.

(** Inside a piece the expression finds no match. *)
Lemma splitDashesFrom_piece a :
  hasThreeDashes a = false ->
  forall cur, splitDashesFrom false cur a = [rev cur ++ a].
Proof.
  induction a as [|c a IH]; intros Ha cur; cbn [splitDashesFrom andb].
  - now rewrite app_nil_r.
  - destruct (matchesDashes (c :: a)) eqn:Em.
    + apply matchesDashes_three in Em. congruence.
    + rewrite IH by exact (hasThreeDashes_tail _ _ Ha). cbn [rev].
      now rewrite <- app_assoc.
Qed.

(** A piece, a run of three dashes or more, and a rest that does not start
    with a dash: the piece is cut off and the scan goes on with the rest. *)
Lemma splitDashesFrom_cut a k rest :
  hasThreeDashes a = false ->
  endsWithDash a = false ->
  3 <= k ->
  startsWithDash rest = false ->
  forall cur,
    splitDashesFrom false cur (a ++ repeat dash k ++ rest)
    = (rev cur ++ a) :: splitDashesFrom false [] rest.
Proof.
  intros Ha He Hk Hrest.
  assert (Hrest' : match rest with c :: _ => (c =? dash)%N = false | [] => True end)
    by (destruct rest; [exact I|exact Hrest]).
  induction a as [|c a IH]; intros cur.
  - destruct k as [|[|[|k]]]; try lia.
    cbn [app repeat splitDashesFrom matchesDashes andb].
    rewrite N.eqb_refl. cbn [andb]. rewrite app_nil_r. f_equal.
    change (splitDashesFrom true [] (repeat dash (S (S k)) ++ rest)
            = splitDashesFrom false [] rest).
    destruct (splitDashesFrom_run (S (S k)) rest Hrest') as [E|[-> E]];
      [exact E|]. rewrite E. reflexivity.
  - cbn [app splitDashesFrom andb].
    assert (Hm : matchesDashes (c :: a ++ repeat dash k ++ rest) = false).
    { destruct (c =? dash)%N eqn:Ec; [|cbn [matchesDashes];
        destruct (a ++ repeat dash k ++ rest) as [|? [|? ?]]; now rewrite ?Ec].
      destruct a as [|d a]; [unfold endsWithDash in He; cbn in He; congruence|].
      destruct (d =? dash)%N eqn:Ed; [|cbn [app matchesDashes];
        destruct (a ++ repeat dash k ++ rest) as [|? ?]; now rewrite ?Ec, ?Ed].
      destruct a as [|e a].
      { rewrite endsWithDash_tail in He by discriminate.
        unfold endsWithDash in He. cbn in He. congruence. }
      cbn [app matchesDashes]. rewrite Ec, Ed. cbn [andb].
      cbn [hasThreeDashes] in Ha. rewrite Ec, Ed in Ha. cbn [andb] in Ha.
      now apply orb_false_elim in Ha. }
    rewrite Hm.
    assert (He' : endsWithDash a = false).
    { destruct a as [|d a]; [reflexivity|].
      now rewrite endsWithDash_tail in He by discriminate. }
    rewrite (IH (hasThreeDashes_tail _ _ Ha) He'). cbn [rev].
    now rewrite <- app_assoc.
Qed.

Lemma wellCut_unfold p0 more :
  wellCut p0 more
  = negb (hasThreeDashes p0)
    && match more with
       | [] => true
       | (k, p) :: more' =>
           negb (endsWithDash p0)
           && (3 <=? k)
           && negb (startsWithDash p)
           && match more' with [] => true | _ :: _ => 0 <? length p end
           && wellCut p more'
       end.
Proof. destruct more; reflexivity. Qed.

Lemma wellCut_parts p0 k p more :
  wellCut p0 ((k, p) :: more) = true ->
  hasThreeDashes p0 = false /\ endsWithDash p0 = false /\ 3 <= k
  /\ startsWithDash p = false
  /\ (more = [] \/ p <> [])
  /\ wellCut p more = true.
Proof.
  rewrite wellCut_unfold. intros H.
  apply andb_prop in H as [H3 H]. apply andb_prop in H as [H Hw].
  apply andb_prop in H as [H Hne]. apply andb_prop in H as [H Hs].
  apply andb_prop in H as [He Hk].
  apply negb_true_iff in H3, He, Hs. apply Nat.leb_le in Hk.
  repeat split; try assumption.
  destruct more; [now left|right]. destruct p; [discriminate|discriminate].
Qed.

Lemma wellCut_build p0 k p more :
  hasThreeDashes p0 = false -> endsWithDash p0 = false -> 3 <= k ->
  startsWithDash p = false -> (more = [] \/ p <> []) ->
  wellCut p more = true ->
  wellCut p0 ((k, p) :: more) = true.
Proof.
  intros H3 He Hk Hs Hne Hw. rewrite wellCut_unfold, H3, He, Hs, Hw.
  apply Nat.leb_le in Hk. rewrite Hk. cbn [negb andb].
  destruct more; [reflexivity|]. destruct Hne as [Hne|Hne]; [discriminate|].
  destruct p; [congruence|reflexivity].
Qed.

Lemma wellCut_three p0 more : wellCut p0 more = true -> hasThreeDashes p0 = false.
Proof.
  rewrite wellCut_unfold. intros H. apply andb_prop in H as [H _].
  now apply negb_true_iff in H.
Qed.

(** A piece can be read one code unit further to the left as long as no
    three dashes come together. *)
Lemma wellCut_cons c p0 more :
  hasThreeDashes (c :: p0) = false -> p0 <> [] ->
  wellCut p0 more = true -> wellCut (c :: p0) more = true.
Proof.
  intros H3 Hne W. destruct more as [|[k p] more'].
  - rewrite wellCut_unfold, H3. reflexivity.
  - destruct (wellCut_parts _ _ _ _ W) as (_ & He & Hk & Hs & Hn & Hw).
    apply wellCut_build; try assumption.
    now rewrite endsWithDash_tail.
Qed.

Lemma wellCut_tail c p0 more :
  wellCut (c :: p0) more = true -> more = [] \/ p0 <> [] ->
  wellCut p0 more = true.
Proof.
  intros W Hne. destruct more as [|[k p] more'].
  - apply wellCut_three in W. apply hasThreeDashes_tail in W.
    rewrite wellCut_unfold, W. reflexivity.
  - destruct Hne as [Hne|Hne]; [discriminate|].
    destruct (wellCut_parts _ _ _ _ W) as (H3 & He & Hk & Hs & Hn & Hw).
    apply wellCut_build; try assumption.
    + exact (hasThreeDashes_tail _ _ H3).
    + now rewrite endsWithDash_tail in He.
Qed.

(** The pieces of a text written with runs of dashes. *)
Lemma splitDashes_dashed more :
  forall p0, wellCut p0 more = true ->
    splitDashes (dashed p0 more) = p0 :: map snd more.
Proof.
  unfold splitDashes, dashed.
  induction more as [|[k p] more IH]; intros p0 Hcut.
  - cbn [map concat]. rewrite app_nil_r.
    now rewrite splitDashesFrom_piece by apply (wellCut_three _ _ Hcut).
  - destruct (wellCut_parts _ _ _ _ Hcut) as (H3 & He & Hk & Hs & Hne & Hw).
    cbn [map concat fst snd]. rewrite <- app_assoc.
    rewrite splitDashesFrom_cut; try assumption.
    + cbn [rev app]. f_equal. apply (IH p Hw).
    + destruct p as [|c p]; [|exact Hs].
      destruct Hne as [->|Hne]; [reflexivity|congruence].
Qed.

(** Every text reads as a first piece and runs of dashes with their
    pieces. *)
Lemma dashed_exists text :
  exists p0 more, text = dashed p0 more /\ wellCut p0 more = true.
Proof.
  induction text as [|c s IH].
  - exists [], []. split; reflexivity.
  - destruct IH as (p0 & more & -> & W).
    destruct (c =? dash)%N eqn:Ec.
    + apply N.eqb_eq in Ec. subst c.
      destruct p0 as [|d p0].
      * destruct more as [|[k p] more'].
        -- exists [dash], []. split; reflexivity.
        -- exists [], ((S k, p) :: more'). split; [reflexivity|].
           destruct (wellCut_parts _ _ _ _ W) as (_ & _ & Hk & Hs & Hn & Hw).
           apply wellCut_build; try assumption; try reflexivity. lia.
      * destruct (d =? dash)%N eqn:Ed.
        -- apply N.eqb_eq in Ed. subst d.
           destruct p0 as [|e p0].
           ++ destruct more as [|[k p] more'].
              ** exists [dash; dash], []. split; reflexivity.
              ** destruct (wellCut_parts _ _ _ _ W) as (_ & He & _).
                 vm_compute in He. discriminate He.
           ++ destruct (e =? dash)%N eqn:Ee.
              ** apply N.eqb_eq in Ee. subst e.
                 exists [], ((3, p0) :: more). split; [reflexivity|].
                 assert (Hne : more = [] \/ p0 <> []).
                 { destruct more as [|[k p] more']; [now left|right].
                   intros ->.
                   destruct (wellCut_parts _ _ _ _ W) as (_ & He & _).
                   vm_compute in He. discriminate He. }
                 apply wellCut_build; try reflexivity; try assumption.
                 --- apply wellCut_three in W. destruct p0 as [|x p0]; [reflexivity|].
                     cbn [hasThreeDashes] in W. apply orb_false_elim in W as [W _].
                     rewrite !N.eqb_refl in W. exact W.
                 --- apply (wellCut_tail dash); [|exact Hne].
                     apply (wellCut_tail dash); [exact W|].
                     destruct Hne as [Hne|Hne]; [now left|right; discriminate].
              ** exists (dash :: dash :: e :: p0), more. split; [reflexivity|].
                 apply wellCut_cons; [|discriminate|exact W].
                 cbn [hasThreeDashes]. rewrite Ee.
                 apply wellCut_three in W. cbn [hasThreeDashes] in W.
                 rewrite Ee in W. rewrite andb_false_r. exact W.
        -- exists (dash :: d :: p0), more. split; [reflexivity|].
           apply wellCut_cons; [|discriminate|exact W].
           apply wellCut_three in W.
           change (hasThreeDashes (dash :: d :: p0))
             with (match p0 with
                   | c :: _ => (dash =? dash)%N && (d =? dash)%N && (c =? dash)%N
                   | [] => false
                   end || hasThreeDashes (d :: p0)).
           rewrite W, Ed. now destruct p0.
    + destruct p0 as [|d p0].
      * exists [c], more. split; [reflexivity|].
        destruct more as [|[k p] more'].
        -- reflexivity.
        -- destruct (wellCut_parts _ _ _ _ W) as (_ & _ & Hk & Hs & Hn & Hw).
           apply wellCut_build; try assumption; reflexivity.
      * exists (c :: d :: p0), more. split; [reflexivity|].
        apply wellCut_cons; [|discriminate|exact W].
        apply wellCut_three in W.
        change (hasThreeDashes (c :: d :: p0))
          with (match p0 with
                | e :: _ => (c =? dash)%N && (d =? dash)%N && (e =? dash)%N
                | [] => false
                end || hasThreeDashes (d :: p0)).
        rewrite W, Ec. now destruct p0.
Qed.

(** C3 (as the code has it): the prompt is cut at runs of three or more
    dashes, neither at commas nor at line breaks.  Every text reads, in the
    way [wellCut] describes, as a first piece followed by runs of at least
    three dashes, each with the piece after it (one or two dashes are part
    of their piece; a run takes all the dashes that stand together), and it
    is cut into exactly these pieces; the sub-prompts are the pieces
    trimmed, in order, with the empty ones dropped.  So "A, B, C" with two
    images gives two tasks that both carry "A, B, C"; "A---B---C" with two
    images gives "A" for the first image and "B" for the second, "C" being
    dropped; and " A-1 ---  -----B--b---C" with two images gives "A-1" and
    "B--b". *)
Theorem C3_prompts_split_at_dashes :
  (forall p0 more,
      wellCut p0 more = true ->
      splitDashes (dashed p0 more) = p0 :: map snd more
      /\ splitPrompts (dashed p0 more)
         = filter (fun p => negb (length p =? 0)) (map trim (p0 :: map snd more))) /\
  (forall text, exists p0 more, text = dashed p0 more /\ wellCut p0 more = true) /\
  (forall count img0 img1,
      batchTasks image_multi_prompt count (lit "A, B, C") [img0; img1]
      = inr [ {| text := lit "A, B, C"; attachments := [img0] |};
              {| text := lit "A, B, C"; attachments := [img1] |} ]) /\
  (forall count img0 img1,
      batchTasks image_multi_prompt count (lit "A---B---C") [img0; img1]
      = inr [ {| text := lit "A"; attachments := [img0] |};
              {| text := lit "B"; attachments := [img1] |} ]) /\
  (forall count img0 img1,
      batchTasks image_multi_prompt count (lit " A-1 ---  -----B--b---C") [img0; img1]
      = inr [ {| text := lit "A-1"; attachments := [img0] |};
              {| text := lit "B--b"; attachments := [img1] |} ]).
Proof.
  split; [|split; [exact dashed_exists|split; [|split]]].
  - intros p0 more Hcut.
    pose proof (splitDashes_dashed more p0 Hcut) as E.
    split; [exact E|]. unfold splitPrompts. rewrite E.
    apply filter_ext. intros p. now destruct p.
  - intros. vm_compute. reflexivity.
  - intros. vm_compute. reflexivity.
  - intros. vm_compute. reflexivity.
Qed.

Lemma C3_witness :
  splitDashes (lit " A-1 ---  -----B--b---C")
  = [lit " A-1 "; lit "  "; lit "B--b"; lit "C"]
  /\ splitPrompts (lit " A-1 ---  -----B--b---C") = [lit "A-1"; lit "B--b"; lit "C"].
Proof.
  apply (proj1 C3_prompts_split_at_dashes (lit " A-1 ")
           [(3, lit "  "); (5, lit "B--b"); (3, lit "C")]).
  reflexivity.
Defined.

(** C3 as stated fails: with "A, B, C" and two images both tasks carry the
    whole text; the comma does not separate prompts. *)
Lemma C3_counterexample :
  batchTasks image_multi_prompt 1 (lit "A, B, C") [Scenario.img0; Scenario.img1]
  = inr [ {| text := lit "A, B, C"; attachments := [Scenario.img0] |};
          {| text := lit "A, B, C"; attachments := [Scenario.img1] |} ]
  /\ batchTasks image_multi_prompt 1 (lit "A, B, C") [Scenario.img0; Scenario.img1]
     <> inr [ {| text := lit "A"; attachments := [Scenario.img0] |};
              {| text := lit "B"; attachments := [Scenario.img1] |} ].
Proof.
  split; [vm_compute; reflexivity|]. vm_compute. discriminate.
Qed.

(** C4: with N images and M sub-prompts in the text, 0 < M < N, the
    image-to-prompts mode builds N tasks, and task i carries sub-prompt
    i mod M and image i alone. *)
Theorem C4_prompts_reused_cyclically (count : Z) (text : jsstring)
    (atts : list Attachment) (prompts : list jsstring) :
  splitPrompts text = prompts ->
  0 < length prompts ->
  length prompts < length atts ->
  exists tasks,
    batchTasks image_multi_prompt count text atts = inr tasks
    /\ length tasks = length atts
    /\ forall i, i < length atts ->
         exists p att,
           nth_error prompts (i mod length prompts) = Some p
           /\ nth_error atts i = Some att
           /\ nth_error tasks i = Some {| text := p; attachments := [att] |}.
Proof.
  intros Hp HM HN. unfold batchTasks.
  destruct atts as [|a0 atts']; [simpl in HN; lia|].
  cbn [length Nat.eqb].
  destruct (trim text) as [|c t] eqn:Et.
  { rewrite (splitPrompts_blank _ Et) in Hp. subst. simpl in HM. lia. }
  cbn [truthy negb]. rewrite Hp.
  destruct prompts as [|p0 ps]; [simpl in HM; lia|].
  cbv beta iota. set (prompts := p0 :: ps) in *.
  eexists. split; [reflexivity|]. split.
  - unfold mapi. now rewrite mapiFrom_length.
  - intros i Hi.
    assert (Hmod : i mod length prompts < length prompts)
      by (apply Nat.mod_upper_bound; lia).
    destruct (nth_error (a0 :: atts') i) as [att|] eqn:Ea;
      [|apply nth_error_None in Ea; cbn [length] in *; lia].
    exists (nth (i mod length prompts) prompts p0), att.
    split; [now apply nth_error_nth'|]. split; [reflexivity|].
    unfold mapi. rewrite mapiFrom_nth_error, Ea. reflexivity.
Qed.

Lemma C4_witness :
  exists tasks,
    batchTasks image_multi_prompt 1 (lit "cat --- dog")
      [Scenario.img0; Scenario.img1; Scenario.img2] = inr tasks
    /\ length tasks = 3
    /\ forall i, i < 3 ->
         exists p att,
           nth_error [lit "cat"; lit "dog"] (i mod 2) = Some p
           /\ nth_error [Scenario.img0; Scenario.img1; Scenario.img2] i = Some att
           /\ nth_error tasks i = Some {| text := p; attachments := [att] |}.
Proof.
  apply (C4_prompts_reused_cyclically 1 (lit "cat --- dog")
           [Scenario.img0; Scenario.img1; Scenario.img2] (prompts := [lit "cat"; lit "dog"])).
  - reflexivity.
  - simpl. lia.
  - simpl. lia.
Defined.

(** C5: with N >= 1 images the fan-out mode builds N tasks, each with the
    prompt text and one image, the images of the tasks being the attached
    images, each once and in order; with no image [handleSend] shows an
    error notification and builds no task. *)
Theorem C5_fan_out_one_task_per_image (count : Z) (text : jsstring)
    (atts : list Attachment) :
  (atts <> [] ->
   exists tasks,
     batchTasks multi_image count text atts = inr tasks
     /\ length tasks = length atts
     /\ Forall (fun t => ChatInterface.text t = text
                         /\ length (attachments t) = 1) tasks
     /\ concat (map attachments tasks) = atts) /\
  (exists msg, batchTasks multi_image count text [] = inl msg) /\
  (forall apiKey settings env w,
      truthy apiKey = true ->
      handleSend apiKey settings multi_image count env text [] w
      = emit (AddToast Text.multiImageNeedsImage error) w).
Proof.
  split; [|split].
  - intros Hne. unfold batchTasks.
    destruct atts as [|a atts']; [congruence|]. cbn [length Nat.eqb].
    eexists. split; [reflexivity|]. split; [now rewrite length_map|]. split.
    + apply Forall_forall. intros t Ht. apply in_map_iff in Ht as (x & <- & _).
      now split.
    + clear Hne. generalize (a :: atts'). intros l.
      induction l as [|x l IH]; simpl; [reflexivity|]. now rewrite IH.
  - eexists. reflexivity.
  - intros apiKey settings env w Hk. unfold handleSend. rewrite Hk. reflexivity.
Qed.

Lemma C5_witness :
  exists tasks,
    batchTasks multi_image 1 (lit "cat") [Scenario.img0; Scenario.img1] = inr tasks
    /\ length tasks = 2
    /\ Forall (fun t => ChatInterface.text t = lit "cat"
                        /\ length (attachments t) = 1) tasks
    /\ concat (map attachments tasks) = [Scenario.img0; Scenario.img1].
Proof.
  apply (proj1 (C5_fan_out_one_task_per_image 1 (lit "cat")
                  [Scenario.img0; Scenario.img1])).
  discriminate.
Defined.

End TaskFacts.

(* ===================================================================== *)
(** ** Runs of [executeSingleGeneration] *)
(* ===================================================================== *)

Module ExecFacts.

Import ChatInterface Run.

(** *** Rules for [run] *)

Lemma run_eval {A} (m : M A) w c w' (Q : Completion A -> World -> Prop) :
  m w = (c, w') -> Q c w' -> run m w Q.
Proof. unfold run. now intros ->. Qed.

Lemma run_inv {A} (m : M A) w (Q : Completion A -> World -> Prop) :
  run m w Q -> exists c w', m w = (c, w') /\ Q c w'.
Proof. unfold run. intros H. exists (fst (m w)), (snd (m w)). now destruct (m w). Qed.

Lemma run_bind {A B} (m : M A) (k : A -> M B) w (Q : Completion B -> World -> Prop) :
  run m w (fun c w' => match c with
                       | Normal a => run (k a) w' Q
                       | Throw e => Q (Throw e) w'
                       end) ->
  run (bind m k) w Q.
Proof. unfold run, bind. now destruct (m w) as [[a|e] w']. Qed.

Lemma run_tryCatch {A} (body : M A) (h : Thrown -> M A) w
    (Q : Completion A -> World -> Prop) :
  run body w (fun c w' => match c with
                          | Normal a => Q (Normal a) w'
                          | Throw e => run (h e) w' Q
                          end) ->
  run (tryCatch body h) w Q.
Proof. unfold run, tryCatch. now destruct (body w) as [[a|e] w']. Qed.

Lemma run_tryCatchFinally {A} (body : M A) (h : Thrown -> M A) (fin : M unit) w
    (Q : Completion A -> World -> Prop) :
  run (tryCatch body h) w
    (fun c w1 => run fin w1 (fun cf w2 => match cf with
                                          | Normal _ => Q c w2
                                          | Throw e => Q (Throw e) w2
                                          end)) ->
  run (tryCatchFinally body h fin) w Q.
Proof.
  unfold run, tryCatchFinally.
  destruct (tryCatch body h w) as [c w1]. simpl.
  now destruct (fin w1) as [[[]|e] w2].
Qed.

Lemma run_mono {A} (m : M A) w (P Q : Completion A -> World -> Prop) :
  run m w P -> (forall c w', P c w' -> Q c w') -> run m w Q.
Proof. unfold run. auto. Qed.

(** *** Readings of a trace *)

Lemma updates_app a b : updates (a ++ b) = updates a ++ updates b.
Proof.
  induction a as [|e a IH]; simpl; [reflexivity|].
  destruct e; simpl; now rewrite ?IH.
Qed.

Lemma updates_map_history l : updates (map AddImageToHistory l) = [].
Proof. induction l as [|x l IH]; [reflexivity|exact IH]. Qed.

Lemma historyImages_app a b : historyImages (a ++ b) = historyImages a ++ historyImages b.
Proof.
  induction a as [|e a IH]; simpl; [reflexivity|].
  destruct e; simpl; now rewrite ?IH.
Qed.

Lemma historyImages_map l : historyImages (map AddImageToHistory l) = l.
Proof. induction l as [|x l IH]; simpl; [reflexivity|]. now rewrite IH. Qed.

Lemma invoked_app a b : invoked (a ++ b) = invoked a ++ invoked b.
Proof.
  induction a as [|e a IH]; simpl; [reflexivity|].
  destruct e; simpl; now rewrite ?IH.
Qed.

Lemma toasts_app lvl a b : toasts lvl (a ++ b) = toasts lvl a ++ toasts lvl b.
Proof.
  induction a as [|e a IH]; simpl; [reflexivity|].
  destruct e; simpl; try now rewrite ?IH.
  destruct lvl, level; simpl; now rewrite ?IH.
Qed.

Lemma requests_app a b : requests (a ++ b) = requests a ++ requests b.
Proof.
  induction a as [|e a IH]; simpl; [reflexivity|].
  destruct e; simpl; now rewrite ?IH.
Qed.

Lemma histories_app a b : histories (a ++ b) = histories a ++ histories b.
Proof.
  induction a as [|e a IH]; simpl; [reflexivity|].
  destruct e; simpl; now rewrite ?IH.
Qed.

Lemma loadings_app a b : loadings (a ++ b) = loadings a ++ loadings b.
Proof.
  induction a as [|e a IH]; simpl; [reflexivity|].
  destruct e; simpl; now rewrite ?IH.
Qed.

Lemma pauses_app a b : pauses (a ++ b) = pauses a ++ pauses b.
Proof.
  induction a as [|e a IH]; simpl; [reflexivity|].
  destruct e; simpl; now rewrite ?IH.
Qed.

Lemma forallb_imp {X} (p q : X -> bool) l :
  (forall x, p x = true -> q x = true) -> forallb p l = true -> forallb q l = true.
Proof. intros H. rewrite !forallb_forall. auto. Qed.

Lemma partialUpdate_storeOnly e : partialUpdate e = true -> storeOnly e = true.
Proof. now destruct e. Qed.

Lemma partialUpdate_silent e : partialUpdate e = true -> silent e = true.
Proof. now destruct e. Qed.

Lemma storeOnly_quiet e : storeOnly e = true -> quiet e = true.
Proof. now destruct e. Qed.

Lemma storeOnly_silent e : storeOnly e = true -> silent e = true.
Proof. now destruct e. Qed.

Lemma partialUpdate_historyImages l :
  forallb partialUpdate l = true -> historyImages l = [].
Proof.
  induction l as [|e l IH]; simpl; [reflexivity|].
  intros H. apply andb_prop in H as [He Hl]. destruct e; try discriminate; auto.
Qed.

Lemma storeOnly_history l : forallb storeOnly (map AddImageToHistory l) = true.
Proof. induction l as [|x l IH]; [reflexivity|exact IH]. Qed.

Lemma quiet_invoked l : forallb quiet l = true -> invoked l = [].
Proof.
  induction l as [|e l IH]; simpl; [reflexivity|].
  intros H. apply andb_prop in H as [He Hl]. destruct e; try discriminate; auto.
Qed.

Lemma quiet_toasts lvl l : forallb quiet l = true -> toasts lvl l = [].
Proof.
  induction l as [|e l IH]; simpl; [reflexivity|].
  intros H. apply andb_prop in H as [He Hl]. destruct e; try discriminate; auto.
Qed.

Lemma quiet_pauses l : forallb quiet l = true -> pauses l = [].
Proof.
  induction l as [|e l IH]; simpl; [reflexivity|].
  intros H. apply andb_prop in H as [He Hl]. destruct e; try discriminate; auto.
Qed.

(** *** Lists written with [::] and [++] *)

Lemma peel_nil {X : Type} (t : list X) : t = [] ++ t.
Proof. reflexivity. Qed.

Lemma peel_cons {X : Type} (a : X) r m t : r = m ++ t -> a :: r = (a :: m) ++ t.
Proof. now intros ->. Qed.

Lemma peel_app {X : Type} (x r m t : list X) : r = m ++ t -> x ++ r = (x ++ m) ++ t.
Proof. intros ->. apply app_assoc. Qed.

(** Splitting a list written with [::] and [++] in front of a known tail. *)
Ltac peel :=
  lazymatch goal with
  | |- ?t = _ ++ ?t => apply peel_nil
  | |- _ :: _ = _ => eapply peel_cons; peel
  | |- _ ++ _ = _ => eapply peel_app; peel
  end.

Ltac flat := repeat rewrite <- app_assoc; cbn [app].

Ltac same_list :=
  repeat first [ rewrite <- app_assoc | progress cbn [app] ]; reflexivity.

Ltac find_event :=
  repeat first [ apply in_eq | apply in_cons | (apply in_or_app; right) ].

(** *** Rules that keep the transcript and the events exactly *)

Ltac world :=
  cbn [messages abortControllerRef batchProgress now invocations trace].

Lemma lastOf_last {X : Type} (l : list X) x : lastOf (l ++ [x]) = Some x.
Proof. unfold lastOf. now rewrite rev_unit. Qed.

Lemma run_updateLastMessage_last ps isErr d w before m
    (Q : Completion unit -> World -> Prop) :
  messages w = before ++ [m] ->
  Q (Normal tt)
    {| messages := before
                   ++ [{| msgId := msgId m; role := role m; parts := ps;
                          timestamp := timestamp m; isError := isErr;
                          thinkingDuration := d |}];
       abortControllerRef := abortControllerRef w;
       batchProgress := batchProgress w;
       now := now w;
       invocations := invocations w;
       trace := trace w ++ [UpdateLastMessage ps isErr d] |} ->
  run (updateLastMessage ps isErr d) w Q.
Proof.
  intros E H. unfold run, updateLastMessage, bind, emit, getMessages, putMessages.
  cbn [messages fst snd]. rewrite E, rev_unit, rev_involutive. exact H.
Qed.

Lemma run_collectImages settings text (ps : list Part) w
    (Q : Completion unit -> World -> Prop) :
  Q (Normal tt)
    {| messages := messages w;
       abortControllerRef := abortControllerRef w;
       batchProgress := batchProgress w;
       now := now w;
       invocations := invocations w;
       trace := trace w
                ++ map AddImageToHistory (historyEntries settings text (now w) ps) |} ->
  run (forOf (filter (fun p => match inlineData p with
                               | Some _ => negb (thought p)
                               | None => false
                               end) ps)
         (fun part =>
            match inlineData part with
            | Some d =>
                t <- dateNow ;;
                emit (AddImageToHistory
                        {| imgMimeType := inlineMimeType d;
                           imgData := inlineBytes d;
                           imgPrompt := if truthy text then text else Text.imagePrompt;
                           imgTimestamp := t;
                           imgModelName := modelName settings |})
            | None => ret tt
            end)) w Q.
Proof.
  unfold historyEntries.
  change (fun p : Part => match inlineData p with
                          | Some _ => negb (thought p)
                          | None => false
                          end) with isFinalImage.
  generalize (filter isFinalImage ps). intros l. revert w.
  induction l as [|part l IH]; intros w H.
  - unfold run. cbn [forOf ret fst snd flat_map map] in *.
    rewrite app_nil_r in H. now destruct w.
  - cbn [forOf]. apply run_bind.
    destruct (inlineData part) as [d|] eqn:Ed.
    + apply run_bind. eapply run_eval; [reflexivity|]. world.
      eapply run_eval; [reflexivity|]. world.
      apply IH. world.
      cbn [flat_map] in H. rewrite Ed in H. cbn [app map] in H.
      rewrite <- app_assoc. exact H.
    + eapply run_eval; [reflexivity|]. apply IH.
      cbn [flat_map] in H. rewrite Ed in H. exact H.
Qed.

Lemma lastOf_cons {X : Type} (x : X) l :
  lastOf (x :: l) = match lastOf l with Some y => Some y | None => Some x end.
Proof.
  destruct l as [|y l] using rev_ind; [reflexivity|].
  change (x :: l ++ [y]) with ((x :: l) ++ [y]). now rewrite !lastOf_last.
Qed.

Lemma lastChunkParts_cons c cs none :
  lastChunkParts (c :: cs) none = lastChunkParts cs (snd c).
Proof. unfold lastChunkParts. rewrite lastOf_cons. now destruct (lastOf cs). Qed.

(** The loop over the chunks of a stream rewrites the last message and
    nothing else of the transcript; chunk by chunk it records one update
    without error flag. *)
Lemma run_chunks startTime before cs :
  forall isThinking d w m (Q : Completion (bool * Q) -> World -> Prop),
  messages w = before ++ [m] ->
  (forall st evs e dur,
     forallb partialUpdate evs = true ->
     e = match cs with [] => isError m | _ => false end ->
     (Forall (fun c => snd c <> []) cs ->
      updates evs = map (chunkUpdate startTime) (arrivals (now w) cs)
      /\ fst st = match lastOf cs with
                  | Some c => endsInThought (snd c)
                  | None => isThinking
                  end) ->
     Q (Normal st)
       {| messages := before
                      ++ [{| msgId := msgId m; role := role m;
                             parts := lastChunkParts cs (parts m);
                             timestamp := timestamp m; isError := e;
                             thinkingDuration := dur |}];
          abortControllerRef := abortControllerRef w;
          batchProgress := batchProgress w;
          now := streamEnd (now w) cs;
          invocations := invocations w;
          trace := trace w ++ evs |}) ->
  run (forAwaitChunks startTime cs isThinking d) w Q.
Proof.
  induction cs as [|[wait modelParts] cs IH]; intros isThinking d w m Q Hm HQ.
  - unfold run. cbn [forAwaitChunks ret fst snd].
    specialize (HQ (isThinking, d) [] (isError m) (thinkingDuration m)
                   eq_refl eq_refl (fun _ => conj eq_refl eq_refl)).
    destruct w, m. cbn in *. subst. now rewrite app_nil_r in HQ.
  - cbn [forAwaitChunks].
    apply run_bind. eapply run_eval; [reflexivity|]. world.
    apply run_bind. eapply run_eval; [reflexivity|]. world.
    set (st' := match lastOf modelParts with
                | Some p =>
                    if thought p then (true, secondsSince startTime (now w + wait))
                    else if isThinking then (false, d) else (isThinking, d)
                | None => (isThinking, d)
                end).
    destruct st' as [isThinking' duration'] eqn:Est.
    apply run_bind. eapply run_updateLastMessage_last; [world; exact Hm|]. world.
    eapply IH; [reflexivity|]. world. cbn [msgId role parts timestamp isError].
    intros st evs e dur Hok He Hex. rewrite <- app_assoc. cbn [app].
    rewrite <- lastChunkParts_cons with (c := (wait, modelParts)) (none := parts m).
    apply HQ.
    + cbn [forallb partialUpdate negb andb]. exact Hok.
    + subst e. now destruct cs.
    + intros Hne. inversion Hne as [|c0 cs0 Hc Hcs]; subst c0 cs0.
      destruct (Hex Hcs) as [Hu Hst]. cbn [snd] in Hc.
      assert (Hthink : isThinking' = endsInThought modelParts).
      { unfold endsInThought. subst st'.
        destruct (lastOf modelParts) as [p|] eqn:El.
        - destruct (thought p); [now inversion Est|].
          destruct isThinking; now inversion Est.
        - destruct modelParts as [|p0 ps0]; [congruence|].
          rewrite lastOf_cons in El. destruct (lastOf ps0); discriminate. }
      split.
      * cbn [updates arrivals map]. rewrite Hu. f_equal.
        unfold chunkUpdate. cbn [fst snd]. rewrite <- Hthink. f_equal.
        destruct isThinking'; [|reflexivity]. f_equal.
        subst st'. unfold endsInThought in Hthink.
        destruct (lastOf modelParts) as [p|]; [|discriminate].
        destruct (thought p); [now inversion Est|discriminate].
      * rewrite Hst, lastOf_cons. destruct (lastOf cs); [reflexivity|].
        cbn [snd]. exact Hthink.
Qed.

Ltac fields := cbn [msgId role parts timestamp isError thinkingDuration].

(** One statement of [executeSingleGeneration], with the transcript and
    the events kept exactly. *)
Ltac gen_step :=
  lazymatch goal with
  | |- run (bind _ _) _ _ => apply run_bind
  | |- run (tryCatchFinally _ _ _) _ _ => apply run_tryCatchFinally
  | |- run (tryCatch _ _) _ _ => apply run_tryCatch
  | |- run (updateLastMessage _ _ _) _ _ =>
      eapply run_updateLastMessage_last; [reflexivity|]; world; fields
  | |- run (forAwaitChunks _ _ _ _) _ _ =>
      eapply run_chunks; [reflexivity|intros ? ? ? ? ? ? ?]; world; fields;
      cbn [messages abortControllerRef batchProgress now invocations trace
           msgId role parts timestamp isError thinkingDuration] in *
  | |- run (forOf _ _) _ _ => apply run_collectImages; world
  | |- run (match lastOf (_ ++ [_]) with _ => _ end) _ _ =>
      rewrite lastOf_last; fields
  | |- run (if ?x then _ else _) _ _ => destruct x eqn:?
  | |- run (match ?x with _ => _ end) _ _ => destruct x eqn:?
  | |- run _ _ _ => eapply run_eval; [reflexivity|]; world
  end.

(** Running [executeSingleGeneration] past its uncaught statements, under
    what is known of the surroundings. *)
Ltac generation Hpf :=
  unfold executeSingleGeneration, addMessage, settle, handleStop;
  let post := fresh "post" in
  match goal with |- run _ _ ?P => set (post := P) end;
  do 3 gen_step; rewrite Hpf;
  repeat match goal with
         | H : settles _ = _ |- _ => rewrite H
         | H : userStops _ = _ |- _ => rewrite H
         | H : streamResponse _ = _ |- _ => rewrite H
         end;
  repeat gen_step;
  subst post; cbv beta zeta; world; fields.

Lemma to_result {A} (m : M A) w (P : World -> Prop) (a : A) :
  run m w (fun c w' => c = Normal a /\ P w') ->
  exists w', m w = (Normal a, w') /\ P w'.
Proof.
  intros R. apply run_inv in R. destruct R as (c & w' & E & -> & HP). eauto.
Qed.

(** Taking the common front off two lists. *)
Ltac strip :=
  repeat lazymatch goal with
         | |- ?a :: _ = ?a :: _ => apply (f_equal (cons a))
         | |- ?a ++ _ = ?a ++ _ => apply (f_equal (app a))
         end.

(** One call of [executeSingleGeneration]: how it completes, what it
    leaves of the controller and of the progress, the events it records and
    the two messages it adds to the transcript. *)
Lemma exec_run apiKey settings env text atts w :
  run (executeSingleGeneration apiKey settings env text atts) w (fun c w' =>
    invocations w' = S (invocations w)
    /\ batchProgress w' = batchProgress w
    /\ c = completion (env (invocations w))
    /\ (preFault (env (invocations w)) = None -> abortControllerRef w' = None)
    /\ (exists body,
          trace w' = trace w ++ Invoke text atts :: body
          /\ Generation apiKey settings (env (invocations w)) (messages w) (now w)
               text atts body)
    /\ match preFault (env (invocations w)) with
       | Some _ => messages w' = messages w
       | None =>
           exists reply,
             messages w' = messages w ++ [userMessage (now w) text atts; reply]
             /\ role reply = model
             /\ msgId reply = msgId (modelPlaceholder (now w))
       end).
Proof.
  destruct (preFault (env (invocations w))) as [v|] eqn:Hpf.
  - unfold executeSingleGeneration. apply run_bind.
    eapply run_eval; [reflexivity|]. world. apply run_bind. rewrite Hpf.
    eapply run_eval; [reflexivity|]. world.
    split; [reflexivity|]. split; [reflexivity|].
    split; [unfold completion; now rewrite Hpf|]. split; [discriminate|].
    split; [|reflexivity].
    exists []. split; [reflexivity|]. unfold Generation. now rewrite Hpf.
  - generation Hpf.
    all: split; [reflexivity|]; split; [reflexivity|].
    all: split; [unfold completion; rewrite Hpf;
                 repeat match goal with H : settles _ = _ |- _ => rewrite H end;
                 reflexivity|].
    all: split; [reflexivity|].
    all: split; [|eexists; split; [flat; reflexivity|split; reflexivity]].
    all: flat; eexists; split; [reflexivity|].
    all: unfold Generation; rewrite Hpf.
    all: repeat match goal with
         | H : settles _ = _ |- _ => rewrite H
         | H : userStops _ = _ |- _ => rewrite H
         | H : streamResponse _ = _ |- _ => rewrite H
         end.
    all: first [ match goal with
                 | H : forallb partialUpdate ?evs = true |- _ => exists evs
                 end
               | exists [] ].
    all: eexists; split;
         [cbn [app]; unfold userMessage, modelPlaceholder, userParts, imagesPayload;
          strip; peel|].
    all: split; [assumption || reflexivity|].
    all: split; [first [intro; discriminate | reflexivity]|].
    all: cbn [aborted] in *.
    all: try match goal with
         | H : orb _ _ = _ |- _ => rewrite H
         end.
    all: try reflexivity.
    all: split;
         [rewrite ?app_nil_r;
          repeat first [ rewrite forallb_app | rewrite storeOnly_history
                       | progress cbn [forallb storeOnly negb andb] ];
          reflexivity|].
    all: first [ intro; discriminate | intros _ ].
    all: repeat first [ rewrite updates_app | rewrite updates_map_history
                      | progress cbn [updates app] ].
    all: unfold secondsSince; rewrite ?Z.add_simpl_l; reflexivity.
Qed.

End ExecFacts.

(* ===================================================================== *)
(** ** Runs of the batch of [handleSend] *)
(* ===================================================================== *)

Module BatchFacts.

Import ChatInterface Run ExecFacts.

Lemma task_eta (t : Task) : {| text := text t; attachments := attachments t |} = t.
Proof. now destruct t. Qed.

(** *** The events of one generation *)

Ltac all_quiet :=
  repeat first [ rewrite forallb_app | progress cbn [forallb quiet andb] ];
  repeat match goal with H : forallb quiet _ = true |- _ => rewrite H end;
  reflexivity.

(** The events of a generation stay inside it: no call, no notification,
    no pause. *)
Lemma Generation_quiet apiKey settings b history t text atts body :
  Generation apiKey settings b history t text atts body -> forallb quiet body = true.
Proof.
  unfold Generation. destruct (preFault b); [intros ->; reflexivity|].
  intros (ups & rest & -> & Hups & _ & Hrest).
  apply (forallb_imp partialUpdate storeOnly _ partialUpdate_storeOnly) in Hups.
  apply (forallb_imp storeOnly quiet _ storeOnly_quiet) in Hups.
  assert (Hq : forallb quiet rest = true).
  { destruct (settles b) as [ps|[| |e]].
    - destruct Hrest as [Hs _].
      now apply (forallb_imp storeOnly quiet _ storeOnly_quiet).
    - now subst.
    - now subst.
    - subst. now destruct (strEq (errName e) Text.abortErrorName || userStops b). }
  destruct (userStops b); all_quiet.
Qed.

Lemma taskTail_invoked i len c : invoked (taskTail i len c) = [].
Proof.
  destruct c; unfold taskTail; [destruct (i <? len - 1); reflexivity|reflexivity].
Qed.

Lemma taskTail_toasts lvl i len c : toasts lvl (taskTail i len c) = [].
Proof.
  destruct c; unfold taskTail; [destruct (i <? len - 1); reflexivity|reflexivity].
Qed.

(** *** The events of the loop *)

Lemma BatchRun_invoked apiKey settings env len tasks :
  forall first i evs,
    BatchRun apiKey settings env first i len tasks evs -> invoked evs = tasks.
Proof.
  induction tasks as [|task rest IH]; intros first i evs; cbn [BatchRun].
  - now intros ->.
  - intros (history & t & body & more & -> & Hgen & Hrest).
    cbn [invoked]. rewrite !invoked_app, taskTail_invoked.
    rewrite (quiet_invoked _ (@Generation_quiet _ _ _ _ _ _ _ _ Hgen)), (IH _ _ _ Hrest), task_eta.
    reflexivity.
Qed.

Lemma BatchRun_toasts apiKey settings env len tasks lvl :
  forall first i evs,
    BatchRun apiKey settings env first i len tasks evs -> toasts lvl evs = [].
Proof.
  induction tasks as [|task rest IH]; intros first i evs; cbn [BatchRun].
  - now intros ->.
  - intros (history & t & body & more & -> & Hgen & Hrest).
    cbn [toasts]. rewrite !toasts_app, taskTail_toasts.
    rewrite (quiet_toasts lvl _ (@Generation_quiet _ _ _ _ _ _ _ _ Hgen)), (IH _ _ _ Hrest).
    reflexivity.
Qed.

Lemma taskTail_pauses i len c : Forall (fun ms => ms = 500%Z) (pauses (taskTail i len c)).
Proof.
  destruct c; unfold taskTail; [destruct (i <? len - 1)|]; cbn; repeat constructor.
Qed.

(** Every pause of the loop lasts 500 ms. *)
Lemma BatchRun_pauses apiKey settings env len tasks :
  forall first i evs,
    BatchRun apiKey settings env first i len tasks evs ->
    Forall (fun ms => ms = 500%Z) (pauses evs).
Proof.
  induction tasks as [|task rest IH]; intros first i evs; cbn [BatchRun].
  - intros ->. constructor.
  - intros (history & t & body & more & -> & Hgen & Hrest).
    cbn [pauses]. rewrite !pauses_app.
    rewrite (quiet_pauses _ (@Generation_quiet _ _ _ _ _ _ _ _ Hgen)).
    cbn [app]. apply Forall_app. split; [apply taskTail_pauses|exact (IH _ _ _ Hrest)].
Qed.

(** What follows a task in the events of the loop is the call of the next
    task, or nothing. *)
Lemma BatchRun_head apiKey settings env len tasks first i evs :
  BatchRun apiKey settings env first i len tasks evs ->
  evs = [] \/ exists t a evs', evs = Invoke t a :: evs'.
Proof.
  destruct tasks as [|task rest]; cbn [BatchRun]; [now left|].
  intros (history & t & body & more & -> & _). right. eauto.
Qed.

(** The events of the loop around task [j]: the events of the tasks before
    it, its call, the events of its generation and what the loop adds after
    it, and the events of the tasks after it. *)
Lemma BatchRun_nth apiKey settings env len tasks :
  forall first i evs j task,
    BatchRun apiKey settings env first i len tasks evs ->
    nth_error tasks j = Some task ->
    exists pre body post history t,
      evs = pre ++ Invoke (text task) (attachments task)
                   :: (body ++ taskTail (i + j) len (completion (env (first + j))))
                   ++ post
      /\ invoked pre = firstn j tasks
      /\ (forall lvl, toasts lvl pre = [])
      /\ Generation apiKey settings (env (first + j)) history t
           (text task) (attachments task) body
      /\ (post = [] \/ exists t' a post', post = Invoke t' a :: post')
      /\ invoked post = skipn (S j) tasks
      /\ (forall lvl, toasts lvl post = []).
Proof.
  induction tasks as [|task0 rest IH]; intros first i evs j task Hrun Hnth.
  - destruct j; discriminate.
  - cbn [BatchRun] in Hrun.
    destruct Hrun as (history & t & body & more & -> & Hgen & Hrest).
    destruct j as [|j]; cbn [nth_error] in Hnth.
    + inversion Hnth; subst task0.
      exists [], body, more, history, t. rewrite !Nat.add_0_r.
      split; [reflexivity|]. split; [reflexivity|]. split; [reflexivity|].
      split; [exact Hgen|]. split; [exact (@BatchRun_head _ _ _ _ _ _ _ _ Hrest)|].
      split; [exact (@BatchRun_invoked _ _ _ _ _ _ _ _ Hrest)|].
      intros lvl. exact (@BatchRun_toasts _ _ _ _ _ lvl _ _ _ Hrest).
    + destruct (IH _ _ _ _ _ Hrest Hnth)
        as (pre & body' & post & history' & t' & -> & Hpre & Htpre & Hgen' & Hpost).
      exists (Invoke (text task0) (attachments task0)
              :: (body ++ taskTail i len (completion (env first))) ++ pre),
             body', post, history', t'.
      replace (first + S j) with (S first + j) by lia.
      replace (i + S j) with (i + 1 + j) by lia.
      split; [same_list|]. split.
      * cbn [invoked firstn]. rewrite !invoked_app, taskTail_invoked, Hpre.
        rewrite (quiet_invoked _ (@Generation_quiet _ _ _ _ _ _ _ _ Hgen)), task_eta. reflexivity.
      * split; [|exact (conj Hgen' Hpost)].
        intros lvl. cbn [toasts]. rewrite !toasts_app, taskTail_toasts, Htpre.
        now rewrite (quiet_toasts lvl _ (@Generation_quiet _ _ _ _ _ _ _ _ Hgen)).
Qed.

(** The loop of [handleSend]: it never throws, and it calls
    [executeSingleGeneration] once for every task. *)
Lemma batchLoop_run apiKey settings env len rest :
  forall i w,
    run (batchLoop apiKey settings env len i rest) w (fun c w' =>
      c = Normal tt
      /\ invocations w' = invocations w + length rest
      /\ exists evs,
           trace w' = trace w ++ evs
           /\ BatchRun apiKey settings env (invocations w) i len rest evs).
Proof.
  induction rest as [|task rest IH]; intros i w; cbn [batchLoop].
  - eapply run_eval; [reflexivity|]. split; [reflexivity|].
    split; [cbn [length]; lia|]. exists []. split; [now rewrite app_nil_r|].
    reflexivity.
  - apply run_bind. eapply run_eval; [reflexivity|]. world.
    apply run_bind. apply run_tryCatch. apply run_bind.
    eapply run_mono; [apply exec_run|].
    intros c w1 (Hinv & _ & Hc & _ & (body & Htr & Hgen) & _).
    cbn [invocations trace messages now] in *.
    assert (Hnext : forall tail w2,
              invocations w2 = invocations w1 ->
              trace w2 = trace w1 ++ tail ->
              tail = taskTail i len c ->
              run (batchLoop apiKey settings env len (i + 1) rest) w2 (fun c' w' =>
                c' = Normal tt
                /\ invocations w' = invocations w + length (task :: rest)
                /\ exists evs,
                     trace w' = trace w ++ evs
                     /\ BatchRun apiKey settings env (invocations w) i len
                          (task :: rest) evs)).
    { intros tail w2 Hi2 Ht2 Htail.
      eapply run_mono; [apply IH|].
      intros c' w3 (-> & Hinv3 & evs & Htr3 & Hrun).
      split; [reflexivity|]. split; [cbn [length]; lia|].
      exists (Invoke (text task) (attachments task) :: (body ++ tail) ++ evs).
      split; [rewrite Htr3, Ht2, Htr; same_list|].
      cbn [BatchRun]. exists (messages w), (now w), body, evs.
      rewrite Htail, Hc. split; [reflexivity|]. split; [exact Hgen|].
      rewrite Hi2, Hinv in Hrun. exact Hrun. }
    destruct c as [[]|v].
    + destruct (i <? len - 1) eqn:Hlast.
      * apply run_bind. eapply run_eval; [reflexivity|]. world.
        eapply run_eval; [reflexivity|]. world.
        apply Hnext with (tail := [Sleep 500]);
          [reflexivity|reflexivity|cbn [taskTail]; now rewrite Hlast].
      * eapply run_eval; [reflexivity|].
        apply Hnext with (tail := []);
          [reflexivity|now rewrite app_nil_r|cbn [taskTail]; now rewrite Hlast].
    + eapply run_eval; [reflexivity|]. world.
      apply Hnext with (tail := [ConsoleError (Text.taskFailed (i + 1)) v]);
        reflexivity.
Qed.

(** The batch of [handleSend] (lines 121 to 142): the start notification,
    the loop, then the progress reset, the batch mode switched off and the
    completion notification. *)
Lemma handleSend_batch apiKey settings batchMode batchCount env text atts tasks w :
  truthy apiKey = true ->
  batchMode <> off ->
  batchTasks batchMode batchCount text atts = inr tasks ->
  exists w' loopEvs,
    handleSend apiKey settings batchMode batchCount env text atts w = (Normal tt, w')
    /\ trace w' = trace w ++ AddToast (Text.batchStart (length tasks)) info
                   :: loopEvs
                   ++ [SetBatchMode off; AddToast (Text.batchDone (length tasks)) success]
    /\ BatchRun apiKey settings env (invocations w) 0 (length tasks) tasks loopEvs
    /\ batchProgress w' = {| current := 0; total := 0 |}.
Proof.
  intros Hkey Hmode Htasks.
  assert (R : run (runBatch apiKey settings env tasks) w (fun c w' =>
            c = Normal tt
            /\ (exists loopEvs,
                  trace w' = trace w ++ AddToast (Text.batchStart (length tasks)) info
                             :: loopEvs
                             ++ [SetBatchMode off;
                                 AddToast (Text.batchDone (length tasks)) success]
                  /\ BatchRun apiKey settings env (invocations w) 0 (length tasks)
                       tasks loopEvs)
            /\ batchProgress w' = {| current := 0; total := 0 |})).
  { unfold runBatch.
    apply run_bind. eapply run_eval; [reflexivity|]. world.
    apply run_bind. eapply run_eval; [reflexivity|]. world.
    apply run_bind. eapply run_mono; [apply batchLoop_run|].
    intros c w1 (-> & _ & evs & Htr & Hrun). cbn [invocations trace] in *.
    apply run_bind. eapply run_eval; [reflexivity|]. world.
    apply run_bind. eapply run_eval; [reflexivity|]. world.
    eapply run_eval; [reflexivity|]. world.
    split; [reflexivity|]. split; [|reflexivity].
    exists evs. split; [|exact Hrun].
    rewrite Htr. rewrite <- !app_assoc. reflexivity. }
  apply run_inv in R as (c & w' & E & -> & (loopEvs & Htr & Hrun) & Hprog).
  exists w', loopEvs.
  unfold handleSend. rewrite Hkey. cbn [negb].
  rewrite Htasks. destruct batchMode; [congruence| | |]; auto.
Qed.

(** *** The claims on the batch and on the generation *)

(** C6: in a batch, a task that fails is reported and does not end the
    batch.  [handleSend] returns normally; between the start notification
    and the end of the batch every task is called, in order; the events of
    task j (all that lies between its call and the call of the next task)
    report its failure: a value thrown ahead of the [try] block of
    [executeSingleGeneration] is logged by the loop and nothing else
    happens in the task; a rejected request is logged inside
    [executeSingleGeneration], with the error placeholder written, or, when
    it is an AbortError, logged as a stop; a request rejected with [null] or
    [undefined] makes the [catch] block throw a TypeError, which the loop
    logs.  After the events of the last task, and only there, the batch mode
    is switched off and the one completion notification is shown, whose text
    carries the number of tasks; the progress is left at 0 of 0. *)
Theorem C6_failed_task_does_not_stop_batch apiKey settings batchMode batchCount
    env text atts tasks w :
  truthy apiKey = true ->
  batchMode <> off ->
  batchTasks batchMode batchCount text atts = inr tasks ->
  exists w' evs,
    handleSend apiKey settings batchMode batchCount env text atts w = (Normal tt, w')
    /\ trace w'
       = trace w
         ++ [AddToast (Text.batchStart (length tasks)) info]
         ++ evs
         ++ [ SetBatchMode off;
              AddToast ([25209; 37327; 29983; 25104; 23436; 25104; 65281; 20849;
                         29983; 25104; 32]%N
                        ++ numberToString (length tasks)
                        ++ [32; 24352; 22270; 29255]%N) success ]
    /\ invoked evs = tasks
    /\ (forall lvl, toasts lvl evs = [])
    /\ (forall j task, nth_error tasks j = Some task ->
          exists pre mid post,
            evs = pre ++ Invoke (ChatInterface.text task) (attachments task)
                         :: mid ++ post
            /\ invoked pre = firstn j tasks
            /\ invoked mid = []
            /\ (post = [] \/ exists t a post', post = Invoke t a :: post')
            /\ invoked post = skipn (S j) tasks
            /\ (forall v, preFault (env (invocations w + j)) = Some v ->
                  mid = [ConsoleError ([25209; 37327; 20219; 21153; 32]%N
                                       ++ numberToString (j + 1)
                                       ++ [32; 22833; 36133; 58]%N) v])
            /\ (forall e, preFault (env (invocations w + j)) = None ->
                  settles (env (invocations w + j)) = inr (thrown e) ->
                  userStops (env (invocations w + j)) = false ->
                  strEq (errName e) Text.abortErrorName = false ->
                  exists before after,
                    mid = before
                          ++ [ ConsoleError Text.generationFailed (thrown e);
                               UpdateLastMessage
                                 [textPart (if truthy (errMessage e)
                                            then lit "Error: " ++ errMessage e
                                            else Text.errorDefault)] true None;
                               SetLoading false; FetchBalance ]
                          ++ after
                    /\ forallb silent before = true
                    /\ forallb silent after = true)
            /\ (forall e, preFault (env (invocations w + j)) = None ->
                  settles (env (invocations w + j)) = inr (thrown e) ->
                  strEq (errName e) Text.abortErrorName = true ->
                  In (ConsoleLog Text.userStopped) mid)
            /\ (forall v, preFault (env (invocations w + j)) = None ->
                  settles (env (invocations w + j)) = inr v ->
                  v = jsNull \/ v = jsUndefined ->
                  exists before e,
                    mid = before
                          ++ [ SetLoading false; FetchBalance;
                               ConsoleError (Text.taskFailed (j + 1)) (thrown e) ]
                    /\ errName e = lit "TypeError"))
    /\ batchProgress w' = {| current := 0; total := 0 |}
    /\ toasts success (AddToast (Text.batchStart (length tasks)) info :: evs) = [].
Proof.
  intros Hkey Hmode Htasks.
  destruct (@handleSend_batch apiKey settings batchMode batchCount env text atts tasks w
              Hkey Hmode Htasks)
    as (w' & loop & E & Htr & Hrun & Hprog).
  exists w', loop.
  split; [exact E|]. split; [rewrite Htr; same_list|].
  split; [exact (@BatchRun_invoked _ _ _ _ _ _ _ _ Hrun)|].
  split; [intros lvl; exact (@BatchRun_toasts _ _ _ _ _ lvl _ _ _ Hrun)|].
  split; [|split; [exact Hprog|]].
  2: { cbn [toasts]. exact (@BatchRun_toasts _ _ _ _ _ success _ _ _ Hrun). }
  intros j task Hnth.
  destruct (@BatchRun_nth _ _ _ _ _ _ _ _ _ _ Hrun Hnth)
    as (pre & body & post & history & t & -> & Hpre & _ & Hgen & Hhead & Hpost & _).
  cbn [Nat.add] in *.
  exists pre, (body ++ taskTail j (length tasks) (completion (env (invocations w + j)))),
         post.
  split; [reflexivity|]. split; [exact Hpre|].
  split.
  { rewrite invoked_app, taskTail_invoked.
    now rewrite (quiet_invoked _ (@Generation_quiet _ _ _ _ _ _ _ _ Hgen)). }
  split; [exact Hhead|]. split; [exact Hpost|].
  unfold Generation, completion in *.
  destruct (preFault (env (invocations w + j))) as [v0|].
  { subst body. split; [intros v Hv; inversion Hv; subst; reflexivity|].
    repeat split; intros; discriminate. }
  destruct Hgen as (ups & rest & -> & Hups & _ & Hrest).
  apply (forallb_imp partialUpdate silent _ partialUpdate_silent) in Hups.
  split; [intros v Hv; discriminate|].
  split; [|split].
  - intros e _ Hset Hstop Hname. rewrite Hset, Hstop, Hname in *. cbn [orb] in Hrest.
    subst rest.
    exists ([ SetLoading true;
              AddMessage (userMessage t (ChatInterface.text task) (attachments task));
              AddMessage (modelPlaceholder t);
              Request (streamResponse settings) apiKey history
                (ChatInterface.text task) (imagesPayload (attachments task)) settings ]
            ++ ups),
           (taskTail j (length tasks) (Normal tt)).
    split; [unfold errorText; same_list|].
    split; [|cbn [taskTail]; now destruct (j <? length tasks - 1)].
    rewrite forallb_app, Hups. reflexivity.
  - intros e _ Hset Hname. rewrite Hset, Hname in *. cbn [orb] in Hrest. subst rest.
    apply in_or_app. left. find_event.
  - intros v _ Hset Hv. rewrite Hset in *.
    destruct Hv as [-> | ->]; subst rest; cbn [taskTail].
    + exists ([ SetLoading true;
                AddMessage (userMessage t (ChatInterface.text task) (attachments task));
                AddMessage (modelPlaceholder t);
                Request (streamResponse settings) apiKey history
                  (ChatInterface.text task) (imagesPayload (attachments task))
                  settings ]
              ++ ups ++ (if userStops (env (invocations w + j)) then [Abort] else [])),
             (cannotRead (lit "null") (lit "name")).
      split; [same_list|reflexivity].
    + exists ([ SetLoading true;
                AddMessage (userMessage t (ChatInterface.text task) (attachments task));
                AddMessage (modelPlaceholder t);
                Request (streamResponse settings) apiKey history
                  (ChatInterface.text task) (imagesPayload (attachments task))
                  settings ]
              ++ ups ++ (if userStops (env (invocations w + j)) then [Abort] else [])),
             (cannotRead (lit "undefined") (lit "name")).
      split; [same_list|reflexivity].
Qed.

Lemma C6_witness :
  exists w' evs,
    handleSend (lit "key") plainSettings normal 4 failThree (lit "cat") [] world0
    = (Normal tt, w')
    /\ trace w'
       = trace world0
         ++ [AddToast (Text.batchStart (length fourTasks)) info]
         ++ evs
         ++ [ SetBatchMode off;
              AddToast ([25209; 37327; 29983; 25104; 23436; 25104; 65281; 20849;
                         29983; 25104; 32]%N
                        ++ numberToString (length fourTasks)
                        ++ [32; 24352; 22270; 29255]%N) success ]
    /\ invoked evs = fourTasks
    /\ (forall lvl, toasts lvl evs = [])
    /\ (forall j task, nth_error fourTasks j = Some task ->
          exists pre mid post,
            evs = pre ++ Invoke (ChatInterface.text task) (attachments task)
                         :: mid ++ post
            /\ invoked pre = firstn j fourTasks
            /\ invoked mid = []
            /\ (post = [] \/ exists t a post', post = Invoke t a :: post')
            /\ invoked post = skipn (S j) fourTasks
            /\ (forall v, preFault (failThree (invocations world0 + j)) = Some v ->
                  mid = [ConsoleError ([25209; 37327; 20219; 21153; 32]%N
                                       ++ numberToString (j + 1)
                                       ++ [32; 22833; 36133; 58]%N) v])
            /\ (forall e, preFault (failThree (invocations world0 + j)) = None ->
                  settles (failThree (invocations world0 + j)) = inr (thrown e) ->
                  userStops (failThree (invocations world0 + j)) = false ->
                  strEq (errName e) Text.abortErrorName = false ->
                  exists before after,
                    mid = before
                          ++ [ ConsoleError Text.generationFailed (thrown e);
                               UpdateLastMessage
                                 [textPart (if truthy (errMessage e)
                                            then lit "Error: " ++ errMessage e
                                            else Text.errorDefault)] true None;
                               SetLoading false; FetchBalance ]
                          ++ after
                    /\ forallb silent before = true
                    /\ forallb silent after = true)
            /\ (forall e, preFault (failThree (invocations world0 + j)) = None ->
                  settles (failThree (invocations world0 + j)) = inr (thrown e) ->
                  strEq (errName e) Text.abortErrorName = true ->
                  In (ConsoleLog Text.userStopped) mid)
            /\ (forall v, preFault (failThree (invocations world0 + j)) = None ->
                  settles (failThree (invocations world0 + j)) = inr v ->
                  v = jsNull \/ v = jsUndefined ->
                  exists before e,
                    mid = before
                          ++ [ SetLoading false; FetchBalance;
                               ConsoleError (Text.taskFailed (j + 1)) (thrown e) ]
                    /\ errName e = lit "TypeError"))
    /\ batchProgress w' = {| current := 0; total := 0 |}
    /\ toasts success (AddToast (Text.batchStart (length fourTasks)) info :: evs) = [].
Proof.
  apply (@C6_failed_task_does_not_stop_batch (lit "key") plainSettings
           normal 4 failThree (lit "cat") [] fourTasks world0).
  - reflexivity.
  - discriminate.
  - reflexivity.
Defined.

(** In the batch of four whose first request fails, whose second call
    throws and whose third request rejects with [null], the three failures
    reach the console, all four tasks are called, and the completion
    notification, which reads "... 4 ...", is the last event. *)
Example failures_are_logged :
  let tr := trace (snd (handleSend (lit "key") plainSettings normal 4 failThree
                          (lit "cat") [] world0)) in
  In (ConsoleError Text.generationFailed
        (thrown {| errName := lit "Error"; errMessage := lit "503" |})) tr
  /\ In (ConsoleError (Text.taskFailed 2)
           (thrown {| errName := lit "Error"; errMessage := lit "quota" |})) tr
  /\ In (ConsoleError (Text.taskFailed 3)
           (thrown (cannotRead (lit "null") (lit "name")))) tr
  /\ length (invoked tr) = 4
  /\ lastOf tr
     = Some (AddToast ([25209; 37327; 29983; 25104; 23436; 25104; 65281; 20849;
                        29983; 25104; 32; 52; 32; 24352; 22270; 29255]%N) success).
Proof.
  vm_compute. split; [|split; [|split; [|split; reflexivity]]];
    repeat first [ left; reflexivity | right ].
Qed.

(** C1 (as the code has it): when the user stops task i of a batch while
    its request is pending, the request is aborted: in the events of task i
    (all that lies between its call and the call of the next task) the
    abort follows the request of the task, with nothing but updates of
    streamed chunks in between.  If the request then rejects (with a value
    other than [null] and [undefined]), no error is surfaced for the task:
    after the abort it only logs the stop, switches loading off, refreshes
    the balance and, unless it is the last task, pauses.  The batch itself
    goes on: the tasks after i are all called, in order, and after the last
    of them the batch mode is switched off and the completion notification
    is shown, the only notification after the start of the batch. *)
Theorem C1_stop_aborts_request_batch_goes_on apiKey settings batchMode batchCount
    env text atts tasks w i task :
  truthy apiKey = true ->
  batchMode <> off ->
  batchTasks batchMode batchCount text atts = inr tasks ->
  nth_error tasks i = Some task ->
  preFault (env (invocations w + i)) = None ->
  userStops (env (invocations w + i)) = true ->
  exists w' pre mid post u p history ups,
    handleSend apiKey settings batchMode batchCount env text atts w = (Normal tt, w')
    /\ trace w'
       = trace w
         ++ [AddToast (Text.batchStart (length tasks)) info]
         ++ pre
         ++ Invoke (ChatInterface.text task) (attachments task) :: mid
         ++ post
         ++ [ SetBatchMode off;
              AddToast ([25209; 37327; 29983; 25104; 23436; 25104; 65281; 20849;
                         29983; 25104; 32]%N
                        ++ numberToString (length tasks)
                        ++ [32; 24352; 22270; 29255]%N) success ]
    /\ invoked pre = firstn i tasks
    /\ (forall lvl, toasts lvl pre = [])
    /\ invoked mid = []
    /\ (forall lvl, toasts lvl mid = [])
    /\ (post = [] \/ exists t a post', post = Invoke t a :: post')
    /\ invoked post = skipn (S i) tasks
    /\ (forall lvl, toasts lvl post = [])
    /\ role u = user
    /\ role p = model
    /\ forallb partialUpdate ups = true
    /\ (exists after,
          mid = [ SetLoading true; AddMessage u; AddMessage p;
                  Request (streamResponse settings) apiKey history
                    (ChatInterface.text task)
                    (map (fun a => {| payloadData := base64Data a;
                                      payloadMime := mimeType a |})
                       (attachments task))
                    settings ]
                ++ ups ++ Abort :: after)
    /\ (forall e, settles (env (invocations w + i)) = inr (thrown e) ->
          mid = [ SetLoading true; AddMessage u; AddMessage p;
                  Request (streamResponse settings) apiKey history
                    (ChatInterface.text task)
                    (map (fun a => {| payloadData := base64Data a;
                                      payloadMime := mimeType a |})
                       (attachments task))
                    settings ]
                ++ ups
                ++ [Abort; ConsoleLog Text.userStopped; SetLoading false; FetchBalance]
                ++ (if i <? length tasks - 1 then [Sleep 500] else [])
          /\ forallb silent mid = true).
Proof.
  intros Hkey Hmode Htasks Hnth Hpf Hstop.
  destruct (@handleSend_batch apiKey settings batchMode batchCount env text atts tasks w
              Hkey Hmode Htasks)
    as (w' & loop & E & Htr & Hrun & Hprog).
  destruct (@BatchRun_nth _ _ _ _ _ _ _ _ _ _ Hrun Hnth)
    as (pre & body & post & history & t & -> & Hpre & Htpre & Hgen & Hhead
        & Hpost & Htpost).
  cbn [Nat.add] in *.
  pose proof (@Generation_quiet _ _ _ _ _ _ _ _ Hgen) as Hq.
  unfold Generation in Hgen. rewrite Hpf, Hstop in Hgen.
  destruct Hgen as (ups & rest & Hbody & Hups & _ & Hrest).
  exists w', pre,
         (body ++ taskTail i (length tasks) (completion (env (invocations w + i)))),
         post,
         (userMessage t (ChatInterface.text task) (attachments task)),
         (modelPlaceholder t), history, ups.
  split; [exact E|]. split; [rewrite Htr; same_list|].
  split; [exact Hpre|]. split; [exact Htpre|].
  split; [rewrite invoked_app, taskTail_invoked; now rewrite (quiet_invoked _ Hq)|].
  split; [intros lvl; rewrite toasts_app, taskTail_toasts;
          now rewrite (quiet_toasts lvl _ Hq)|].
  split; [exact Hhead|]. split; [exact Hpost|]. split; [exact Htpost|].
  split; [reflexivity|]. split; [reflexivity|]. split; [exact Hups|].
  split.
  - exists (rest ++ [SetLoading false; FetchBalance]
            ++ taskTail i (length tasks) (completion (env (invocations w + i)))).
    rewrite Hbody. unfold imagesPayload. same_list.
  - intros e Hset. unfold completion. rewrite Hpf, Hset in *.
    rewrite orb_true_r in Hrest. subst rest body. cbn [taskTail].
    split; [unfold imagesPayload; same_list|].
    apply (forallb_imp partialUpdate silent _ partialUpdate_silent) in Hups.
    repeat first [ rewrite forallb_app | progress cbn [forallb silent negb andb] ].
    rewrite Hups. now destruct (i <? length tasks - 1).
Qed.

Lemma C1_witness :
  exists w' pre mid post u p history ups,
    handleSend (lit "key") plainSettings normal 4 stopSecond (lit "cat") [] world0
    = (Normal tt, w')
    /\ trace w'
       = trace world0
         ++ [AddToast (Text.batchStart (length fourTasks)) info]
         ++ pre
         ++ Invoke (lit "cat") [] :: mid
         ++ post
         ++ [ SetBatchMode off;
              AddToast ([25209; 37327; 29983; 25104; 23436; 25104; 65281; 20849;
                         29983; 25104; 32]%N
                        ++ numberToString (length fourTasks)
                        ++ [32; 24352; 22270; 29255]%N) success ]
    /\ invoked pre = firstn 1 fourTasks
    /\ (forall lvl, toasts lvl pre = [])
    /\ invoked mid = []
    /\ (forall lvl, toasts lvl mid = [])
    /\ (post = [] \/ exists t a post', post = Invoke t a :: post')
    /\ invoked post = skipn 2 fourTasks
    /\ (forall lvl, toasts lvl post = [])
    /\ role u = user
    /\ role p = model
    /\ forallb partialUpdate ups = true
    /\ (exists after,
          mid = [ SetLoading true; AddMessage u; AddMessage p;
                  Request false (lit "key") history (lit "cat") [] plainSettings ]
                ++ ups ++ Abort :: after)
    /\ (forall e, settles (stopSecond (invocations world0 + 1)) = inr (thrown e) ->
          mid = [ SetLoading true; AddMessage u; AddMessage p;
                  Request false (lit "key") history (lit "cat") [] plainSettings ]
                ++ ups
                ++ [Abort; ConsoleLog Text.userStopped; SetLoading false; FetchBalance]
                ++ (if 1 <? length fourTasks - 1 then [Sleep 500] else [])
          /\ forallb silent mid = true).
Proof.
  apply (@C1_stop_aborts_request_batch_goes_on (lit "key") plainSettings
           normal 4 stopSecond (lit "cat") [] fourTasks world0 1
           {| text := lit "cat"; attachments := [] |}).
  - reflexivity.
  - discriminate.
  - reflexivity.
  - reflexivity.
  - reflexivity.
  - reflexivity.
Defined.

(** C1 as stated fails: with four tasks and the second one stopped by the
    user, the request is aborted (event 16 of the trace), yet tasks 3 and 4
    are called after it and the completion notification is shown. *)
Lemma C1_counterexample :
  let tr := trace (snd (handleSend (lit "key") plainSettings normal 4 stopSecond
                          (lit "cat") [] world0)) in
  nth_error tr 16 = Some Abort
  /\ invoked (firstn 16 tr) = firstn 2 fourTasks
  /\ invoked (skipn 17 tr) = skipn 2 fourTasks
  /\ invoked (skipn 17 tr) <> []
  /\ toasts success (skipn 17 tr) = [Text.batchDone 4]
  /\ toasts success tr <> [].
Proof.
  vm_compute. repeat split; discriminate.
Qed.

(** A stopped request that rejects with [null] is out of reach of the
    [catch] block, which reads [error.name]: the TypeError it throws is
    logged by the loop as the failure of task 2, and the batch goes on. *)
Example stop_then_null_rejection_is_logged :
  let tr := trace (snd (handleSend (lit "key") plainSettings normal 4 stopSecondNull
                          (lit "cat") [] world0)) in
  In Abort tr
  /\ In (ConsoleError (Text.taskFailed 2)
           (thrown (cannotRead (lit "null") (lit "name")))) tr
  /\ length (invoked tr) = 4.
Proof.
  vm_compute. split; [|split; [|reflexivity]];
    repeat first [ left; reflexivity | right ].
Qed.

(** C8 (as the code has it): without streaming, a request that resolves
    updates the last message once, with the model parts; the thinking
    duration it records is the whole time the request took (its
    milliseconds over 1000) whenever some part is a thought, be the result
    thought-only or not, and no duration at all when no part is a thought. *)
Theorem C8_duration_is_total_time_if_any_thought apiKey settings env text atts w
    modelParts :
  streamResponse settings = false ->
  preFault (env (invocations w)) = None ->
  settles (env (invocations w)) = inl modelParts ->
  exists w' evs,
    executeSingleGeneration apiKey settings env text atts w = (Normal tt, w')
    /\ trace w' = trace w ++ Invoke text atts :: evs
    /\ updates evs
       = [(modelParts, false,
           if existsb thought modelParts
           then Some (Qmake (latency (env (invocations w))) 1000)
           else None)].
Proof.
  intros Hs Hpf Hok.
  pose proof (@exec_run apiKey settings env text atts w) as R.
  apply run_inv in R as (c & w' & E & _ & _ & Hc & _ & (evs & Htr & Hgen) & _).
  unfold completion in Hc. rewrite Hpf, Hok in Hc. subst c.
  unfold Generation in Hgen. rewrite Hpf, Hok in Hgen.
  destruct Hgen as (ups & rest & -> & _ & Hups & _ & Hup).
  exists w'. eexists. split; [exact E|]. split; [exact Htr|].
  rewrite (Hups Hs).
  repeat first [ rewrite updates_app | progress cbn [updates app] ].
  rewrite (Hup Hs). now destruct (userStops (env (invocations w))).
Qed.

Lemma C8_witness :
  exists w' evs,
    executeSingleGeneration (lit "key") plainSettings (fun _ => succeeds)
      (lit "cat") [] world0 = (Normal tt, w')
    /\ trace w' = trace world0 ++ Invoke (lit "cat") [] :: evs
    /\ updates evs
       = [([thoughtPart (lit "plan"); imagePart (lit "image/png") (Some (lit "AAAA"))],
           false,
           if existsb thought
                [thoughtPart (lit "plan"); imagePart (lit "image/png") (Some (lit "AAAA"))]
           then Some (Qmake (latency succeeds) 1000)
           else None)].
Proof.
  apply (@C8_duration_is_total_time_if_any_thought (lit "key") plainSettings
           (fun _ => succeeds) (lit "cat") [] world0).
  - reflexivity.
  - reflexivity.
  - reflexivity.
Defined.

(** With streaming on, the duration follows the chunks: it is recorded
    while the last part of a chunk is a thought and left out once an answer
    part has arrived. *)
Example streaming_durations :
  updates (trace (snd (executeSingleGeneration (lit "key") streamSettings
                         (fun _ => thinksThenAnswers) (lit "cat") [] world0)))
  = [([thoughtPart (lit "plan")], false, Some (Qmake 100 1000));
     ([thoughtPart (lit "plan"); textPart (lit "done")], false, None)].
Proof. vm_compute. reflexivity. Qed.

(** C8 as stated fails: a result with a thought and an image is not
    thought-only, yet the duration recorded for it is the whole two seconds
    of the request; and a result without a thought records no duration. *)
Lemma C8_counterexample :
  forallb thought [thoughtPart (lit "plan"); imagePart (lit "image/png") (Some (lit "AAAA"))]
  = false
  /\ latency succeeds = 2000%Z
  /\ updates (trace (snd (executeSingleGeneration (lit "key") plainSettings
                            (fun _ => succeeds) (lit "cat") [] world0)))
     = [([thoughtPart (lit "plan"); imagePart (lit "image/png") (Some (lit "AAAA"))],
         false, Some (Qmake 2000 1000))]
  /\ updates (trace (snd (executeSingleGeneration (lit "key") plainSettings
                            (fun _ => answers) (lit "cat") [] world0)))
     = [([textPart (lit "done")], false, None)].
Proof.
  vm_compute. repeat split.
Qed.

End BatchFacts.

(* ===================================================================== *)
(** ** More on the pipeline form *)
(* ===================================================================== *)

Module PipelineMore.

Import PipelineModal PipelineFacts.

(** *** Lists *)

Lemma filteriFrom_remove {X : Type} (l : list X) :
  forall k index,
    k <= index ->
    filteriFrom (fun _ i => negb (i =? index)) k l
    = firstn (index - k) l ++ skipn (S (index - k)) l.
Proof.
  induction l as [|x l IH]; intros k index Hk; cbn [filteriFrom].
  - now rewrite firstn_nil, skipn_nil.
  - destruct (Nat.eqb_spec k index) as [->|Hne]; cbn [negb].
    + rewrite Nat.sub_diag. cbn [firstn skipn app].
      clear IH Hk. revert index. induction l as [|y l IH]; intros index;
        cbn [filteriFrom]; [reflexivity|].
      destruct (Nat.eqb_spec (S index) index) as [E|_]; [lia|].
      cbn [negb]. f_equal.
      specialize (IH index).
      assert (G : forall (m : list X) j, index < j ->
                    filteriFrom (fun _ i => negb (i =? index)) j m = m).
      { clear. induction m as [|z m IHm]; intros j Hj; cbn [filteriFrom];
          [reflexivity|].
        destruct (Nat.eqb_spec j index); [lia|]. cbn [negb]. f_equal.
        apply IHm. lia. }
      apply G. lia.
    + rewrite (IH (S k) index) by lia.
      replace (index - k) with (S (index - S k)) by lia.
      reflexivity.
Qed.

(** [arr.filter((_, i) => i !== index)] drops the element at [index]. *)
Lemma filteri_remove {X : Type} (index : nat) (l : list X) :
  filteri (fun _ i => negb (i =? index)) l = firstn index l ++ skipn (S index) l.
Proof.
  unfold filteri. rewrite filteriFrom_remove by lia. now rewrite Nat.sub_0_r.
Qed.

Lemma remove_outside {X : Type} (index : nat) (l : list X) :
  length l <= index -> firstn index l ++ skipn (S index) l = l.
Proof.
  intros H. rewrite firstn_all2 by exact H. rewrite skipn_all2 by lia.
  apply app_nil_r.
Qed.

Lemma remove_inside_length {X : Type} (index : nat) (l : list X) :
  index < length l -> length (firstn index l ++ skipn (S index) l) = length l - 1.
Proof.
  intros H. rewrite length_app, length_firstn, length_skipn. lia.
Qed.

Lemma length_setAt {X : Type} (l : list X) : forall i x, length (setAt i x l) = length l.
Proof.
  induction l as [|y l IH]; intros [|i] x; cbn [setAt length]; auto.
Qed.

Lemma length_changeStep l : forall index field value,
  length (changeStep index field value l) = length l.
Proof.
  induction l as [|s l IH]; intros [|index] field value; cbn [changeStep];
    try reflexivity.
  - now destruct field.
  - cbn [length]. now rewrite IH.
Qed.

Lemma nth_error_changeStep_other l : forall index field value j,
  j <> index ->
  nth_error (changeStep index field value l) j = nth_error l j.
Proof.
  induction l as [|s l IH]; intros index field value j Hj.
  - now destruct index.
  - destruct index as [|index], j as [|j]; cbn [changeStep nth_error].
    + congruence.
    + now destruct field.
    + reflexivity.
    + apply IH. congruence.
Qed.

Lemma nth_error_changeStep_same l : forall index field value s,
  nth_error l index = Some s ->
  nth_error (changeStep index field value l) index
  = Some match field with
         | promptField =>
             {| id := id s; prompt := value; stepModelName := stepModelName s;
                status := status s |}
         | modelNameField =>
             {| id := id s; prompt := prompt s;
                stepModelName := if truthy value then Some value else None;
                status := status s |}
         end.
Proof.
  induction l as [|s0 l IH]; intros [|index] field value s H;
    cbn [changeStep nth_error] in *; try discriminate.
  - inversion H; subst. now destruct field.
  - now apply IH.
Qed.

Lemma firstn_firstn_app {X : Type} n (a b : list X) :
  firstn n (firstn n a ++ b) = firstn n (a ++ b).
Proof.
  revert a. induction n as [|n IH]; intros a; [reflexivity|].
  destruct a as [|x a]; cbn [firstn app]; [reflexivity|].
  now rewrite IH.
Qed.

(** *** [split] on a comma *)

Lemma splitOn_no_sep sep s :
  forallb (fun c => negb (c =? sep)%N) s = true ->
  forall cur, splitOn sep cur s = [rev cur ++ s].
Proof.
  induction s as [|c s IH]; intros H cur; cbn [splitOn].
  - now rewrite app_nil_r.
  - cbn [forallb] in H. apply andb_prop in H as [Hc Hs].
    apply negb_true_iff in Hc. rewrite Hc, IH by exact Hs.
    cbn [rev]. now rewrite <- app_assoc.
Qed.

Lemma splitOn_at_sep sep a rest :
  forallb (fun c => negb (c =? sep)%N) a = true ->
  forall cur, splitOn sep cur (a ++ sep :: rest) = (rev cur ++ a) :: splitOn sep [] rest.
Proof.
  induction a as [|c a IH]; intros H cur; cbn [app splitOn].
  - rewrite N.eqb_refl. now rewrite app_nil_r.
  - cbn [forallb] in H. apply andb_prop in H as [Hc Hs].
    apply negb_true_iff in Hc. rewrite Hc, IH by exact Hs.
    cbn [rev]. now rewrite <- app_assoc.
Qed.

(** *** The number of steps *)

Lemma filter_length_at_most {X : Type} (p : X -> bool) (l : list X) :
  length (filter p l) <= length l.
Proof.
  induction l as [|x l IH]; cbn [filter length]; [lia|].
  destruct (p x); cbn [length]; lia.
Qed.

Lemma builtin_template_size t :
  In t PIPELINE_TEMPLATES -> 1 <= length (templateSteps t) <= 5.
Proof.
  intros [<-|[<-|[<-|[]]]]; cbn [templateSteps length]; lia.
Qed.

Lemma handleMoveStep_length index direction st st' :
  handleMoveStep index direction st = Some st' ->
  length (steps st') = length (steps st) /\ attachments st' = attachments st
  /\ mode st' = mode st.
Proof.
  unfold handleMoveStep.
  destruct (match direction with
            | up => match index with 0 => None | S k => Some k end
            | down => Some (index + 1)
            end) as [targetIndex|]; [|discriminate].
  destruct (nth_error (steps st) targetIndex); [|discriminate].
  destruct (nth_error (steps st) index); [|discriminate].
  intros H. inversion H; subst; cbn [steps attachments mode].
  now rewrite !length_setAt.
Qed.

Lemma actForm_keeps_step_bound st a st' :
  (forall t, In t (templateOf a) -> In t PIPELINE_TEMPLATES) ->
  1 <= length (steps st) <= 5 ->
  actForm st a = Some st' ->
  1 <= length (steps st') <= 5.
Proof.
  intros Ht Hb H. destruct a as [a|index direction]; cbn [actForm] in H.
  - inversion H; subst st'; clear H.
    destruct a as [m|newId|index|index field value|files|index|stamp template|newId];
      cbn [act setMode processFiles removeAttachment handleApplyTemplate
           handleReset initial steps length].
    + exact Hb.
    + unfold handleAddStep. destruct (Nat.ltb_spec (length (steps st)) 5);
        cbn [steps]; [|exact Hb]. rewrite length_app. cbn [length]. lia.
    + unfold handleRemoveStep. destruct (Nat.ltb_spec 1 (length (steps st)));
        cbn [steps]; [|exact Hb].
      rewrite filteri_remove.
      destruct (Nat.lt_ge_cases index (length (steps st))) as [Hi|Hi].
      * rewrite remove_inside_length by exact Hi. lia.
      * rewrite remove_outside by exact Hi. exact Hb.
    + unfold handleStepChange. destruct (_ <? _); cbn [steps]; [|exact Hb].
      now rewrite length_changeStep.
    + exact Hb.
    + exact Hb.
    + unfold mapi. rewrite mapiFrom_length.
      apply builtin_template_size. apply Ht. now left.
    + lia.
  - apply handleMoveStep_length in H as (-> & _). exact Hb.
Qed.

(** From the mounted form, with the built-in templates, the form always
    holds between one and five steps, so [onExecute] receives between one
    and five steps. *)
Theorem steps_between_one_and_five (newId : jsstring) (actions : list FormAction)
    (st : State) :
  (forall a t, In a actions -> In t (templateOf a) -> In t PIPELINE_TEMPLATES) ->
  afterForm actions (initial newId) = Some st ->
  1 <= length (steps st) <= 5
  /\ forall m ss imgs, In (OnExecute m ss imgs) (handleExecute st) ->
                       1 <= length ss <= 5.
Proof.
  intros Ht Hrun.
  assert (Hb : 1 <= length (steps st) <= 5).
  { assert (G : forall acts st0,
               (forall a t, In a acts -> In t (templateOf a) -> In t PIPELINE_TEMPLATES) ->
               1 <= length (steps st0) <= 5 ->
               afterForm acts st0 = Some st -> 1 <= length (steps st) <= 5).
    { induction acts as [|a acts IH]; intros st0 Hts Hb0 H; cbn [afterForm] in H.
      - inversion H; subst. exact Hb0.
      - destruct (actForm st0 a) as [st1|] eqn:E; [|discriminate].
        apply (IH st1); auto.
        + intros a' t Ha'. apply Hts. now right.
        + apply (actForm_keeps_step_bound st0 a); auto.
          intros t. apply Hts. now left. }
    apply (G actions (initial newId)); auto. cbn. lia. }
  split; [exact Hb|].
  intros m ss imgs Hin. apply handleExecute_started in Hin as (Hne & _ & _ & -> & _).
  pose proof (filter_length_at_most hasPrompt (steps st)).
  destruct (filter hasPrompt (steps st)); [congruence|]. cbn [length] in *. lia.
Qed.

Lemma steps_between_one_and_five_witness :
  let actions :=
    [ Basic (ApplyTemplate (lit "17")
               (nth 2 PIPELINE_TEMPLATES (mkTemplate [] serial [])));
      MoveStep 1 up;
      Basic (AddStep (lit "n1"));
      Basic (AddStep (lit "n2"));
      Basic (RemoveStep 0) ] in
  match afterForm actions (initial (lit "s0")) with
  | Some st => 1 <= length (steps st) <= 5
  | None => False
  end.
Proof.
  intros actions.
  destruct (afterForm actions (initial (lit "s0"))) as [st|] eqn:E;
    [|vm_compute in E; discriminate].
  apply (proj1 (@steps_between_one_and_five (lit "s0") actions st
                  ltac:(intros a t Ha Ht;
                        repeat (destruct Ha as [<-|Ha];
                                [cbn in Ht; try contradiction|]);
                        try contradiction;
                        destruct Ht as [<-|[]]; cbn; tauto)
                  E)).
Defined.

(** *** The attachments *)

Lemma Forall_firstn_of {X : Type} (P : X -> Prop) n (l : list X) :
  Forall P l -> Forall P (firstn n l).
Proof.
  intros H. revert n. induction H as [|x l Hx Hl IH]; intros [|n];
    cbn [firstn]; constructor; auto.
Qed.

Lemma Forall_skipn_of {X : Type} (P : X -> Prop) n (l : list X) :
  Forall P l -> Forall P (skipn n l).
Proof.
  intros H. revert n. induction H as [|x l Hx Hl IH]; intros [|n];
    cbn [skipn]; auto.
Qed.

Lemma readFile_image f a :
  In a (readFile f) ->
  startsWith (mimeType a) Text.imagePrefix = true
  /\ mimeType a = fileType (file a)
  /\ fileDataURL (file a) = inl (preview a)
  /\ base64Data a = nth_error (split (preview a) Text.comma) 1.
Proof.
  unfold readFile.
  destruct (startsWith (fileType f) Text.imagePrefix) eqn:Et; [|intros []].
  destruct (fileDataURL f) as [url|e] eqn:Eu; [|intros []].
  intros [<-|[]]. cbn [mimeType file preview base64Data]. auto.
Qed.

(** The pieces of [s.split(sep)]: the first goes up to the first
    separator, and the split goes on behind it. *)
Lemma splitOn_cases sep s :
  forall cur,
    (forallb (fun c => negb (c =? sep)%N) s = true
     /\ splitOn sep cur s = [rev cur ++ s])
    \/ exists h t,
         s = h ++ sep :: t
         /\ forallb (fun c => negb (c =? sep)%N) h = true
         /\ splitOn sep cur s = (rev cur ++ h) :: splitOn sep [] t.
Proof.
  induction s as [|c s IH]; intros cur.
  - left. split; [reflexivity|]. cbn [splitOn]. now rewrite app_nil_r.
  - cbn [splitOn forallb]. destruct (c =? sep)%N eqn:Ec.
    + right. exists [], s. apply N.eqb_eq in Ec. subst c.
      split; [reflexivity|]. split; [reflexivity|]. now rewrite app_nil_r.
    + cbn [negb andb]. destruct (IH (c :: cur)) as [[Hs E]|(h & t & -> & Hh & E)].
      * left. split; [exact Hs|]. rewrite E. cbn [rev]. now rewrite <- app_assoc.
      * right. exists (c :: h), t. split; [reflexivity|].
        split; [cbn [forallb]; now rewrite Ec, Hh|].
        rewrite E. cbn [rev]. now rewrite <- app_assoc.
Qed.

(** [s.split(sep)[1]] is what lies between the first separator of [s] and
    the second, or the end of [s]; it is undefined when [s] holds no
    separator. *)
Lemma split_second s sep :
  match nth_error (split s sep) 1 with
  | Some d =>
      exists header rest,
        s = header ++ sep :: d ++ rest
        /\ forallb (fun c => negb (c =? sep)%N) header = true
        /\ forallb (fun c => negb (c =? sep)%N) d = true
        /\ (rest = [] \/ exists rest', rest = sep :: rest')
  | None => forallb (fun c => negb (c =? sep)%N) s = true
  end.
Proof.
  unfold split. destruct (splitOn_cases sep s []) as [[Hs ->]|(h & t & -> & Hh & ->)].
  - exact Hs.
  - cbn [nth_error].
    destruct (splitOn_cases sep t []) as [[Ht ->]|(h2 & t2 & -> & Hh2 & ->)];
      cbn [nth_error rev app].
    + exists h, []. rewrite app_nil_r. auto.
    + exists h, (sep :: t2). split; [reflexivity|]. split; [exact Hh|].
      split; [exact Hh2|]. right. eauto.
Qed.

Lemma attachments_read (newId : jsstring)
    (actions : list FormAction) (st : State) :
  afterForm actions (initial newId) = Some st ->
  Forall (fun a =>
            startsWith (mimeType a) Text.imagePrefix = true
            /\ mimeType a = fileType (file a)
            /\ fileDataURL (file a) = inl (preview a)
            /\ base64Data a = nth_error (split (preview a) Text.comma) 1)
    (attachments st).
Proof.
  set (P := fun a : Attachment =>
              startsWith (mimeType a) Text.imagePrefix = true
              /\ mimeType a = fileType (file a)
              /\ fileDataURL (file a) = inl (preview a)
              /\ base64Data a = nth_error (split (preview a) Text.comma) 1).
  assert (G : forall acts st0, Forall P (attachments st0) ->
                afterForm acts st0 = Some st -> Forall P (attachments st)).
  { induction acts as [|a acts IH]; intros st0 H0 H; cbn [afterForm] in H.
    - now inversion H; subst.
    - destruct (actForm st0 a) as [st1|] eqn:E; [|discriminate].
      apply (IH st1); [|exact H]. clear IH H.
      destruct a as [a|index direction]; cbn [actForm] in E.
      + inversion E; subst st1; clear E.
        destruct a as [m|nid|index|index field value|files|index|stamp template|nid];
          cbn [act setMode processFiles removeAttachment handleApplyTemplate
               handleReset initial attachments].
        * exact H0.
        * unfold handleAddStep. now destruct (_ <? _).
        * unfold handleRemoveStep. now destruct (_ <? _).
        * unfold handleStepChange. now destruct (_ <? _).
        * apply Forall_firstn_of. apply Forall_app. split; [exact H0|].
          apply Forall_forall. intros a Ha. apply in_flat_map in Ha as (f & _ & Ha).
          now apply (readFile_image f).
        * rewrite filteri_remove. apply Forall_app. split;
            [now apply Forall_firstn_of | now apply Forall_skipn_of].
        * exact H0.
        * constructor.
      + apply handleMoveStep_length in E as (_ & -> & _). exact H0. }
  intros H. apply (G actions (initial newId)); [constructor|exact H].
Qed.


(** Every attachment of the form was read from a file whose MIME type
    starts with "image/": it carries that type and the data URL of the file
    as its preview.  Its [base64Data] is the second piece of the URL split
    at commas: what lies between the first comma of the URL and the second,
    or the end of the URL when there is no second comma; for an URL without
    a comma it is undefined. *)
Theorem attachments_come_from_image_files (newId : jsstring)
    (actions : list FormAction) (st : State) :
  afterForm actions (initial newId) = Some st ->
  Forall (fun a =>
            startsWith (mimeType a) Text.imagePrefix = true
            /\ mimeType a = fileType (file a)
            /\ fileDataURL (file a) = inl (preview a)
            /\ match base64Data a with
               | Some payload =>
                   exists header rest,
                     preview a = header ++ Text.comma :: payload ++ rest
                     /\ forallb (fun c => negb (c =? Text.comma)%N) header = true
                     /\ forallb (fun c => negb (c =? Text.comma)%N) payload = true
                     /\ (rest = [] \/ exists rest', rest = Text.comma :: rest')
               | None =>
                   forallb (fun c => negb (c =? Text.comma)%N) (preview a) = true
               end)
    (attachments st).
Proof.
  intros H. eapply Forall_impl; [|exact (attachments_read _ _ H)].
  intros a (H1 & H2 & H3 & H4).
  split; [exact H1|]. split; [exact H2|]. split; [exact H3|].
  rewrite H4. apply split_second.
Qed.

Lemma attachments_come_from_image_files_witness :
  Forall (fun a =>
            startsWith (mimeType a) Text.imagePrefix = true
            /\ mimeType a = fileType (file a)
            /\ fileDataURL (file a) = inl (preview a)
            /\ match base64Data a with
               | Some payload =>
                   exists header rest,
                     preview a = header ++ Text.comma :: payload ++ rest
                     /\ forallb (fun c => negb (c =? Text.comma)%N) header = true
                     /\ forallb (fun c => negb (c =? Text.comma)%N) payload = true
                     /\ (rest = [] \/ exists rest', rest = Text.comma :: rest')
               | None =>
                   forallb (fun c => negb (c =? Text.comma)%N) (preview a) = true
               end)
    (attachments Scenario.form).
Proof.
  apply (@attachments_come_from_image_files (lit "s0")
           (map Basic Scenario.formActions) Scenario.form).
  vm_compute. reflexivity.
Defined.

(** A data URL with two commas: [base64Data] stops at the second. *)
Example base64Data_stops_at_second_comma :
  map base64Data
    (readFile {| fileName := lit "a.png"; fileType := lit "image/png";
                 fileDataURL := inl (lit "data:image/png;x=1,AA,BB") |})
  = [Some (lit "AA")].
Proof. vm_compute. reflexivity. Qed.

(** The form after rounds of [processFiles] that overlap: whatever the
    order in which the rounds start and their reads end, the form holds the
    first 14 of the attachments it had, followed by those of the rounds in
    the order in which their reads ended.  So two rounds that run one after
    the other, or that overlap and end in the order in which they started,
    leave the form that one round with the files of both gives; when the
    second round ends first, its attachments come first. *)
Theorem processFiles_rounds_land_as_they_end (events : list RoundEvent)
    (files1 files2 : list File) (st : State) :
  (let r := fold_left roundStep events (startRounds st) in
   attachments (formNow r)
   = match landed r with
     | [] => attachments st
     | _ :: _ => firstn 14 (attachments st ++ concat (landed r))
     end
   /\ steps (formNow r) = steps st
   /\ mode (formNow r) = mode st)
  /\ formNow (fold_left roundStep [FilesSelected files1; ReadsEnd 0]
                (startRounds st))
     = processFiles files1 st
  /\ formNow (fold_left roundStep
                [FilesSelected files1; ReadsEnd 0; FilesSelected files2; ReadsEnd 0]
                (startRounds st))
     = processFiles (files1 ++ files2) st
  /\ formNow (fold_left roundStep
                [FilesSelected files1; FilesSelected files2; ReadsEnd 0; ReadsEnd 0]
                (startRounds st))
     = processFiles (files1 ++ files2) st
  /\ formNow (fold_left roundStep
                [FilesSelected files1; FilesSelected files2; ReadsEnd 1; ReadsEnd 0]
                (startRounds st))
     = processFiles (files2 ++ files1) st.
Proof.
  assert (two : forall f g, landRound (flat_map readFile g)
                              (landRound (flat_map readFile f) st)
                            = processFiles (f ++ g) st).
  { intros f g. unfold landRound, processFiles. cbn [mode steps attachments].
    f_equal. rewrite flat_map_app, firstn_firstn_app. now rewrite app_assoc. }
  split; [|split; [reflexivity|]; repeat split; cbn; apply two].
  cbv zeta.
  assert (G : forall evs r0,
            (attachments (formNow r0)
             = match landed r0 with
               | [] => attachments st
               | _ :: _ => firstn 14 (attachments st ++ concat (landed r0))
               end
             /\ steps (formNow r0) = steps st /\ mode (formNow r0) = mode st) ->
            attachments (formNow (fold_left roundStep evs r0))
            = match landed (fold_left roundStep evs r0) with
              | [] => attachments st
              | _ :: _ =>
                  firstn 14 (attachments st
                             ++ concat (landed (fold_left roundStep evs r0)))
              end
            /\ steps (formNow (fold_left roundStep evs r0)) = steps st
            /\ mode (formNow (fold_left roundStep evs r0)) = mode st).
  { induction evs as [|e evs IH]; intros r0 H0; cbn [fold_left]; [exact H0|].
    apply IH. destruct e as [files|k]; cbn [roundStep].
    - exact H0.
    - destruct (nth_error (inFlight r0) k) as [new|]; [|exact H0].
      cbn [formNow landed landRound attachments steps mode].
      destruct H0 as (Ha & Hs & Hm). split; [|auto].
      rewrite Ha. destruct (landed r0) as [|l ls].
      + cbn [app concat]. now rewrite app_nil_r.
      + rewrite firstn_firstn_app. change ((l :: ls) ++ [new]) with (l :: ls ++ [new]).
        cbn [concat]. rewrite concat_app. cbn [concat].
        rewrite app_nil_r, <- !app_assoc. reflexivity. }
  apply G. cbn. auto.
Qed.

(** Two rounds that overlap, the second reading faster: its picture comes
    first. *)
Example later_round_lands_first :
  let a := {| fileName := lit "a.png"; fileType := lit "image/png";
              fileDataURL := inl (lit "data:image/png;base64,AA") |} in
  let b := {| fileName := lit "b.png"; fileType := lit "image/png";
              fileDataURL := inl (lit "data:image/png;base64,BB") |} in
  map fileName
    (map file
       (attachments
          (formNow
             (fold_left roundStep
                [FilesSelected [a]; FilesSelected [b]; ReadsEnd 1; ReadsEnd 0]
                (startRounds (initial (lit "s0")))))))
  = [lit "b.png"; lit "a.png"].
Proof. vm_compute. reflexivity. Qed.

(** Adding files keeps the attachments that are there, in their place, and
    appends as many of the new ones as fit under 14; a full form stays as it
    is. *)
Theorem processFiles_appends_what_fits (files : list File) (st : State) :
  length (attachments st) <= 14 ->
  attachments (processFiles files st)
  = attachments st
    ++ firstn (14 - length (attachments st)) (flat_map readFile files)
  /\ (length (attachments st) = 14 -> processFiles files st = st).
Proof.
  intros H.
  assert (E : attachments (processFiles files st)
              = attachments st
                ++ firstn (14 - length (attachments st)) (flat_map readFile files)).
  { unfold processFiles. cbn [attachments].
    rewrite firstn_app. now rewrite firstn_all2 by exact H. }
  split; [exact E|].
  intros H14. destruct st as [m ss atts]. unfold processFiles in *.
  cbn [attachments mode steps] in *. f_equal.
  rewrite E, H14, Nat.sub_diag. cbn [firstn]. apply app_nil_r.
Qed.

Lemma processFiles_appends_what_fits_witness :
  attachments (processFiles Scenario.sixteenFiles (initial (lit "s0")))
  = attachments (initial (lit "s0"))
    ++ firstn (14 - length (attachments (initial (lit "s0"))))
         (flat_map readFile Scenario.sixteenFiles).
Proof.
  apply (proj1 (@processFiles_appends_what_fits Scenario.sixteenFiles
                  (initial (lit "s0")) ltac:(cbn; lia))).
Defined.

(** A file whose type does not start with "image/", or whose read fails,
    adds nothing: a round of such files leaves the form as it is. *)
Theorem processFiles_skips_other_files (files : list File) (st : State) :
  length (attachments st) <= 14 ->
  (forall f, In f files ->
             startsWith (fileType f) Text.imagePrefix = false
             \/ exists e, fileDataURL f = inr e) ->
  processFiles files st = st.
Proof.
  intros H Hf.
  assert (E : flat_map readFile files = []).
  { induction files as [|f files IH]; [reflexivity|]. cbn [flat_map].
    rewrite IH by (intros g Hg; apply Hf; now right).
    destruct (Hf f (or_introl eq_refl)) as [Ht|[e He]]; unfold readFile.
    - now rewrite Ht.
    - rewrite He. now destruct (startsWith _ _). }
  destruct st as [m ss atts]. unfold processFiles. cbn [attachments mode steps] in *.
  rewrite E, app_nil_r. now rewrite firstn_all2 by exact H.
Qed.

Lemma processFiles_skips_other_files_witness :
  processFiles [ {| fileName := lit "notes.txt"; fileType := lit "text/plain";
                    fileDataURL := inl (lit "data:text/plain;base64,QQ==") |};
                 {| fileName := lit "broken.png"; fileType := lit "image/png";
                    fileDataURL := inr {| errName := lit "NotReadableError";
                                          errMessage := [] |} |} ]
    Scenario.form = Scenario.form.
Proof.
  apply processFiles_skips_other_files.
  - vm_compute. lia.
  - intros f [<-|[<-|[]]].
    + left. reflexivity.
    + right. eexists. reflexivity.
Defined.

(** An image file whose data URL is a header, a comma and a payload, none
    of the two holding a comma, becomes one attachment whose [base64Data] is
    the payload; a data URL without a comma still becomes an attachment,
    with no [base64Data]. *)
Theorem readFile_takes_payload_after_comma (f : File) (header payload : jsstring) :
  startsWith (fileType f) Text.imagePrefix = true ->
  forallb (fun c => negb (c =? Text.comma)%N) header = true ->
  forallb (fun c => negb (c =? Text.comma)%N) payload = true ->
  (fileDataURL f = inl (header ++ Text.comma :: payload) ->
   readFile f = [ {| file := f; preview := header ++ Text.comma :: payload;
                     base64Data := Some payload; mimeType := fileType f |} ])
  /\ (fileDataURL f = inl header ->
      readFile f = [ {| file := f; preview := header;
                        base64Data := None; mimeType := fileType f |} ]).
Proof.
  intros Ht Hh Hp. unfold readFile. rewrite Ht. split; intros ->.
  - unfold split. rewrite splitOn_at_sep by exact Hh.
    rewrite splitOn_no_sep by exact Hp. reflexivity.
  - unfold split. rewrite splitOn_no_sep by exact Hh. reflexivity.
Qed.

Lemma readFile_takes_payload_after_comma_witness :
  readFile (Scenario.pngFile (lit "a.png") (lit "AAAA"))
  = [ {| file := Scenario.pngFile (lit "a.png") (lit "AAAA");
         preview := lit "data:image/png;base64" ++ Text.comma :: lit "AAAA";
         base64Data := Some (lit "AAAA");
         mimeType := fileType (Scenario.pngFile (lit "a.png") (lit "AAAA")) |} ].
Proof.
  apply (proj1 (@readFile_takes_payload_after_comma
                  (Scenario.pngFile (lit "a.png") (lit "AAAA"))
                  (lit "data:image/png;base64") (lit "AAAA")
                  eq_refl eq_refl eq_refl)).
  reflexivity.
Defined.

(** [removeAttachment] takes out the attachment at [index] and nothing
    else; with [index] past the end the form stays as it is. *)
Theorem removeAttachment_removes_one (index : nat) (st : State) :
  (index < length (attachments st) ->
   attachments (removeAttachment index st)
   = firstn index (attachments st) ++ skipn (S index) (attachments st)
   /\ length (attachments (removeAttachment index st)) = length (attachments st) - 1)
  /\ (length (attachments st) <= index -> removeAttachment index st = st)
  /\ steps (removeAttachment index st) = steps st
  /\ mode (removeAttachment index st) = mode st.
Proof.
  unfold removeAttachment. cbn [attachments steps mode]. rewrite filteri_remove.
  split; [|split; [|split; reflexivity]].
  - intros H. split; [reflexivity|]. now apply remove_inside_length.
  - intros H. rewrite remove_outside by exact H. now destruct st.
Qed.

Lemma removeAttachment_removes_one_witness :
  attachments (removeAttachment 1 Scenario.form)
  = firstn 1 (attachments Scenario.form) ++ skipn 2 (attachments Scenario.form)
  /\ length (attachments (removeAttachment 1 Scenario.form))
     = length (attachments Scenario.form) - 1.
Proof.
  apply (proj1 (removeAttachment_removes_one 1 Scenario.form)).
  vm_compute. lia.
Defined.

(** *** The steps *)

(** [handleRemoveStep] never removes the only step; with two steps or more
    it takes out the step at [index] and nothing else, and with [index]
    past the end it leaves the form as it is. *)
Theorem handleRemoveStep_keeps_one_step (index : nat) (st : State) :
  (length (steps st) <= 1 -> handleRemoveStep index st = st)
  /\ (1 < length (steps st) -> index < length (steps st) ->
      steps (handleRemoveStep index st)
      = firstn index (steps st) ++ skipn (S index) (steps st)
      /\ length (steps (handleRemoveStep index st)) = length (steps st) - 1)
  /\ (length (steps st) <= index -> handleRemoveStep index st = st)
  /\ attachments (handleRemoveStep index st) = attachments st.
Proof.
  unfold handleRemoveStep.
  destruct (Nat.ltb_spec 1 (length (steps st))) as [Hlen|Hlen];
    cbn [steps attachments]; rewrite ?filteri_remove.
  - split; [lia|]. split; [|split; [|reflexivity]].
    + intros _ Hi. split; [reflexivity|]. now apply remove_inside_length.
    + intros Hi. rewrite remove_outside by exact Hi. now destruct st.
  - split; [reflexivity|]. split; [lia|]. split; reflexivity.
Qed.

Lemma handleRemoveStep_keeps_one_step_witness :
  handleRemoveStep 0 (initial (lit "s0")) = initial (lit "s0").
Proof.
  apply (proj1 (handleRemoveStep_keeps_one_step 0 (initial (lit "s0")))).
  cbn. lia.
Defined.

(** [handleStepChange] on a step of the form writes the prompt (or the
    model override, which an empty value clears) of that step and leaves its
    id and status, the other steps, their number and the attachments as they
    are; with [index] past the end it changes nothing. *)
Theorem handleStepChange_writes_one_step (index : nat) (field : StepField)
    (value : jsstring) (st : State) :
  (forall s, nth_error (steps st) index = Some s ->
     nth_error (steps (handleStepChange index field value st)) index
     = Some match field with
            | promptField =>
                {| id := id s; prompt := value; stepModelName := stepModelName s;
                   status := status s |}
            | modelNameField =>
                {| id := id s; prompt := prompt s;
                   stepModelName := match value with [] => None | _ => Some value end;
                   status := status s |}
            end)
  /\ (forall j, j <> index ->
        nth_error (steps (handleStepChange index field value st)) j
        = nth_error (steps st) j)
  /\ length (steps (handleStepChange index field value st)) = length (steps st)
  /\ attachments (handleStepChange index field value st) = attachments st
  /\ (length (steps st) <= index -> handleStepChange index field value st = st).
Proof.
  unfold handleStepChange.
  destruct (Nat.ltb_spec index (length (steps st))) as [Hi|Hi];
    cbn [steps attachments].
  - split; [|split; [|split; [|split]]].
    + intros s Hs. rewrite (nth_error_changeStep_same _ _ field value Hs).
      destruct field; [reflexivity|]. now destruct value.
    + intros j Hj. now apply nth_error_changeStep_other.
    + apply length_changeStep.
    + reflexivity.
    + lia.
  - split; [|split; [|split; [|split]]]; try reflexivity.
    intros s Hs. assert (index < length (steps st)) by (apply nth_error_Some; congruence). lia.
Qed.

Lemma handleStepChange_writes_one_step_witness :
  nth_error (steps (handleStepChange 0 promptField (lit "to anime")
                      (initial (lit "s0")))) 0
  = Some {| id := lit "s0"; prompt := lit "to anime"; stepModelName := None;
            status := pending |}.
Proof.
  apply (proj1 (handleStepChange_writes_one_step 0 promptField (lit "to anime")
                  (initial (lit "s0")))
           (blankStep (lit "s0"))).
  reflexivity.
Defined.

Lemma setAt_here {X : Type} (pre : list X) x y rest :
  setAt (length pre) x (pre ++ y :: rest) = pre ++ x :: rest.
Proof. induction pre as [|z pre IH]; cbn [length setAt app]; [reflexivity|]. now rewrite IH. Qed.

Lemma setAt_next {X : Type} (pre : list X) x y z rest :
  setAt (S (length pre)) x (pre ++ y :: z :: rest) = pre ++ y :: x :: rest.
Proof.
  induction pre as [|u pre IH]; [reflexivity|].
  change (u :: setAt (S (length pre)) x (pre ++ y :: z :: rest)
          = u :: (pre ++ y :: x :: rest)).
  now rewrite IH.
Qed.

Lemma nth_error_here {X : Type} (pre : list X) y rest :
  nth_error (pre ++ y :: rest) (length pre) = Some y.
Proof. induction pre as [|z pre IH]; cbn [length nth_error app]; auto. Qed.

Lemma nth_error_next {X : Type} (pre : list X) y z rest :
  nth_error (pre ++ y :: z :: rest) (S (length pre)) = Some z.
Proof. induction pre as [|u pre IH]; cbn [length nth_error app]; auto. Qed.

(** [handleMoveStep] on two neighbouring steps swaps them and leaves the
    rest of the form as it is: moving the upper one down is moving the lower
    one up, the steps are the same steps in another order, and the same move
    once more puts them back.  At the top there is no move up; at the bottom
    and past it there is no move down. *)
Theorem handleMoveStep_swaps_neighbours (st : State) (pre post : list PipelineStep)
    (a b : PipelineStep) :
  steps st = pre ++ a :: b :: post ->
  let swapped := {| mode := mode st; steps := pre ++ b :: a :: post;
                    attachments := attachments st |} in
  handleMoveStep (length pre) down st = Some swapped
  /\ handleMoveStep (S (length pre)) up st = Some swapped
  /\ handleMoveStep (length pre) down swapped
     = Some {| mode := mode st; steps := pre ++ a :: b :: post;
               attachments := attachments st |}
  /\ Permutation (steps st) (steps swapped)
  /\ handleMoveStep 0 up st = None
  /\ (forall index, length (steps st) <= index + 1 ->
                    handleMoveStep index down st = None).
Proof.
  intros E swapped. subst swapped. unfold handleMoveStep.
  cbn [steps mode attachments].
  rewrite E. replace (length pre + 1) with (S (length pre)) by lia.
  repeat (progress rewrite ?nth_error_here, ?nth_error_next, ?setAt_here, ?setAt_next).
  split; [reflexivity|]. split; [reflexivity|]. split; [reflexivity|].
  split.
  - apply Permutation_app_head. apply perm_swap.
  - split; [reflexivity|]. intros index Hi.
    destruct (nth_error (pre ++ a :: b :: post) (index + 1)) eqn:En; [|reflexivity].
    assert (index + 1 < length (pre ++ a :: b :: post))
      by (apply nth_error_Some; congruence).
    rewrite <- E in *. lia.
Qed.

Lemma handleMoveStep_swaps_neighbours_witness :
  let st := handleAddStep (lit "s1") (initial (lit "s0")) in
  handleMoveStep 0 down st
  = Some {| mode := mode st; steps := [blankStep (lit "s1"); blankStep (lit "s0")];
            attachments := attachments st |}.
Proof.
  intros st.
  apply (proj1 (@handleMoveStep_swaps_neighbours st [] []
                  (blankStep (lit "s0")) (blankStep (lit "s1")) eq_refl)).
Defined.

Lemma mapiFrom_map_prompt (stamp : jsstring) (ps : list jsstring) :
  forall k,
    map prompt (mapiFrom (fun p idx =>
                            {| id := stamp ++ numberToString idx; prompt := p;
                               stepModelName := None; status := pending |}) k ps)
    = ps.
Proof. induction ps as [|p ps IH]; intros k; cbn [mapiFrom map prompt]; [reflexivity|]. now rewrite IH. Qed.

Lemma filter_all {X : Type} (p : X -> bool) (l : list X) :
  forallb p l = true -> filter p l = l.
Proof.
  induction l as [|x l IH]; cbn [forallb filter]; [reflexivity|].
  intros H. apply andb_prop in H as [-> Hl]. now rewrite IH.
Qed.

(** [handleApplyTemplate] replaces the steps by one pending step per prompt
    of the template, in order and without model override, takes the mode of
    the template and keeps the attachments.  Each built-in template has
    between one and five prompts, none of them blank, so with an image
    attached [handleExecute] starts the pipeline with every step of the
    template. *)
Theorem handleApplyTemplate_sets_steps (stamp : jsstring) (t : PipelineTemplate)
    (st : State) :
  let st' := handleApplyTemplate stamp t st in
  map prompt (steps st') = templateSteps t
  /\ Forall (fun s => status s = pending /\ stepModelName s = None) (steps st')
  /\ mode st' = templateMode t
  /\ attachments st' = attachments st
  /\ (In t PIPELINE_TEMPLATES -> attachments st <> [] ->
      handleExecute st' = [OnExecute (templateMode t) (steps st') (attachments st);
                           OnClose]).
Proof.
  intros st'. subst st'. unfold handleApplyTemplate. cbn [steps mode attachments].
  split; [apply mapiFrom_map_prompt|]. split.
  { unfold mapi. generalize 0. induction (templateSteps t) as [|p ps IH]; intros k;
      cbn [mapiFrom]; constructor; auto. }
  split; [reflexivity|]. split; [reflexivity|].
  intros Hin Hne. unfold handleExecute. cbn [steps mode attachments].
  destruct (attachments st) as [|a atts]; [congruence|].
  assert (Hall : forallb (fun p => 0 <? length (trim p)) (templateSteps t) = true).
  { destruct Hin as [<-|[<-|[<-|[]]]]; vm_compute; reflexivity. }
  assert (Hsz : templateSteps t <> []).
  { destruct Hin as [<-|[<-|[<-|[]]]]; discriminate. }
  assert (Hf : forall k,
             filter hasPrompt
               (mapiFrom (fun p idx =>
                            {| id := stamp ++ numberToString idx; prompt := p;
                               stepModelName := None; status := pending |})
                  k (templateSteps t))
             = mapiFrom (fun p idx =>
                           {| id := stamp ++ numberToString idx; prompt := p;
                              stepModelName := None; status := pending |})
                 k (templateSteps t)).
  { intros k. apply filter_all. clear Hsz Hin. revert k Hall.
    induction (templateSteps t) as [|p ps IH]; intros k Hall;
      cbn [mapiFrom forallb] in *; [reflexivity|].
    apply andb_prop in Hall as [Hp Hps]. unfold hasPrompt at 1. cbn [prompt].
    rewrite Hp. cbn [andb]. now apply IH. }
  unfold mapi. rewrite Hf.
  destruct (templateSteps t) as [|p ps]; [congruence|]. reflexivity.
Qed.

Lemma handleApplyTemplate_sets_steps_witness :
  handleExecute (handleApplyTemplate (lit "17")
                   (nth 0 PIPELINE_TEMPLATES (mkTemplate [] serial []))
                   Scenario.form)
  = [OnExecute serial
       (steps (handleApplyTemplate (lit "17")
                 (nth 0 PIPELINE_TEMPLATES (mkTemplate [] serial []))
                 Scenario.form))
       (attachments Scenario.form);
     OnClose].
Proof.
  apply (proj2 (proj2 (proj2 (proj2
           (handleApplyTemplate_sets_steps (lit "17")
              (nth 0 PIPELINE_TEMPLATES (mkTemplate [] serial []))
              Scenario.form))))).
  - left. reflexivity.
  - vm_compute. discriminate.
Defined.

(** [handleExecute] closes the modal exactly when it starts the pipeline;
    an alert leaves it open.  When the steps and the images are both
    missing, the alert is the one about the steps. *)
Theorem handleExecute_closes_only_on_start (st : State) :
  (In OnClose (handleExecute st)
   <-> exists m ss imgs, In (OnExecute m ss imgs) (handleExecute st))
  /\ (filter hasPrompt (steps st) = [] ->
      handleExecute st = [Alert Text.needStep])
  /\ (filter hasPrompt (steps st) <> [] -> attachments st = [] ->
      handleExecute st = [Alert Text.needImage]).
Proof.
  destruct (handleExecute_cases st) as [[Hf E]|[(Hf & Ha & E)|(Hf & Ha & E)]];
    rewrite E; (split; [|split]); try congruence.
  - split; [intros [H|[]]; discriminate | intros (m & ss & imgs & [H|[]]); discriminate].
  - split; [intros [H|[]]; discriminate | intros (m & ss & imgs & [H|[]]); discriminate].
  - split; [intros _; eexists _, _, _; now left | intros _; right; now left].
Qed.

Lemma handleExecute_closes_only_on_start_witness :
  handleExecute (initial (lit "s0")) = [Alert Text.needStep].
Proof.
  apply (proj1 (proj2 (handleExecute_closes_only_on_start (initial (lit "s0"))))).
  reflexivity.
Defined.

End PipelineMore.

(* ===================================================================== *)
(** ** More on the task lists *)
(* ===================================================================== *)

Module TaskMore.

Import ChatInterface TaskFacts.

(** *** [trim] *)

Lemma trimStart_fixed s :
  match s with [] => True | c :: _ => isWhiteSpace c = false end ->
  trimStart s = s.
Proof. destruct s as [|c s]; cbn [trimStart]; [reflexivity|]. now intros ->. Qed.

Lemma trimStart_shape s :
  match trimStart s with [] => True | c :: _ => isWhiteSpace c = false end.
Proof.
  induction s as [|c s IH]; cbn [trimStart]; [exact I|].
  destruct (isWhiteSpace c) eqn:E; [exact IH|exact E].
Qed.

Lemma trimStart_suffix s : exists pre, s = pre ++ trimStart s.
Proof.
  induction s as [|c s [pre IH]]; cbn [trimStart].
  - now exists [].
  - destruct (isWhiteSpace c).
    + exists (c :: pre). cbn [app]. now rewrite <- IH.
    + now exists [].
Qed.

(** What [trim] returns starts and ends with a code unit that is no white
    space. *)
Lemma trim_shape s :
  match trim s with [] => True | c :: _ => isWhiteSpace c = false end
  /\ match rev (trim s) with [] => True | c :: _ => isWhiteSpace c = false end.
Proof.
  unfold trim, trimEnd. set (a := trimStart s).
  split.
  - destruct (trimStart_suffix (rev a)) as [pre E].
    pose proof (trimStart_shape s) as Ha. fold a in Ha.
    apply (f_equal (@rev N)) in E. rewrite rev_involutive, rev_app_distr in E.
    destruct (rev (trimStart (rev a))) as [|c r]; [exact I|].
    rewrite E in Ha. exact Ha.
  - rewrite rev_involutive. apply trimStart_shape.
Qed.

Lemma trim_idempotent s : trim (trim s) = trim s.
Proof.
  destruct (trim_shape s) as [H1 H2].
  unfold trim at 1. unfold trimEnd.
  rewrite (trimStart_fixed _ H1), (trimStart_fixed _ H2).
  apply rev_involutive.
Qed.

Lemma trim_fixed s :
  match s with [] => True | c :: _ => isWhiteSpace c = false end ->
  match rev s with [] => True | c :: _ => isWhiteSpace c = false end ->
  trim s = s.
Proof.
  intros H1 H2. unfold trim, trimEnd.
  rewrite (trimStart_fixed _ H1), (trimStart_fixed _ H2).
  apply rev_involutive.
Qed.

(** Every sub-prompt the pairing mode works with is non-empty and has no
    white space at its ends ([trim] leaves it as it is). *)
Theorem splitPrompts_are_trimmed (text : jsstring) :
  Forall (fun p => p <> [] /\ trim p = p) (splitPrompts text).
Proof.
  unfold splitPrompts. apply Forall_forall. intros p Hp.
  apply filter_In in Hp as [Hin Hlen].
  apply in_map_iff in Hin as (q & <- & _). split.
  - intros E. rewrite E in Hlen. discriminate.
  - apply trim_idempotent.
Qed.

(** *** Prompts written with "---" between them *)

Lemma splitDashes_joinPrompts ps :
  ps <> [] ->
  Forall (fun p => p <> [] /\ forallb (fun c => negb (c =? dash)%N) p = true) ps ->
  splitDashes (joinPrompts ps) = ps.
Proof.
  induction ps as [|p ps IH]; intros Hne H; [congruence|].
  inversion H as [|? ? [Hp Hd] Hps]; subst.
  destruct ps as [|q ps].
  - cbn [joinPrompts]. unfold splitDashes. now rewrite splitDashesFrom_no_dash.
  - change (joinPrompts (p :: q :: ps))
      with (p ++ repeat dash 3 ++ joinPrompts (q :: ps)).
    rewrite splitDashes_at_run; [now rewrite IH| exact Hd | lia |].
    inversion Hps as [|? ? [Hq Hqd] _]; subst.
    destruct q as [|c q]; [congruence|].
    cbn [forallb] in Hqd. apply andb_prop in Hqd as [Hc _].
    apply negb_true_iff in Hc.
    destruct ps; cbn [joinPrompts app]; exact Hc.
Qed.

(** Prompts that are non-empty, trimmed and free of dashes, written with
    "---" between them, are read back as they were written. *)
Theorem splitPrompts_reads_back_joined (ps : list jsstring) :
  Forall (fun p => p <> [] /\ trim p = p
                   /\ forallb (fun c => negb (c =? dash)%N) p = true) ps ->
  splitPrompts (joinPrompts ps) = ps.
Proof.
  intros H. unfold splitPrompts.
  assert (G : filter (fun p => 0 <? length p) (map trim ps) = ps).
  { induction H as [|q qs (Hq & Ht & _) _ IH]; [reflexivity|].
    cbn [map filter]. rewrite Ht.
    destruct q as [|c q]; [congruence|].
    replace (0 <? length (c :: q)) with true by reflexivity.
    f_equal. exact IH. }
  destruct ps as [|p ps]; [reflexivity|].
  rewrite splitDashes_joinPrompts; [exact G|discriminate|].
  apply Forall_forall. intros q Hq. rewrite Forall_forall in H.
  destruct (H q Hq) as (H1 & _ & H3). now split.
Qed.

Lemma splitPrompts_reads_back_joined_witness :
  splitPrompts (joinPrompts [lit "a cat"; lit "a dog, sleeping"; lit "rain"])
  = [lit "a cat"; lit "a dog, sleeping"; lit "rain"].
Proof.
  apply splitPrompts_reads_back_joined.
  repeat constructor; try discriminate.
Defined.

(** *** The pairing mode beyond the case of fewer prompts than images *)

Lemma batchTasks_pairing count text atts p0 ps :
  atts <> [] ->
  splitPrompts text = p0 :: ps ->
  batchTasks image_multi_prompt count text atts
  = inr (mapi (fun att index =>
                 {| text := nth (index mod length (p0 :: ps)) (p0 :: ps) p0;
                    attachments := [att] |}) atts).
Proof.
  intros Ha Hp. unfold batchTasks.
  destruct atts as [|a atts]; [congruence|]. cbn [length Nat.eqb].
  destruct (trim text) as [|c t] eqn:Et.
  { rewrite (splitPrompts_blank _ Et) in Hp. discriminate. }
  cbn [truthy negb]. now rewrite Hp.
Qed.

Lemma mapiFrom_single_images (f : nat -> jsstring) (l : list Attachment) :
  forall k,
    concat (map attachments
              (mapiFrom (fun att index => {| text := f index; attachments := [att] |})
                 k l)) = l.
Proof.
  induction l as [|a l IH]; intros k; cbn [mapiFrom map concat attachments app];
    [reflexivity|]. now rewrite IH.
Qed.

(** With at least as many sub-prompts as images, the pairing mode gives
    image i the sub-prompt i and leaves the sub-prompts past the last image
    unused; in every case the tasks carry the attached images one by one, in
    order. *)
Theorem pairing_uses_first_prompts (count : Z) (text : jsstring)
    (atts : list Attachment) (prompts : list jsstring) :
  splitPrompts text = prompts ->
  atts <> [] ->
  length atts <= length prompts ->
  exists tasks,
    batchTasks image_multi_prompt count text atts = inr tasks
    /\ length tasks = length atts
    /\ concat (map attachments tasks) = atts
    /\ forall i att, nth_error atts i = Some att ->
         exists p, nth_error prompts i = Some p
                   /\ nth_error tasks i = Some {| text := p; attachments := [att] |}.
Proof.
  intros Hp Ha Hlen.
  destruct prompts as [|p0 ps].
  { destruct atts; [congruence|]. cbn [length] in Hlen. lia. }
  eexists. split; [apply (@batchTasks_pairing count text atts p0 ps Ha Hp)|].
  split; [|split].
  - unfold mapi. apply mapiFrom_length.
  - unfold mapi.
    apply (mapiFrom_single_images
             (fun index => nth (index mod length (p0 :: ps)) (p0 :: ps) p0)).
  - intros i att Hi.
    assert (Hlt : i < length atts) by (apply nth_error_Some; congruence).
    exists (nth i (p0 :: ps) p0). split.
    + apply nth_error_nth'. lia.
    + unfold mapi. rewrite mapiFrom_nth_error, Hi. cbn [option_map Nat.add].
      rewrite Nat.mod_small by lia. reflexivity.
Qed.

Lemma pairing_uses_first_prompts_witness :
  exists tasks,
    batchTasks image_multi_prompt 1 (lit "A---B---C") [Scenario.img0; Scenario.img1]
    = inr tasks
    /\ length tasks = 2
    /\ concat (map attachments tasks) = [Scenario.img0; Scenario.img1]
    /\ forall i att, nth_error [Scenario.img0; Scenario.img1] i = Some att ->
         exists p, nth_error [lit "A"; lit "B"; lit "C"] i = Some p
                   /\ nth_error tasks i = Some {| text := p; attachments := [att] |}.
Proof.
  apply (@pairing_uses_first_prompts 1 (lit "A---B---C")
           [Scenario.img0; Scenario.img1] [lit "A"; lit "B"; lit "C"]).
  - vm_compute. reflexivity.
  - discriminate.
  - cbn. lia.
Defined.

(** A list of pieces holds no prompt when each piece trims to nothing. *)
Lemma no_prompt_iff (pieces : list jsstring) :
  filter (fun p => 0 <? length p) (map trim pieces) = []
  <-> Forall (fun p => trim p = []) pieces.
Proof.
  induction pieces as [|p ps IH]; cbn [map filter].
  - split; [constructor|reflexivity].
  - destruct (trim p) as [|c t] eqn:Ep; cbn [length Nat.ltb Nat.leb].
    + rewrite IH. split.
      * intros H. constructor; [exact Ep|exact H].
      * intros H. now inversion H.
    + split; [discriminate|]. intros H. inversion H; subst. congruence.
Qed.

(** The pairing mode is refused exactly when no image is attached or the
    text holds no sub-prompt, that is, when every piece of the text between
    runs of three or more dashes is empty or white space.  One or two dashes
    are a prompt.  [handleSend] then shows one error notification, the one
    of the first check that fails, and does nothing else. *)
Theorem pairing_refused_without_image_or_prompt (count : Z) (text : jsstring)
    (atts : list Attachment) :
  ((exists msg, batchTasks image_multi_prompt count text atts = inl msg)
   <-> atts = [] \/ splitPrompts text = [])
  /\ (splitPrompts text = []
      <-> Forall (fun p => trim p = []) (splitDashes text))
  /\ (atts = [] ->
      batchTasks image_multi_prompt count text atts = inl Text.multiPromptNeedsImage)
  /\ (atts <> [] -> trim text = [] ->
      batchTasks image_multi_prompt count text atts = inl Text.multiPromptNeedsPrompt)
  /\ (atts <> [] -> trim text <> [] -> splitPrompts text = [] ->
      batchTasks image_multi_prompt count text atts = inl Text.multiPromptNeedsValid)
  /\ (forall apiKey settings env w msg,
        truthy apiKey = true ->
        batchTasks image_multi_prompt count text atts = inl msg ->
        handleSend apiKey settings image_multi_prompt count env text atts w
        = emit (AddToast msg error) w).
Proof.
  assert (C1 : atts = [] ->
               batchTasks image_multi_prompt count text atts
               = inl Text.multiPromptNeedsImage) by (now intros ->).
  assert (C2 : atts <> [] -> trim text = [] ->
               batchTasks image_multi_prompt count text atts
               = inl Text.multiPromptNeedsPrompt).
  { intros Ha Ht. unfold batchTasks. destruct atts; [congruence|].
    cbn [length Nat.eqb]. now rewrite Ht. }
  assert (C3 : atts <> [] -> trim text <> [] -> splitPrompts text = [] ->
               batchTasks image_multi_prompt count text atts
               = inl Text.multiPromptNeedsValid).
  { intros Ha Ht Hs. unfold batchTasks. destruct atts; [congruence|].
    cbn [length Nat.eqb]. destruct (trim text); [congruence|].
    cbn [truthy negb]. now rewrite Hs. }
  split; [|split; [apply no_prompt_iff|split; [exact C1|split; [exact C2|split; [exact C3|]]]]].
  - split.
    + intros [msg H]. destruct atts as [|a atts]; [now left|]. right.
      destruct (splitPrompts text) as [|p0 ps] eqn:Hs; [reflexivity|].
      rewrite (@batchTasks_pairing count text (a :: atts) p0 ps) in H;
        [discriminate|discriminate|exact Hs].
    + intros [Ha|Hs].
      * eexists. now apply C1.
      * destruct atts as [|a atts]; [eexists; now apply C1|].
        destruct (trim text) as [|c t] eqn:Et.
        -- eexists. apply C2; [discriminate|reflexivity].
        -- eexists. apply C3; [discriminate|discriminate|exact Hs].
  - intros apiKey settings env w msg Hk H. unfold handleSend.
    rewrite Hk. cbn [negb]. now rewrite H.
Qed.

Lemma pairing_refused_without_image_or_prompt_witness :
  batchTasks image_multi_prompt 1 (lit " --- ") [Scenario.img0]
  = inl Text.multiPromptNeedsValid.
Proof.
  apply (proj1 (proj2 (proj2 (proj2 (proj2
           (pairing_refused_without_image_or_prompt 1 (lit " --- ")
              [Scenario.img0])))))).
  - discriminate.
  - vm_compute. discriminate.
  - vm_compute. reflexivity.
Defined.

(** One or two dashes are a prompt: with an image, [" -- "] is accepted and
    the image is sent with the prompt ["--"]; four dashes cut like three. *)
Example short_dash_run_is_a_prompt :
  batchTasks image_multi_prompt 1 (lit " -- ") [Scenario.img0]
  = inr [{| text := lit "--"; attachments := [Scenario.img0] |}]
  /\ batchTasks image_multi_prompt 1 (lit " ---- ") [Scenario.img0]
     = inl Text.multiPromptNeedsValid.
Proof. split; vm_compute; reflexivity. Qed.

End TaskMore.

(* ===================================================================== *)
(** ** More on [executeSingleGeneration] and [handleSend] *)
(* ===================================================================== *)

Module ExecMore.

Import ChatInterface Run ExecFacts BatchFacts.

Ltac history :=
  rewrite !historyImages_app; cbn [historyImages];
  repeat match goal with
         | H : forallb partialUpdate ?l = true |- _ =>
             rewrite (partialUpdate_historyImages l H)
         end;
  rewrite ?app_nil_r; reflexivity.

(** *** A request that fails *)

(** A request that rejects with a value other than [null] and
    [undefined], was not stopped and is no AbortError puts the error text in
    the place of the model message, flagged as an error, whatever was
    streamed before: "Error: " and the message of the error, or the default
    text when the error has no message.  The rejection is logged, no image
    goes to the history, and the call returns normally. *)
Theorem failed_request_shows_error (apiKey : jsstring) (settings : Settings)
    (env : Env) (text : jsstring) (atts : list Attachment) (w : World) (e : JsError) :
  preFault (env (invocations w)) = None ->
  settles (env (invocations w)) = inr (thrown e) ->
  userStops (env (invocations w)) = false ->
  strEq (errName e) Text.abortErrorName = false ->
  exists w',
    executeSingleGeneration apiKey settings env text atts w = (Normal tt, w')
    /\ messages w'
       = messages w
         ++ [ {| msgId := numberToString (Z.to_nat (now w)); role := user;
                 parts := userParts text atts; timestamp := now w;
                 isError := false; thinkingDuration := None |};
              {| msgId := numberToString (Z.to_nat (now w + 1)); role := model;
                 parts := [textPart (if truthy (errMessage e)
                                     then lit "Error: " ++ errMessage e
                                     else Text.errorDefault)];
                 timestamp := now w; isError := true; thinkingDuration := None |} ]
    /\ In (ConsoleError Text.generationFailed (thrown e)) (trace w')
    /\ historyImages (trace w') = historyImages (trace w).
Proof.
  intros Hpf Hset Hstop Hname. apply to_result.
  generation Hpf.
  all: try match goal with
       | H : orb _ _ = true |- _ =>
           cbn [aborted] in H; rewrite Hname in H; discriminate H
       end.
  all: split; [reflexivity|]; split; [rewrite <- app_assoc; reflexivity|].
  all: split; [flat; find_event|].
  all: history.
Qed.

Lemma failed_request_shows_error_witness :
  exists w',
    executeSingleGeneration (lit "key") streamSettings
      (fun _ => {| preFault := None;
                   chunks := [(100%Z, [textPart (lit "half")])];
                   latency := 700; userStops := false;
                   settles := inr (thrown {| errName := lit "Error";
                                             errMessage := lit "503" |}) |})
      (lit "cat") [] world0
    = (Normal tt, w')
    /\ messages w'
       = [ {| msgId := lit "1000"; role := user; parts := [textPart (lit "cat")];
              timestamp := 1000; isError := false; thinkingDuration := None |};
           {| msgId := lit "1001"; role := model;
              parts := [textPart (lit "Error: 503")];
              timestamp := 1000; isError := true; thinkingDuration := None |} ]
    /\ In (ConsoleError Text.generationFailed
             (thrown {| errName := lit "Error"; errMessage := lit "503" |})) (trace w')
    /\ historyImages (trace w') = [].
Proof.
  apply (@failed_request_shows_error (lit "key") streamSettings
           (fun _ => {| preFault := None;
                        chunks := [(100%Z, [textPart (lit "half")])];
                        latency := 700; userStops := false;
                        settles := inr (thrown {| errName := lit "Error";
                                                  errMessage := lit "503" |}) |})
           (lit "cat") [] world0
           {| errName := lit "Error"; errMessage := lit "503" |});
    reflexivity.
Defined.

(** *** A request that is stopped *)



(** *** A request that resolves *)

Lemma historyEntries_length settings text t ps :
  length (historyEntries settings text t ps) = length (filter isFinalImage ps).
Proof.
  unfold historyEntries. induction ps as [|p ps IH]; [reflexivity|].
  cbn [filter]. destruct (isFinalImage p) eqn:E; [|exact IH].
  cbn [flat_map length]. unfold isFinalImage in E.
  destruct (inlineData p); [|discriminate]. cbn [app length]. now rewrite IH.
Qed.

Lemma historyEntries_Forall settings text t ps :
  Forall (fun img =>
            imgPrompt img = (if truthy text then text else Text.imagePrompt)
            /\ imgTimestamp img = t
            /\ imgModelName img = modelName settings)
    (historyEntries settings text t ps).
Proof.
  unfold historyEntries. induction (filter isFinalImage ps) as [|p l IH];
    cbn [flat_map]; [constructor|].
  destruct (inlineData p); [|exact IH]. constructor; [now cbn|exact IH].
Qed.

(** When the request resolves, the history receives one entry per part of
    the final model message that carries an image and is not a thought, in
    order: the parts of the response without streaming, the parts of the
    last chunk with streaming.  Every entry carries the text of the turn as
    its prompt, or the default prompt when the text is empty, the model name
    of the settings, and the time at which the request settled. *)
Theorem resolved_request_feeds_history (apiKey : jsstring) (settings : Settings)
    (env : Env) (text : jsstring) (atts : list Attachment) (w : World)
    (modelParts : list Part) :
  preFault (env (invocations w)) = None ->
  settles (env (invocations w)) = inl modelParts ->
  exists w' added,
    executeSingleGeneration apiKey settings env text atts w = (Normal tt, w')
    /\ historyImages (trace w') = historyImages (trace w) ++ added
    /\ added
       = historyEntries settings text (now w')
           (if streamResponse settings
            then lastChunkParts (chunks (env (invocations w))) []
            else modelParts)
    /\ length added
       = length (filter isFinalImage
                   (if streamResponse settings
                    then lastChunkParts (chunks (env (invocations w))) []
                    else modelParts))
    /\ Forall (fun img =>
                 imgPrompt img = (if truthy text then text else Text.imagePrompt)
                 /\ imgTimestamp img = now w'
                 /\ imgModelName img = modelName settings) added
    /\ now w'
       = ((if streamResponse settings
           then streamEnd (now w) (chunks (env (invocations w)))
           else now w) + latency (env (invocations w)))%Z.
Proof.
  intros Hpf Hset.
  assert (R : run (executeSingleGeneration apiKey settings env text atts) w
                (fun c w' => c = Normal tt
                   /\ historyImages (trace w')
                      = historyImages (trace w)
                        ++ historyEntries settings text (now w')
                             (if streamResponse settings
                              then lastChunkParts (chunks (env (invocations w))) []
                              else modelParts)
                   /\ now w'
                      = ((if streamResponse settings
                          then streamEnd (now w) (chunks (env (invocations w)))
                          else now w) + latency (env (invocations w)))%Z)).
  { generation Hpf.
    all: repeat match goal with
         | H : forallb partialUpdate ?l = true |- _ =>
             pose proof (partialUpdate_historyImages l H); clear H
         | H : streamResponse _ = _ |- _ => rewrite H; clear H
         end.
    all: split; [reflexivity|]; split; [|reflexivity].
    all: flat.
    all: repeat first [ rewrite historyImages_app
                      | rewrite historyImages_map
                      | progress cbn [historyImages app] ];
         repeat match goal with H : historyImages _ = [] |- _ => rewrite H end;
         cbn [app]; rewrite ?app_nil_r; reflexivity. }
  apply run_inv in R. destruct R as (c & w' & E & -> & Hh & Hn).
  eexists w', _. split; [exact E|]. split; [exact Hh|]. split; [reflexivity|].
  split; [apply historyEntries_length|]. split; [apply historyEntries_Forall|exact Hn].
Qed.

Lemma resolved_request_feeds_history_witness :
  exists w' added,
    executeSingleGeneration (lit "key") plainSettings (fun _ => succeeds)
      [] [] world0
    = (Normal tt, w')
    /\ historyImages (trace w') = added
    /\ added
       = [ {| imgMimeType := lit "image/png"; imgData := Some (lit "AAAA");
              imgPrompt := Text.imagePrompt; imgTimestamp := 3000;
              imgModelName := lit "gemini" |} ]
    /\ length added = 1
    /\ Forall (fun img =>
                 imgPrompt img = Text.imagePrompt
                 /\ imgTimestamp img = now w'
                 /\ imgModelName img = lit "gemini") added
    /\ now w' = 3000%Z.
Proof.
  destruct (@resolved_request_feeds_history (lit "key") plainSettings
              (fun _ => succeeds) [] [] world0
              [thoughtPart (lit "plan");
               imagePart (lit "image/png") (Some (lit "AAAA"))]
              eq_refl eq_refl)
    as (w' & added & E & Hh & Ha & Hl & Hf & Hn).
  exists w', added. split; [exact E|]. split; [exact Hh|].
  split; [rewrite Ha, Hn; reflexivity|]. split; [exact Hl|].
  split; [exact Hf|exact Hn].
Defined.

(** *** A stream *)

Lemma endsInThought_last (cs : list (Z * list Part)) :
  match lastOf cs with
  | Some c => endsInThought (snd c)
  | None => false
  end = endsInThought (lastChunkParts cs []).
Proof. unfold lastChunkParts. now destruct (lastOf cs). Qed.

(** With streaming on and chunks that all have parts, the model message is
    updated once per chunk, with the parts of the chunk and never flagged
    as an error; the update carries a thinking duration exactly when the
    last part of the chunk is a thought, and it is then the time from the
    start of the request to the arrival of the chunk.  When the stream ends
    on a thought, one more update repeats the last parts with the time from
    the start to the end of the stream; otherwise there is none. *)
Theorem stream_updates_follow_chunks (apiKey : jsstring) (settings : Settings)
    (env : Env) (text : jsstring) (atts : list Attachment) (w : World)
    (modelParts : list Part) :
  streamResponse settings = true ->
  preFault (env (invocations w)) = None ->
  settles (env (invocations w)) = inl modelParts ->
  Forall (fun c => snd c <> []) (chunks (env (invocations w))) ->
  exists w',
    executeSingleGeneration apiKey settings env text atts w = (Normal tt, w')
    /\ updates (trace w')
       = updates (trace w)
         ++ map (fun c => (snd c, false,
                           if endsInThought (snd c)
                           then Some (Qmake (fst c - now w) 1000) else None))
              (arrivals (now w) (chunks (env (invocations w))))
         ++ (if endsInThought (lastChunkParts (chunks (env (invocations w))) [])
             then [(lastChunkParts (chunks (env (invocations w))) [], false,
                    Some (Qmake (now w' - now w) 1000))]
             else [])
    /\ now w'
       = (streamEnd (now w) (chunks (env (invocations w)))
          + latency (env (invocations w)))%Z.
Proof.
  intros Hs Hpf Hset Hne. apply to_result.
  generation Hpf.
  all: match goal with
       | H : Forall _ _ -> _ |- _ => destruct (H Hne) as [Hu Hst]; clear H
       end.
  all: rewrite endsInThought_last in Hst; rewrite <- Hst.
  all: split; [reflexivity|]; split; [|reflexivity].
  all: flat.
  all: repeat first [ rewrite updates_app | rewrite updates_map_history
                    | progress cbn [updates app] ].
  all: rewrite Hu; unfold chunkUpdate, secondsSince; rewrite ?app_nil_r; reflexivity.
Qed.

Lemma stream_updates_follow_chunks_witness :
  exists w',
    executeSingleGeneration (lit "key") streamSettings
      (fun _ => {| preFault := None;
                   chunks := [(100%Z, [thoughtPart (lit "plan")]);
                              (400%Z, [thoughtPart (lit "plan"); textPart (lit "done")]);
                              (200%Z, [thoughtPart (lit "plan"); textPart (lit "done");
                                       thoughtPart (lit "check")])];
                   latency := 10; userStops := false; settles := inl [] |})
      (lit "cat") [] world0
    = (Normal tt, w')
    /\ updates (trace w')
       = [ ([thoughtPart (lit "plan")], false, Some (Qmake 100 1000));
           ([thoughtPart (lit "plan"); textPart (lit "done")], false, None);
           ([thoughtPart (lit "plan"); textPart (lit "done");
             thoughtPart (lit "check")], false, Some (Qmake 700 1000)) ]
         ++ [ ([thoughtPart (lit "plan"); textPart (lit "done");
                thoughtPart (lit "check")], false, Some (Qmake (now w' - 1000) 1000)) ]
    /\ now w' = 1710%Z.
Proof.
  apply (@stream_updates_follow_chunks (lit "key") streamSettings
           (fun _ => {| preFault := None;
                        chunks := [(100%Z, [thoughtPart (lit "plan")]);
                                   (400%Z, [thoughtPart (lit "plan");
                                            textPart (lit "done")]);
                                   (200%Z, [thoughtPart (lit "plan");
                                            textPart (lit "done");
                                            thoughtPart (lit "check")])];
                        latency := 10; userStops := false; settles := inl [] |})
           (lit "cat") [] world0 []); try reflexivity.
  repeat constructor; discriminate.
Defined.


(** *** One request per generation *)

Lemma storeOnly_only l :
  forallb storeOnly l = true ->
  requests l = [] /\ histories l = [] /\ loadings l = [] /\ pauses l = [].
Proof.
  induction l as [|e l IH]; simpl; [auto|].
  intros H. apply andb_prop in H as [He Hl]. destruct e; try discriminate; auto.
Qed.

(** What the observers of a trace see of a generation that reaches its
    [try] block. *)
Lemma Generation_observed apiKey settings b history t text atts body :
  Generation apiKey settings b history t text atts body ->
  preFault b = None ->
  requests body = [(streamResponse settings, history, text, imagesPayload atts)]
  /\ histories body = [history]
  /\ loadings body = [true; false]
  /\ pauses body = []
  /\ exists pre, body = pre ++ [SetLoading false; FetchBalance].
Proof.
  unfold Generation. intros Hgen Hpf. rewrite Hpf in Hgen.
  destruct Hgen as (ups & rest & -> & Hups & _ & Hrest).
  apply (forallb_imp partialUpdate storeOnly _ partialUpdate_storeOnly) in Hups.
  destruct (storeOnly_only _ Hups) as (Hu1 & Hu2 & Hu3 & Hu4).
  assert (Hr : requests rest = [] /\ histories rest = [] /\ loadings rest = []
               /\ pauses rest = []).
  { destruct (settles b) as [ps|[| |e]].
    - now apply storeOnly_only.
    - now subst.
    - now subst.
    - subst. now destruct (strEq (errName e) Text.abortErrorName || userStops b). }
  destruct Hr as (Hr1 & Hr2 & Hr3 & Hr4).
  repeat first [ rewrite requests_app | rewrite histories_app | rewrite loadings_app
               | rewrite pauses_app ].
  rewrite Hu1, Hu2, Hu3, Hu4, Hr1, Hr2, Hr3, Hr4.
  destruct (userStops b); cbn [requests histories loadings pauses app];
    (repeat (split; [reflexivity|]); eexists; peel).
Qed.

(** Every call of [executeSingleGeneration] that reaches its [try] block
    sends exactly one request, whose history is taken from the transcript as
    it stood before the call (the user message of this turn is not part of
    it), with the text and the attached images; it switches the loading
    flag on once and off once, and the last things it does are to switch it
    off and to refresh the balance.  The call returns normally whether the
    request resolves or rejects, except when it rejects with [null] or
    [undefined]: then the [catch] block fails on [error.name] and the call
    throws a TypeError, after the [finally] block has run. *)
Theorem generation_sends_one_request (apiKey : jsstring) (settings : Settings)
    (env : Env) (text : jsstring) (atts : list Attachment) (w : World) :
  preFault (env (invocations w)) = None ->
  exists c w' pre,
    executeSingleGeneration apiKey settings env text atts w = (c, w')
    /\ requests (trace w')
       = requests (trace w)
         ++ [(streamResponse settings, messages w, text,
              map (fun a => {| payloadData := base64Data a;
                               payloadMime := mimeType a |}) atts)]
    /\ loadings (trace w') = loadings (trace w) ++ [true; false]
    /\ trace w' = pre ++ [SetLoading false; FetchBalance]
    /\ (settles (env (invocations w)) <> inr jsNull ->
        settles (env (invocations w)) <> inr jsUndefined ->
        c = Normal tt)
    /\ (settles (env (invocations w)) = inr jsNull
        \/ settles (env (invocations w)) = inr jsUndefined ->
        exists e, c = Throw (thrown e) /\ errName e = lit "TypeError").
Proof.
  intros Hpf.
  pose proof (@exec_run apiKey settings env text atts w) as R.
  apply run_inv in R.
  destruct R as (c & w' & E & _ & _ & Hc & _ & (body & Htr & Hgen) & _).
  destruct (@Generation_observed _ _ _ _ _ _ _ _ Hgen Hpf) as (Hr & _ & Hl & _ & pre & Hpre).
  exists c, w', (trace w ++ Invoke text atts :: pre).
  split; [exact E|]. rewrite Htr.
  change (Invoke text atts :: body) with ([Invoke text atts] ++ body).
  rewrite !requests_app, !loadings_app, Hr, Hl. cbn [requests loadings app].
  split; [reflexivity|]. split; [reflexivity|].
  split; [rewrite Hpre; same_list|].
  unfold completion in Hc. rewrite Hpf in Hc. subst c.
  split.
  - intros H1 H2. destruct (settles (env (invocations w))) as [ps|[| |e]];
      congruence.
  - intros [H|H]; rewrite H; eexists; split; reflexivity.
Qed.

Lemma generation_sends_one_request_witness :
  exists c w' pre,
    executeSingleGeneration (lit "key") plainSettings (fun _ => rejectsNull)
      (lit "cat") [Scenario.img0] world0
    = (c, w')
    /\ requests (trace w')
       = [(false, [], lit "cat",
           [{| payloadData := Some (lit "AAAA");
               payloadMime := lit "image/png" |}])]
    /\ loadings (trace w') = [true; false]
    /\ trace w' = pre ++ [SetLoading false; FetchBalance]
    /\ (settles rejectsNull <> inr jsNull ->
        settles rejectsNull <> inr jsUndefined ->
        c = Normal tt)
    /\ (settles rejectsNull = inr jsNull \/ settles rejectsNull = inr jsUndefined ->
        exists e, c = Throw (thrown e) /\ errName e = lit "TypeError").
Proof.
  apply (@generation_sends_one_request (lit "key") plainSettings
           (fun _ => rejectsNull) (lit "cat") [Scenario.img0] world0).
  reflexivity.
Defined.

(** [handleStop] aborts only a pending request: once a generation that
    reached its [try] block has completed, by a return or by the throw of
    its [catch] block, the [finally] block has cleared the controller, and
    pressing stop changes nothing and records nothing. *)
Theorem stop_after_generation_is_idle (apiKey : jsstring) (settings : Settings)
    (env : Env) (text : jsstring) (atts : list Attachment) (w : World) :
  preFault (env (invocations w)) = None ->
  exists c w',
    executeSingleGeneration apiKey settings env text atts w = (c, w')
    /\ abortControllerRef w' = None
    /\ handleStop w' = (Normal tt, w')
    /\ (settles (env (invocations w)) <> inr jsNull ->
        settles (env (invocations w)) <> inr jsUndefined ->
        c = Normal tt).
Proof.
  intros Hpf.
  pose proof (@exec_run apiKey settings env text atts w) as R.
  apply run_inv in R. destruct R as (c & w' & E & _ & _ & Hc & Href & _).
  exists c, w'. split; [exact E|]. split; [exact (Href Hpf)|].
  split; [unfold handleStop, bind, getAbortController; now rewrite (Href Hpf)|].
  unfold completion in Hc. rewrite Hpf in Hc. subst c.
  intros H1 H2. destruct (settles (env (invocations w))) as [ps|[| |e]]; congruence.
Qed.

Lemma stop_after_generation_is_idle_witness :
  exists c w',
    executeSingleGeneration (lit "key") plainSettings (fun _ => stopped)
      (lit "cat") [] world0
    = (c, w')
    /\ abortControllerRef w' = None
    /\ handleStop w' = (Normal tt, w')
    /\ (settles stopped <> inr jsNull -> settles stopped <> inr jsUndefined ->
        c = Normal tt).
Proof.
  apply (@stop_after_generation_is_idle (lit "key") plainSettings (fun _ => stopped)
           (lit "cat") [] world0).
  reflexivity.
Defined.

(** *** The batch, task after task *)

(** The loop of the batch when no call throws ahead of its [try] block:
    the histories sent and the transcript. *)
Lemma batchLoop_shared apiKey settings env len rest :
  (forall k, preFault (env k) = None) ->
  forall i w,
    run (batchLoop apiKey settings env len i rest) w (fun c w' =>
      c = Normal tt
      /\ length (messages w') = length (messages w) + 2 * length rest
      /\ exists hs,
           histories (trace w') = histories (trace w) ++ hs
           /\ map (@length ChatMessage) hs
              = map (fun j => length (messages w) + 2 * j) (seq 0 (length rest))
           /\ Forall (fun h => exists more, h = messages w ++ more) hs).
Proof.
  intros Hpf. induction rest as [|task rest IH]; intros i w; cbn [batchLoop].
  - eapply run_eval; [reflexivity|]. split; [reflexivity|].
    split; [cbn [length]; lia|].
    exists []. split; [now rewrite app_nil_r|]. split; [reflexivity|constructor].
  - apply run_bind. eapply run_eval; [reflexivity|]. world.
    apply run_bind. apply run_tryCatch. apply run_bind.
    eapply run_mono; [apply exec_run|].
    intros c w1 (_ & _ & _ & _ & (body & Htr & Hgen) & Hm).
    cbn [invocations trace messages now] in *. rewrite Hpf in Hm.
    destruct Hm as (reply & Hm & _).
    destruct (@Generation_observed _ _ _ _ _ _ _ _ Hgen (Hpf _)) as (_ & Hh & _).
    assert (Hm1 : length (messages w1) = length (messages w) + 2).
    { rewrite Hm, length_app. reflexivity. }
    assert (Hnext : forall tail w2,
              messages w2 = messages w1 ->
              trace w2 = trace w1 ++ tail ->
              histories tail = [] ->
              run (batchLoop apiKey settings env len (i + 1) rest) w2 (fun c' w' =>
                c' = Normal tt
                /\ length (messages w') = length (messages w) + 2 * length (task :: rest)
                /\ exists hs,
                     histories (trace w') = histories (trace w) ++ hs
                     /\ map (@length ChatMessage) hs
                        = map (fun j => length (messages w) + 2 * j)
                            (seq 0 (length (task :: rest)))
                     /\ Forall (fun h => exists more, h = messages w ++ more) hs)).
    { intros tail w2 Hm2 Ht2 Htail.
      eapply run_mono; [apply IH|].
      intros c' w3 (-> & Hl3 & hs & Hh3 & Hlen3 & Hpre3).
      rewrite Hm2 in *.
      split; [reflexivity|]. split; [cbn [length]; lia|].
      exists (messages w :: hs). split; [|split].
      - rewrite Hh3, Ht2, Htr.
        change (Invoke (text task) (attachments task) :: body)
          with ([Invoke (text task) (attachments task)] ++ body).
        rewrite !histories_app, Hh, Htail. cbn [histories app].
        rewrite app_nil_r, <- app_assoc. reflexivity.
      - cbn [length seq map]. f_equal; [lia|].
        rewrite Hlen3, <- seq_shift, map_map. apply map_ext. intros j. lia.
      - constructor; [exists []; now rewrite app_nil_r|].
        eapply Forall_impl; [|exact Hpre3].
        intros h [more ->]. rewrite Hm, <- app_assoc. eauto. }
    destruct c as [[]|v].
    + destruct (i <? len - 1).
      * apply run_bind. eapply run_eval; [reflexivity|]. world.
        eapply run_eval; [reflexivity|]. world.
        apply Hnext with (tail := [Sleep 500]); reflexivity.
      * eapply run_eval; [reflexivity|].
        apply Hnext with (tail := []); [reflexivity|now rewrite app_nil_r|reflexivity].
    + eapply run_eval; [reflexivity|]. world.
      apply Hnext with (tail := [ConsoleError (Text.taskFailed (i + 1)) v]);
        reflexivity.
Qed.

Lemma handleSend_shared apiKey settings batchMode batchCount env text atts tasks w :
  truthy apiKey = true ->
  batchMode <> off ->
  batchTasks batchMode batchCount text atts = inr tasks ->
  (forall k, preFault (env k) = None) ->
  exists w' hs,
    handleSend apiKey settings batchMode batchCount env text atts w = (Normal tt, w')
    /\ length (messages w') = length (messages w) + 2 * length tasks
    /\ histories (trace w') = histories (trace w) ++ hs
    /\ map (@length ChatMessage) hs
       = map (fun j => length (messages w) + 2 * j) (seq 0 (length tasks))
    /\ Forall (fun h => exists more, h = messages w ++ more) hs.
Proof.
  intros Hkey Hmode Htasks Hpf.
  assert (R : run (runBatch apiKey settings env tasks) w (fun c w' =>
            c = Normal tt
            /\ length (messages w') = length (messages w) + 2 * length tasks
            /\ exists hs,
                 histories (trace w') = histories (trace w) ++ hs
                 /\ map (@length ChatMessage) hs
                    = map (fun j => length (messages w) + 2 * j)
                        (seq 0 (length tasks))
                 /\ Forall (fun h => exists more, h = messages w ++ more) hs)).
  { unfold runBatch.
    apply run_bind. eapply run_eval; [reflexivity|]. world.
    apply run_bind. eapply run_eval; [reflexivity|]. world.
    apply run_bind.
    eapply run_mono; [apply batchLoop_shared; exact Hpf|].
    intros c w1 (-> & Hl & hs & Hh & Hlen & Hpre). cbn [messages trace] in *.
    apply run_bind. eapply run_eval; [reflexivity|]. world.
    apply run_bind. eapply run_eval; [reflexivity|]. world.
    eapply run_eval; [reflexivity|]. world.
    split; [reflexivity|]. split; [exact Hl|].
    rewrite !histories_app in *. cbn [histories] in *.
    rewrite !app_nil_r in *. exists hs. auto. }
  apply run_inv in R as (c & w' & E & -> & Hl & hs & Hh & Hlen & Hpre).
  exists w', hs.
  unfold handleSend. rewrite Hkey. cbn [negb].
  rewrite Htasks. destruct batchMode; [congruence| | |]; auto 10.
Qed.

(** In a batch, the pause of 500 ms comes after a task whose call has
    returned and which is not the last: it is the last event of the task,
    right after loading is switched off and the balance refreshed, and the
    call of the next task follows it.  The last task is followed by no
    pause, and neither is a task whose call throws (a value thrown ahead of
    the [try] block, or a request rejected with [null] or [undefined]): the
    loop reports it and goes on at once. *)
Theorem batch_pauses_between_tasks (apiKey : jsstring) (settings : Settings)
    (batchMode : BatchMode) (batchCount : Z) (env : Env) (text : jsstring)
    (atts : list Attachment) (tasks : list Task) (w : World) (j : nat) (task : Task) :
  truthy apiKey = true ->
  batchMode <> off ->
  batchTasks batchMode batchCount text atts = inr tasks ->
  nth_error tasks j = Some task ->
  exists w' pre mid post,
    handleSend apiKey settings batchMode batchCount env text atts w = (Normal tt, w')
    /\ trace w'
       = trace w
         ++ [AddToast (Text.batchStart (length tasks)) info]
         ++ pre
         ++ Invoke (ChatInterface.text task) (attachments task) :: mid
         ++ post
         ++ [SetBatchMode off; AddToast (Text.batchDone (length tasks)) success]
    /\ invoked pre = firstn j tasks
    /\ pauses pre = repeat 500%Z (length (pauses pre))
    /\ invoked mid = []
    /\ (post = [] \/ exists t a post', post = Invoke t a :: post')
    /\ invoked post = skipn (S j) tasks
    /\ (preFault (env (invocations w + j)) = None ->
        settles (env (invocations w + j)) <> inr jsNull ->
        settles (env (invocations w + j)) <> inr jsUndefined ->
        j < length tasks - 1 ->
        exists generation,
          mid = generation ++ [SetLoading false; FetchBalance; Sleep 500]
          /\ pauses generation = []
          /\ post <> [])
    /\ (j = length tasks - 1 -> pauses mid = [] /\ post = [])
    /\ (preFault (env (invocations w + j)) <> None
        \/ settles (env (invocations w + j)) = inr jsNull
        \/ settles (env (invocations w + j)) = inr jsUndefined ->
        pauses mid = []).
Proof.
  intros Hkey Hmode Htasks Hnth.
  destruct (@handleSend_batch apiKey settings batchMode batchCount env text atts tasks w
              Hkey Hmode Htasks)
    as (w' & loop & E & Htr & Hrun & Hprog).
  pose proof (@BatchRun_pauses _ _ _ _ _ _ _ _ Hrun) as Hall.
  destruct (@BatchRun_nth _ _ _ _ _ _ _ _ _ _ Hrun Hnth)
    as (pre & body & post & history & t & -> & Hpre & _ & Hgen & Hhead & Hpost & _).
  cbn [Nat.add] in *.
  pose proof (quiet_pauses _ (@Generation_quiet _ _ _ _ _ _ _ _ Hgen)) as Hp.
  exists w', pre,
         (body ++ taskTail j (length tasks) (completion (env (invocations w + j)))),
         post.
  split; [exact E|]. split; [rewrite Htr; same_list|].
  split; [exact Hpre|].
  split.
  { rewrite pauses_app in Hall. apply Forall_app in Hall as [Hall _].
    clear -Hall. induction (pauses pre) as [|x l IH]; [reflexivity|].
    inversion Hall; subst. cbn [length repeat]. f_equal. auto. }
  split.
  { rewrite invoked_app, taskTail_invoked.
    now rewrite (quiet_invoked _ (@Generation_quiet _ _ _ _ _ _ _ _ Hgen)). }
  split; [exact Hhead|]. split; [exact Hpost|].
  assert (Hlen : length (skipn (S j) tasks) = length tasks - S j)
    by apply length_skipn.
  split; [|split].
  - intros Hpf Hn Hu Hj.
    destruct (@Generation_observed _ _ _ _ _ _ _ _ Hgen Hpf) as (_ & _ & _ & _ & gen & Hb).
    exists gen. unfold completion. rewrite Hpf.
    assert (Hc : match settles (env (invocations w + j)) with
                 | inr jsNull => Throw (thrown (cannotRead (lit "null") (lit "name")))
                 | inr jsUndefined =>
                     Throw (thrown (cannotRead (lit "undefined") (lit "name")))
                 | _ => Normal tt
                 end = Normal tt).
    { destruct (settles (env (invocations w + j))) as [ps|[| |e]]; congruence. }
    rewrite Hc. cbn [taskTail].
    apply Nat.ltb_lt in Hj. rewrite Hj.
    split; [rewrite Hb; same_list|]. split.
    + rewrite Hb, pauses_app in Hp. now apply app_eq_nil in Hp.
    + intros ->. cbn [invoked] in Hpost. apply Nat.ltb_lt in Hj.
      rewrite <- Hpost in Hlen. cbn [length] in Hlen. lia.
  - intros Hj. split.
    + rewrite pauses_app, Hp. cbn [app].
      destruct (completion (env (invocations w + j))); [|reflexivity].
      cbn [taskTail]. replace (j <? length tasks - 1) with false; [reflexivity|].
      symmetry. apply Nat.ltb_ge. lia.
    + destruct Hhead as [->|(t' & a & post' & ->)]; [reflexivity|].
      cbn [invoked] in Hpost. rewrite <- Hpost in Hlen. cbn [length] in Hlen. lia.
  - intros Hthrow. rewrite pauses_app, Hp. cbn [app]. unfold completion.
    destruct (preFault (env (invocations w + j))) as [v|]; [reflexivity|].
    destruct Hthrow as [H|[H|H]]; [congruence| |]; now rewrite H.
Qed.

Lemma batch_pauses_between_tasks_witness :
  exists w' pre mid post,
    handleSend (lit "key") plainSettings normal 4 failThree (lit "cat") [] world0
    = (Normal tt, w')
    /\ trace w'
       = trace world0
         ++ [AddToast (Text.batchStart (length fourTasks)) info]
         ++ pre
         ++ Invoke (lit "cat") [] :: mid
         ++ post
         ++ [SetBatchMode off; AddToast (Text.batchDone (length fourTasks)) success]
    /\ invoked pre = firstn 0 fourTasks
    /\ pauses pre = repeat 500%Z (length (pauses pre))
    /\ invoked mid = []
    /\ (post = [] \/ exists t a post', post = Invoke t a :: post')
    /\ invoked post = skipn 1 fourTasks
    /\ (preFault (failThree (invocations world0 + 0)) = None ->
        settles (failThree (invocations world0 + 0)) <> inr jsNull ->
        settles (failThree (invocations world0 + 0)) <> inr jsUndefined ->
        0 < length fourTasks - 1 ->
        exists generation,
          mid = generation ++ [SetLoading false; FetchBalance; Sleep 500]
          /\ pauses generation = []
          /\ post <> [])
    /\ (0 = length fourTasks - 1 -> pauses mid = [] /\ post = [])
    /\ (preFault (failThree (invocations world0 + 0)) <> None
        \/ settles (failThree (invocations world0 + 0)) = inr jsNull
        \/ settles (failThree (invocations world0 + 0)) = inr jsUndefined ->
        pauses mid = []).
Proof.
  apply (@batch_pauses_between_tasks (lit "key") plainSettings normal 4 failThree
           (lit "cat") [] fourTasks world0 0 {| text := lit "cat"; attachments := [] |}).
  - reflexivity.
  - discriminate.
  - reflexivity.
  - reflexivity.
Defined.

(** In the batch of four whose second call throws and whose third request
    rejects with [null], the pauses come after the first task only: the
    second and the third throw, the fourth is the last. *)
Example pauses_only_after_returns :
  let tr := trace (snd (handleSend (lit "key") plainSettings normal 4 failThree
                          (lit "cat") [] world0)) in
  pauses tr = [500%Z]
  /\ firstn 4 (skipn 8 tr)
     = [SetLoading false; FetchBalance; Sleep 500; Invoke (lit "cat") []]
  /\ invoked (firstn 8 tr) = [{| text := lit "cat"; attachments := [] |}].
Proof. vm_compute. repeat split. Qed.

(** The tasks of a batch are turns of one conversation: when no call
    throws ahead of its [try] block, each task adds its two messages to the
    transcript, and the history of the request of task j is taken from the
    transcript from before the batch followed by the 2 j messages of the
    tasks before it. *)
Theorem batch_tasks_share_transcript (apiKey : jsstring) (settings : Settings)
    (batchMode : BatchMode) (batchCount : Z) (env : Env) (text : jsstring)
    (atts : list Attachment) (tasks : list Task) (w : World) :
  truthy apiKey = true ->
  batchMode <> off ->
  batchTasks batchMode batchCount text atts = inr tasks ->
  (forall k, preFault (env k) = None) ->
  exists w' hs,
    handleSend apiKey settings batchMode batchCount env text atts w = (Normal tt, w')
    /\ histories (trace w') = histories (trace w) ++ hs
    /\ map (@length ChatMessage) hs
       = map (fun j => length (messages w) + 2 * j) (seq 0 (length tasks))
    /\ Forall (fun h => exists more, h = messages w ++ more) hs
    /\ length (messages w') = length (messages w) + 2 * length tasks.
Proof.
  intros Hkey Hmode Htasks Hpf.
  destruct (@handleSend_shared apiKey settings batchMode batchCount env text atts
              tasks w Hkey Hmode Htasks Hpf) as (w' & hs & E & Hl & Hh & Hlen & Hpre).
  exists w', hs. auto.
Qed.

Lemma batch_tasks_share_transcript_witness :
  exists w' hs,
    handleSend (lit "key") plainSettings multi_image 0 stopSecond (lit "cat")
      [Scenario.img0; Scenario.img1; Scenario.img2] world0
    = (Normal tt, w')
    /\ histories (trace w') = hs
    /\ map (@length ChatMessage) hs = [0; 2; 4]
    /\ Forall (fun h => exists more, h = more) hs
    /\ length (messages w') = 6.
Proof.
  apply (@batch_tasks_share_transcript (lit "key") plainSettings multi_image 0
           stopSecond (lit "cat") [Scenario.img0; Scenario.img1; Scenario.img2]
           [ {| text := lit "cat"; attachments := [Scenario.img0] |};
             {| text := lit "cat"; attachments := [Scenario.img1] |};
             {| text := lit "cat"; attachments := [Scenario.img2] |} ]
           world0).
  - reflexivity.
  - discriminate.
  - reflexivity.
  - intros k. unfold stopSecond. destruct (k =? 1); reflexivity.
Defined.


(** *** Sending without an API key *)

(** Without an API key [handleSend] opens the key dialog, shows one error
    notification and does nothing else, in every batch mode: the key is
    checked before the checks of the batch, nothing is added to the
    transcript and [executeSingleGeneration] is not called. *)
Theorem send_without_key_asks_for_key (apiKey : jsstring) (settings : Settings)
    (batchMode : BatchMode) (batchCount : Z) (env : Env) (text : jsstring)
    (atts : list Attachment) (w : World) :
  truthy apiKey = false ->
  exists w',
    handleSend apiKey settings batchMode batchCount env text atts w = (Normal tt, w')
    /\ trace w' = trace w ++ [SetShowApiKeyModal true; AddToast Text.needApiKey error]
    /\ messages w' = messages w
    /\ invocations w' = invocations w
    /\ batchProgress w' = batchProgress w.
Proof.
  intros Hkey. unfold handleSend. rewrite Hkey. cbn [negb].
  eexists. split; [reflexivity|]. world.
  split; [now rewrite <- app_assoc|]. auto.
Qed.

Lemma send_without_key_asks_for_key_witness :
  exists w',
    handleSend [] plainSettings multi_image 3 (fun _ => succeeds) (lit "cat") [] world0
    = (Normal tt, w')
    /\ trace w' = [SetShowApiKeyModal true; AddToast Text.needApiKey error]
    /\ messages w' = []
    /\ invocations w' = 0
    /\ batchProgress w' = {| current := 0; total := 0 |}.
Proof.
  apply (@send_without_key_asks_for_key [] plainSettings multi_image 3
           (fun _ => succeeds) (lit "cat") [] world0).
  reflexivity.
Defined.

End ExecMore.

(** ** [handleRegenerate] *)

Module RegenerateMore.

Import ChatInterface Run ExecFacts BatchFacts ExecMore.

Lemma strEq_refl s : strEq s s = true.
Proof. induction s as [|c s IH]; [reflexivity|]. cbn. now rewrite N.eqb_refl. Qed.

Lemma findIndexFrom_skip id before :
  Forall (fun x => strEq (msgId x) id = false) before ->
  forall i rest,
    findIndexFrom i id (before ++ rest) = findIndexFrom (i + length before) id rest.
Proof.
  induction 1 as [|x before Hx _ IH]; intros i rest; cbn [app length findIndexFrom].
  - now rewrite Nat.add_0_r.
  - rewrite Hx, IH. f_equal. lia.
Qed.


Lemma findIndex_at id before x rest :
  Forall (fun m => strEq (msgId m) id = false) before ->
  strEq (msgId x) id = true ->
  findIndex id (before ++ x :: rest) = Some (length before).
Proof.
  intros Hb Hx. unfold findIndex. rewrite findIndexFrom_skip by exact Hb.
  cbn [findIndexFrom]. now rewrite Hx.
Qed.

Lemma nth_error_middle {X : Type} (before : list X) x rest :
  nth_error (before ++ x :: rest) (length before) = Some x.
Proof. induction before; [reflexivity|assumption]. Qed.

Lemma find_text_of_userParts text atts :
  find (fun p => match partText p with
                 | Some t => truthy t
                 | None => false
                 end) (userParts text atts)
  = if truthy text then Some (textPart text) else None.
Proof.
  unfold userParts. induction atts as [|a atts IH]; cbn [map app find].
  - destruct (truthy text) eqn:E; cbn [find textPart partText]; now rewrite ?E.
  - cbn [imagePart partText]. exact IH.
Qed.

Lemma images_of_userParts text atts :
  flat_map (fun p => match inlineData p with
                     | Some d => [attachmentOfPart d]
                     | None => []
                     end)
    (filter (fun p => match inlineData p with
                      | Some _ => true
                      | None => false
                      end) (userParts text atts))
  = map (fun a => attachmentOfPart {| inlineMimeType := mimeType a;
                                      inlineBytes := base64Data a |}) atts.
Proof.
  unfold userParts. induction atts as [|a atts IH]; cbn [map app filter flat_map].
  - now destruct (truthy text).
  - cbn [imagePart inlineData flat_map app]. now rewrite IH.
Qed.

(** What [handleRegenerate] does with a user message at position
    [length before]. *)
Lemma regeneration_of_user before u rest :
  role u = user ->
  Forall (fun x => strEq (msgId x) (msgId u) = false) before ->
  regeneration false (before ++ u :: rest) (msgId u)
  = Some {| sliceIndex := (Z.of_nat (length before) - 1)%Z;
            resendText :=
              match find (fun p => match partText p with
                                   | Some t => truthy t
                                   | None => false
                                   end) (parts u) with
              | Some p => match partText p with Some t => t | None => [] end
              | None => []
              end;
            resendAttachments :=
              flat_map (fun p => match inlineData p with
                                 | Some d => [attachmentOfPart d]
                                 | None => []
                                 end)
                (filter (fun p => match inlineData p with
                                  | Some _ => true
                                  | None => false
                                  end) (parts u)) |}.
Proof.
  intros Hu Hb. unfold regeneration.
  rewrite findIndex_at by (trivial; apply strEq_refl).
  rewrite nth_error_middle, Hu. reflexivity.
Qed.

(** The same for the model message that follows the user message. *)
Lemma regeneration_of_reply before u m rest :
  role u = user ->
  role m = model ->
  Forall (fun x => strEq (msgId x) (msgId m) = false) before ->
  strEq (msgId u) (msgId m) = false ->
  regeneration false (before ++ u :: m :: rest) (msgId m)
  = Some {| sliceIndex := (Z.of_nat (length before) - 1)%Z;
            resendText :=
              match find (fun p => match partText p with
                                   | Some t => truthy t
                                   | None => false
                                   end) (parts u) with
              | Some p => match partText p with Some t => t | None => [] end
              | None => []
              end;
            resendAttachments :=
              flat_map (fun p => match inlineData p with
                                 | Some d => [attachmentOfPart d]
                                 | None => []
                                 end)
                (filter (fun p => match inlineData p with
                                  | Some _ => true
                                  | None => false
                                  end) (parts u)) |}.
Proof.
  intros Hu Hm Hb Hum. unfold regeneration.
  change (before ++ u :: m :: rest) with (before ++ [u] ++ m :: rest).
  rewrite app_assoc.
  rewrite findIndex_at;
    [|apply Forall_app; split; [exact Hb|constructor; [exact Hum|constructor]]
     |apply strEq_refl].
  rewrite nth_error_middle, Hm.
  rewrite length_app. cbn [length]. rewrite Nat.add_1_r.
  rewrite <- app_assoc. cbn [app]. rewrite nth_error_middle, Hu.
  do 2 f_equal. lia.
Qed.

(** What [handleRegenerate] slices and resends for a turn: the same from
    the user message as from its reply. *)
Lemma regeneration_of_turn (before rest : list ChatMessage)
    (u m : ChatMessage) (text : jsstring) (atts : list Attachment) :
  role u = user ->
  parts u = userParts text atts ->
  role m = model ->
  Forall (fun a => base64Data a <> None) atts ->
  Forall (fun x => strEq (msgId x) (msgId u) = false
                   /\ strEq (msgId x) (msgId m) = false) before ->
  strEq (msgId u) (msgId m) = false ->
  exists r,
    regeneration false (before ++ u :: m :: rest) (msgId u) = Some r
    /\ regeneration false (before ++ u :: m :: rest) (msgId m) = Some r
    /\ sliceIndex r = (Z.of_nat (length before) - 1)%Z
    /\ resendText r = text
    /\ map mimeType (resendAttachments r) = map mimeType atts
    /\ map base64Data (resendAttachments r) = map base64Data atts
    /\ userParts (resendText r) (resendAttachments r) = parts u.
Proof.
  intros Hu Hparts Hm Hdata Hb Hum.
  assert (Hbu : Forall (fun x => strEq (msgId x) (msgId u) = false) before)
    by (eapply Forall_impl; [|exact Hb]; now intros x [? ?]).
  assert (Hbm : Forall (fun x => strEq (msgId x) (msgId m) = false) before)
    by (eapply Forall_impl; [|exact Hb]; now intros x [? ?]).
  eexists. split; [apply regeneration_of_user; assumption|].
  split; [apply regeneration_of_reply; assumption|].
  cbn [sliceIndex resendText resendAttachments].
  rewrite Hparts, find_text_of_userParts, images_of_userParts.
  assert (Htext : match (if truthy text then Some (textPart text) else None) with
                  | Some p => match partText p with Some t => t | None => [] end
                  | None => []
                  end = text).
  { destruct text; reflexivity. }
  rewrite Htext.
  assert (Hmime : map mimeType
                    (map (fun a => attachmentOfPart
                                     {| inlineMimeType := mimeType a;
                                        inlineBytes := base64Data a |}) atts)
                  = map mimeType atts).
  { rewrite map_map. apply map_ext. reflexivity. }
  assert (Hbytes : map base64Data
                     (map (fun a => attachmentOfPart
                                      {| inlineMimeType := mimeType a;
                                         inlineBytes := base64Data a |}) atts)
                   = map base64Data atts).
  { rewrite map_map. apply map_ext_in. intros a Ha.
    rewrite Forall_forall in Hdata. specialize (Hdata a Ha).
    cbn. destruct (base64Data a); [reflexivity|congruence]. }
  split; [reflexivity|]. split; [reflexivity|]. split; [exact Hmime|].
  split; [exact Hbytes|].
  unfold userParts. f_equal. rewrite map_map.
  apply map_ext_in. intros a Ha.
  rewrite Forall_forall in Hdata. specialize (Hdata a Ha).
  cbn. destruct (base64Data a); [reflexivity|congruence].
Qed.


Lemma payload_of_maps atts atts' :
  map mimeType atts' = map mimeType atts ->
  map base64Data atts' = map base64Data atts ->
  imagesPayload atts' = imagesPayload atts.
Proof.
  revert atts'. induction atts as [|a atts IH]; intros [|a' atts'] Hm Hb;
    try discriminate; [reflexivity|].
  cbn [map] in *. inversion Hm. inversion Hb.
  unfold imagesPayload in *. cbn [map]. f_equal; [congruence|]. now apply IH.
Qed.

(** Regenerating a turn resends what the turn sent, when an API key is set
    and the batch mode is off.  For a user message that
    [executeSingleGeneration] built from a text and attachments that carry
    their data, followed by its model message, [handleRegenerate] called on
    either of the two slices the transcript just before the user message
    and runs one generation on what [sliceMessages] kept: its request
    carries that transcript as history, the same text and, image by image,
    the same MIME type and data, and the transcript ends with a user
    message that has the parts of the old one and a model message. *)
Theorem regenerate_resends_the_turn (apiKey : jsstring) (settings : Settings)
    (batchCount : Z) (env : Env)
    (sliceMessages : Z -> list ChatMessage -> list ChatMessage) (w : World)
    (before rest : list ChatMessage) (u m : ChatMessage) (text : jsstring)
    (atts : list Attachment) (id : jsstring) :
  truthy apiKey = true ->
  preFault (env (invocations w)) = None ->
  messages w = before ++ u :: m :: rest ->
  role u = user ->
  parts u = userParts text atts ->
  role m = model ->
  Forall (fun a => base64Data a <> None) atts ->
  Forall (fun x => strEq (msgId x) (msgId u) = false
                   /\ strEq (msgId x) (msgId m) = false) before ->
  strEq (msgId u) (msgId m) = false ->
  id = msgId u \/ id = msgId m ->
  exists c w' sent reply,
    handleRegenerate apiKey settings off batchCount env sliceMessages false id w
    = (c, w')
    /\ messages w'
       = sliceMessages (Z.of_nat (length before) - 1)%Z (messages w) ++ [sent; reply]
    /\ role sent = user
    /\ parts sent = parts u
    /\ role reply = model
    /\ requests (trace w')
       = requests (trace w)
         ++ [(streamResponse settings,
              sliceMessages (Z.of_nat (length before) - 1)%Z (messages w),
              text,
              map (fun a => {| payloadData := base64Data a;
                               payloadMime := mimeType a |}) atts)].
Proof.
  intros Hkey Hpf Hw Hu Hparts Hm Hdata Hb Hum Hid.
  destruct (@regeneration_of_turn before rest u m text atts Hu Hparts Hm Hdata Hb Hum)
    as (r & Hru & Hrm & Hslice & Htext & Hmime & Hbytes & Hsame).
  assert (Hreg : regeneration false (messages w) id = Some r)
    by (rewrite Hw; destruct Hid as [-> | ->]; assumption).
  assert (R : run (handleRegenerate apiKey settings off batchCount env sliceMessages
                     false id) w
                (fun c w' => exists sent reply,
                   messages w'
                   = sliceMessages (Z.of_nat (length before) - 1)%Z (messages w)
                     ++ [sent; reply]
                   /\ role sent = user
                   /\ parts sent = parts u
                   /\ role reply = model
                   /\ requests (trace w')
                      = requests (trace w)
                        ++ [(streamResponse settings,
                             sliceMessages (Z.of_nat (length before) - 1)%Z (messages w),
                             text, imagesPayload atts)])).
  { unfold handleRegenerate.
    apply run_bind. eapply run_eval; [reflexivity|]. world. rewrite Hreg.
    apply run_bind. eapply run_eval; [reflexivity|]. world.
    unfold handleSend. rewrite Hkey. cbn [negb].
    eapply run_mono; [apply exec_run|]. world.
    intros c w1 (_ & _ & _ & _ & (body & Htr & Hgen) & Hmsg).
    cbn [messages trace now invocations] in *. rewrite Hpf in Hmsg.
    destruct Hmsg as (reply & Hmsg & Hrole & _).
    destruct (@Generation_observed _ _ _ _ _ _ _ _ Hgen Hpf) as (Hreq & _).
    exists (userMessage (now w) (resendText r) (resendAttachments r)), reply.
    rewrite Hslice in *.
    split; [exact Hmsg|]. split; [reflexivity|].
    split; [exact Hsame|]. split; [exact Hrole|].
    rewrite Htr.
    change (Invoke (resendText r) (resendAttachments r) :: body)
      with ([Invoke (resendText r) (resendAttachments r)] ++ body).
    rewrite !requests_app, Hreq. cbn [requests app].
    now rewrite Htext, (@payload_of_maps _ _ Hmime Hbytes). }
  apply run_inv in R. destruct R as (c & w' & E & sent & reply & HP).
  exists c, w', sent, reply. split; [exact E|exact HP].
Qed.

Lemma regenerate_resends_the_turn_witness :
  let turn :=
    [ {| msgId := lit "1000"; role := user;
         parts := [imagePart (lit "image/png") (Some (lit "AAAA"));
                   textPart (lit "cat")];
         timestamp := 1000; isError := false; thinkingDuration := None |};
      {| msgId := lit "1001"; role := model;
         parts := [textPart (lit "Error: 503")];
         timestamp := 1000; isError := true; thinkingDuration := None |} ] in
  let w := {| messages := turn; abortControllerRef := None;
              batchProgress := {| current := 0; total := 0 |};
              now := 5000; invocations := 1; trace := [] |} in
  exists c w' sent reply,
    handleRegenerate (lit "key") plainSettings off 1 (fun _ => answers)
      (fun index ms => firstn (Z.to_nat (index + 1)%Z) ms) false (lit "1001") w
    = (c, w')
    /\ messages w' = [sent; reply]
    /\ role sent = user
    /\ parts sent = [imagePart (lit "image/png") (Some (lit "AAAA"));
                     textPart (lit "cat")]
    /\ role reply = model
    /\ requests (trace w')
       = [(false, [], lit "cat",
           [{| payloadData := Some (lit "AAAA"); payloadMime := lit "image/png" |}])].
Proof.
  intros turn w.
  apply (@regenerate_resends_the_turn (lit "key") plainSettings 1 (fun _ => answers)
           (fun index ms => firstn (Z.to_nat (index + 1)%Z) ms) w [] []
           {| msgId := lit "1000"; role := user;
              parts := [imagePart (lit "image/png") (Some (lit "AAAA"));
                        textPart (lit "cat")];
              timestamp := 1000; isError := false; thinkingDuration := None |}
           {| msgId := lit "1001"; role := model;
              parts := [textPart (lit "Error: 503")];
              timestamp := 1000; isError := true; thinkingDuration := None |}
           (lit "cat") [Scenario.img0] (lit "1001")).
  - reflexivity.
  - reflexivity.
  - reflexivity.
  - reflexivity.
  - reflexivity.
  - reflexivity.
  - repeat constructor. discriminate.
  - constructor.
  - reflexivity.
  - right. reflexivity.
Defined.



End RegenerateMore.

(** ** The arcade *)

Module ArcadeMore.

Import ChatInterface.

Lemma exit_has_timer_step a e :
  (isExiting a = true -> 0 < closing a) ->
  isExiting (arcadeStep a e) = true -> 0 < closing (arcadeStep a e).
Proof.
  intros Inv. destruct e as [| |loading|]; cbn [arcadeStep].
  - unfold handleToggleArcade, handleCloseArcade.
    destruct (showArcade a), (isExiting a); cbn; intros H; auto; lia.
  - cbn. lia.
  - unfold loadingEffect. destruct loading; cbn; [discriminate|exact Inv].
  - unfold closeTimerFires. destruct (closing a) eqn:E; cbn; [|discriminate].
    rewrite E. exact Inv.
Qed.

Lemma timers_run_out k :
  forall a, k <= closing a ->
    closing (Nat.iter k closeTimerFires a) = closing a - k
    /\ (0 < k -> showArcade (Nat.iter k closeTimerFires a) = false
                 /\ isExiting (Nat.iter k closeTimerFires a) = false).
Proof.
  induction k as [|k IH]; intros a Hk; simpl Nat.iter.
  - split; [lia|intros H; inversion H].
  - destruct (IH a ltac:(lia)) as [Hc _].
    unfold closeTimerFires at 1 3 5. rewrite Hc.
    destruct (closing a - k) as [|pending] eqn:E; [lia|]. cbn. split; [lia|auto].
Qed.

(** The exit animation of the arcade always ends: whatever the user and
    the loading flag do, while the arcade is exiting a timer of
    [handleCloseArcade] is pending.  The timers are never cancelled: once
    the pending ones have fired the arcade is hidden and no longer exiting,
    also when a generation that started in between had opened it again.
    While the arcade is shown and exiting, the toggle does nothing. *)
Theorem arcade_exit_always_ends (events : list ArcadeEvent) :
  let a := fold_left arcadeStep events arcade0 in
  (isExiting a = true -> 0 < closing a)
  /\ (0 < closing a ->
      Nat.iter (closing a) closeTimerFires a
      = {| showArcade := false; isExiting := false; closing := 0 |})
  /\ (showArcade a = true -> isExiting a = true -> handleToggleArcade a = a).
Proof.
  cbv zeta. split; [|split].
  - assert (G : forall evs a, (isExiting a = true -> 0 < closing a) ->
                isExiting (fold_left arcadeStep evs a) = true ->
                0 < closing (fold_left arcadeStep evs a)).
    { induction evs as [|e evs IH]; intros a Inv; cbn [fold_left]; [exact Inv|].
      apply IH. now apply exit_has_timer_step. }
    apply G. discriminate.
  - generalize (fold_left arcadeStep events arcade0). intros a Hpos.
    destruct (@timers_run_out (closing a) a (le_n _)) as [Hc Hf].
    destruct (Hf Hpos) as [Hs He].
    destruct (Nat.iter (closing a) closeTimerFires a) as [s x c]. cbn in *.
    subst. f_equal. lia.
  - generalize (fold_left arcadeStep events arcade0). intros a Hs He.
    unfold handleToggleArcade. now rewrite Hs, He.
Qed.

Lemma arcade_exit_always_ends_witness :
  let a := fold_left arcadeStep
             [LoadingChanges true; ToggleArcade; LoadingChanges false;
              LoadingChanges true; ToggleArcade] arcade0 in
  a = {| showArcade := true; isExiting := true; closing := 2 |}
  /\ Nat.iter 2 closeTimerFires a
     = {| showArcade := false; isExiting := false; closing := 0 |}
  /\ handleToggleArcade a = a.
Proof.
  intros a.
  destruct (@arcade_exit_always_ends
              [LoadingChanges true; ToggleArcade; LoadingChanges false;
               LoadingChanges true; ToggleArcade]) as (_ & H2 & H3).
  split; [reflexivity|]. split; [apply H2; vm_compute; lia|].
  apply H3; reflexivity.
Defined.

End ArcadeMore.
